(** * VI-RADS course: the statistical analysis engine

    A shallow embedding of the statistical utilities and the analyses of the
    analysis screen (components/AnalysisScreen.tsx), of the data model
    (types.ts), of the state component (App.tsx) and of the evaluation screen
    (components/EvaluationScreen.tsx), and proofs about them.

    Numbers.  A JavaScript number is an IEEE 754 binary64 value, so a number
    that carries a measure or a ratio is a primitive [float] here, with the
    kernel's binary64 operations: [+ - * /], the comparisons and [sqrt] are
    the correctly rounded ones the program runs.  Numbers that only ever hold
    integers (case numbers, scores, counts, array lengths, degrees of freedom)
    are [Z]; they enter floating-point arithmetic through [Z2num], the
    binary64 number nearest to an integer, which is the integer itself below
    2^53.  [Math.exp], [Math.log], [Math.sin] and [Math.pow] are left to the
    platform by ECMAScript ("implementation-approximated"): they are the
    methods of the class [JSMath], and a statement that needs one of the few
    values ECMAScript fixes says so in a hypothesis. *)

From Stdlib Require Import ZArith Reals Lra Lia Floats Bool List.
From stdpp Require Import gmap strings list fin_maps sorting.
Import ListNotations.

Set Warnings "-inexact-float".
Local Open Scope Z_scope.

(** ** JavaScript numbers *)

(** The binary64 number nearest to an integer ([Number(z)]). *)
Definition Z2num (z : Z) : float := SF2Prim (binary_normalize prec emax z 0 false).

(** [Math.PI]. *)
Definition Math_PI : float := 3.141592653589793%float.

(** The platform's transcendental functions. *)
Class JSMath := {
  Math_exp : float -> float;
  Math_log : float -> float;
  Math_sin : float -> float;
  Math_pow : float -> float -> float
}.

(** [Number::toString] gives equal strings exactly for equal numbers, the two
    zeros (both print as 0) and two NaNs. *)
Definition sameString (x y : float) : bool :=
  (x =? y)%float || (is_nan x && is_nan y).

(** The integer [Math.ceil] yields on a finite number. *)
Definition ceilZ (x : float) : Z :=
  match Prim2SF x with
  | S754_finite s m e =>
      let v := cond_Zopp s (Z.pos m) in
      if 0 <=? e then v * 2 ^ e else - ((- v) / 2 ^ (- e))
  | _ => 0
  end.

(** [arr.slice(0, Math.ceil(x))]: the end index goes through
    ToIntegerOrInfinity, and a negative one counts from the end. *)
Definition slice_to_ceil {A : Type} (arr : list A) (x : float) : list A :=
  match Prim2SF x with
  | S754_nan => []
  | S754_infinity false => arr
  | S754_infinity true => []
  | _ =>
      let k := ceilZ x in
      if k <? 0 then firstn (Z.to_nat (Z.of_nat (length arr) + k)) arr
      else firstn (Z.to_nat k) arr
  end.

(** ** Data model (types.ts) *)

Inductive APStage := Ta | Tis | T1 | T2 | T3 | T4.

#[global] Instance APStage_eq_dec : EqDecision APStage.
Proof. solve_decision. Defined.

Definition CVNMI_STAGES : list APStage := [Ta; Tis; T1].
Definition CVMI_STAGES : list APStage := [T2; T3; T4].

Record CaseData := {
  caseNumber : Z;
  ap : APStage;
  isCVMIPositive : bool
}.

(** The case record the upload screen builds from a row of the sheet. *)
Definition parsedCase (n : Z) (stage : APStage) : CaseData :=
  {| caseNumber := n; ap := stage; isCVMIPositive := bool_decide (stage ∈ CVMI_STAGES) |}.

Module User.
Record User := {
  id : string;
  name : string;
  surname : string;
  experience : string
}.
End User.
Abbreviation User := User.User.

Record Evaluation := {
  t2 : Z;
  difusion : Z;
  edc : Z;
  viradsFinal : Z;
  t2Confidence : Z;
  difusionConfidence : Z;
  edcConfidence : Z;
  viradsFinalConfidence : Z;
  imageQuality : Z;
  readingTime : float
}.

(** [{ ...e, viradsFinal: v }]. *)
Definition withFinal (v : Z) (e : Evaluation) : Evaluation :=
  {| t2 := t2 e; difusion := difusion e; edc := edc e; viradsFinal := v;
     t2Confidence := t2Confidence e; difusionConfidence := difusionConfidence e;
     edcConfidence := edcConfidence e; viradsFinalConfidence := viradsFinalConfidence e;
     imageQuality := imageQuality e; readingTime := readingTime e |}.

Record AnalysisMetrics := {
  sensitivity : float;
  specificity : float;
  ppv : float;
  npv : float
}.

Record ConfusionMatrixData := {
  tp : Z;
  fp : Z;
  tn : Z;
  fn : Z
}.

Module TTestResult.
Record TTestResult := {
  t : float;
  df : Z;
  p : float
}.
End TTestResult.
Abbreviation TTestResult := TTestResult.TTestResult.

(** [Object.keys(o).map(Number)] of an object keyed by case number.  Every use
    in the program either sorts the keys or only asks for membership, so the
    order of enumeration is immaterial. *)
Definition Object_keys {A : Type} (o : gmap Z A) : list Z := (map_to_list o).*1.

(** [arr.includes(x)]. *)
Definition includes (arr : list Z) (x : Z) : bool := bool_decide (x ∈ arr).

(** [evaluations[cn]?.viradsFinal > 0]; a missing entry compares as false. *)
Definition hasFinal (evaluations : gmap Z Evaluation) (cn : Z) : bool :=
  match evaluations !! cn with
  | Some e => 0 <? viradsFinal e
  | None => false
  end.

(** ** Statistical utilities *)

Section CoreMath.
Context {M : JSMath}.
Local Open Scope float_scope.

Definition mean (data : list float) : float :=
  if (Z.of_nat (length data) =? 0)%Z then 0
  else fold_left (fun a b => a + b) data 0 / Z2num (Z.of_nat (length data)).

Definition stdDev (data : list float) : float :=
  if (Z.of_nat (length data) <? 2)%Z then 0
  else
    let m := mean data in
    let variance :=
      fold_left (fun acc val => acc + Math_pow (val - m) 2) data 0
      / Z2num (Z.of_nat (length data) - 1) in
    sqrt variance.

(** *** Gamma and Beta functions for the p-value *)

Definition lanczos_g : float := 7.

Definition lanczos_p : list float :=
  [0.99999999999980993; 676.5203681218851; -1259.1392167224028;
   771.32342877765313; -176.61502916214059; 12.507343278686905;
   -0.13857109526572012; 9.9843695780195716e-6; 1.5056327351493116e-7].

(** The body of [logGamma] below its first line. *)
Definition logGamma_lanczos (x : float) : float :=
  let x := x - 1 in
  let a :=
    fold_left (fun a i => a + nth i lanczos_p 0 / (x + Z2num (Z.of_nat i)))
              (seq 1 (length lanczos_p - 1)) (nth 0 lanczos_p 0) in
  let t := x + lanczos_g + 0.5 in
  Math_log (sqrt (2 * Math_PI) * Math_pow t (x + 0.5) * Math_exp (- t) * a).

(** [logGamma] as written, the recursive call bounded by the depth of the
    call stack; [None] is a stack that ran out. *)
Fixpoint logGamma_rec (depth : nat) (x : float) : option float :=
  match depth with
  | O => None
  | S depth' =>
      if x <? 0.5 then
        match logGamma_rec depth' (1 - x) with
        | Some r => Some (Math_PI / (Math_sin (Math_PI * x) * Math_exp r))
        | None => None
        end
      else Some (logGamma_lanczos x)
  end.

(** The recursive call never recurses again ([logGamma_rec_total]), so
    [logGamma] is this. *)
Definition logGamma (x : float) : float :=
  if x <? 0.5 then
    Math_PI / (Math_sin (Math_PI * x) * Math_exp (logGamma_lanczos (1 - x)))
  else logGamma_lanczos x.

Definition MAXIT : nat := 100.
Definition EPS : float := 3.0e-7.
Definition FPMIN : float := 1.0e-30.

Definition floor_FPMIN (d : float) : float := if abs d <? FPMIN then FPMIN else d.

(** The loop of [betacf]: [left] iterations remain, [m] is the loop counter. *)
Fixpoint betacf_loop (left : nat) (m : Z) (x a b qab qap qam c d h : float) : float :=
  match left with
  | O => h
  | S left' =>
      let fm := Z2num m in
      let m2 := Z2num (2 * m) in
      let aa := fm * (b - fm) * x / ((qam + m2) * (a + m2)) in
      let d := floor_FPMIN (1.0 + aa * d) in
      let c := floor_FPMIN (1.0 + aa / c) in
      let d := 1.0 / d in
      let h := h * (d * c) in
      let aa := - (a + fm) * (qab + fm) * x / ((a + m2) * (qap + m2)) in
      let d := floor_FPMIN (1.0 + aa * d) in
      let c := floor_FPMIN (1.0 + aa / c) in
      let d := 1.0 / d in
      let del := d * c in
      let h := h * del in
      if abs (del - 1.0) <? EPS then h
      else betacf_loop left' (m + 1)%Z x a b qab qap qam c d h
  end.

Definition betacf (x a b : float) : float :=
  let qab := a + b in
  let qap := a + 1.0 in
  let qam := a - 1.0 in
  let c := 1.0 in
  let d := floor_FPMIN (1.0 - qab * x / qap) in
  let d := 1.0 / d in
  let h := d in
  betacf_loop MAXIT 1 x a b qab qap qam c d h.

Definition betinc (x a b : float) : float :=
  let bt :=
    if (x =? 0) || (x =? 1) then 0
    else Math_exp (logGamma (a + b) - logGamma a - logGamma b
                   + a * Math_log x + b * Math_log (1 - x)) in
  if x <? (a + 1) / (a + b + 2) then bt * betacf x a b / a
  else 1 - bt * betacf (1 - x) b a / b.

(** *** T-tests *)

Definition tTestIndependent (sample1 sample2 : list float) : option TTestResult :=
  let n1 := Z.of_nat (length sample1) in
  let n2 := Z.of_nat (length sample2) in
  if (n1 <? 2)%Z || (n2 <? 2)%Z then None
  else
    let mean1 := mean sample1 in
    let mean2 := mean sample2 in
    let std1 := stdDev sample1 in
    let std2 := stdDev sample2 in
    let pooledVar :=
      (Z2num (n1 - 1) * Math_pow std1 2 + Z2num (n2 - 1) * Math_pow std2 2)
      / Z2num (n1 + n2 - 2) in
    let se := sqrt (pooledVar * (1 / Z2num n1 + 1 / Z2num n2)) in
    if se =? 0 then
      Some {| TTestResult.t := infinity; TTestResult.df := (n1 + n2 - 2)%Z; TTestResult.p := 0 |}
    else
      let t := (mean1 - mean2) / se in
      let df := (n1 + n2 - 2)%Z in
      let p := betinc (Z2num df / (Z2num df + t * t)) (Z2num df / 2) 0.5 in
      Some {| TTestResult.t := t; TTestResult.df := df; TTestResult.p := p |}.

Definition tTestPaired (sample1 sample2 : list float) : option TTestResult :=
  if negb (Z.of_nat (length sample1) =? Z.of_nat (length sample2))%Z
     || (Z.of_nat (length sample1) <? 2)%Z then None
  else
    let n := Z.of_nat (length sample1) in
    let diffs := map (fun '(d, d2) => d - d2) (combine sample1 sample2) in
    let meanDiff := mean diffs in
    let stdDiff := stdDev diffs in
    if stdDiff =? 0 then
      Some {| TTestResult.t := infinity; TTestResult.df := (n - 1)%Z; TTestResult.p := 0 |}
    else
      let t := meanDiff / (stdDiff / sqrt (Z2num n)) in
      let df := (n - 1)%Z in
      let p := betinc (Z2num df / (Z2num df + t * t)) (Z2num df / 2) 0.5 in
      Some {| TTestResult.t := t; TTestResult.df := df; TTestResult.p := p |}.

(** *** Diagnostic accuracy utilities *)

Definition standardNormalCdf (z : float) : float :=
  let p := 0.3275911 in
  let a1 := 0.254829592 in
  let a2 := -0.284496736 in
  let a3 := 1.421413741 in
  let a4 := -1.453152027 in
  let a5 := 1.061405429 in
  let sign := if z <? 0 then -1 else 1 in
  let x := abs z / sqrt 2.0 in
  let t := 1.0 / (1.0 + p * x) in
  let erf := 1.0 - (((((a5 * t + a4) * t) + a3) * t + a2) * t + a1) * Math_exp (- x * x) in
  0.5 * (1.0 + sign * erf).

Definition calculatePValue (z : float) : float :=
  2 * (1 - standardNormalCdf (abs z)).

(** The pooled proportion, the standard error and the statistic that
    [zTestForProportions] computes on the way. *)
Definition zTest_pPooled (success1 total1 success2 total2 : float) : float :=
  (success1 + success2) / (total1 + total2).

Definition zTest_se (success1 total1 success2 total2 : float) : float :=
  let pPooled := zTest_pPooled success1 total1 success2 total2 in
  sqrt (pPooled * (1 - pPooled) * (1 / total1 + 1 / total2)).

Definition zTest_z (success1 total1 success2 total2 : float) : float :=
  let p1 := success1 / total1 in
  let p2 := success2 / total2 in
  (p1 - p2) / zTest_se success1 total1 success2 total2.

Definition zTestForProportions (success1 total1 success2 total2 : float) : float :=
  if (total1 =? 0) || (total2 =? 0) then 1.0
  else
    let pPooled := zTest_pPooled success1 total1 success2 total2 in
    if (pPooled =? 0) || (pPooled =? 1) then 1.0
    else
      let se := zTest_se success1 total1 success2 total2 in
      if se =? 0 then 1.0
      else calculatePValue (zTest_z success1 total1 success2 total2).

End CoreMath.

Section Accuracy.
Local Open Scope float_scope.

Definition calculateMetrics (matrix : ConfusionMatrixData) (prevalence : float)
  : AnalysisMetrics :=
  let totalPositives := (tp matrix + fn matrix)%Z in
  let totalNegatives := (tn matrix + fp matrix)%Z in
  let sensitivity :=
    if (0 <? totalPositives)%Z then Z2num (tp matrix) / Z2num totalPositives else 0 in
  let specificity :=
    if (0 <? totalNegatives)%Z then Z2num (tn matrix) / Z2num totalNegatives else 0 in
  let ppvNumerator := sensitivity * prevalence in
  let ppvDenominator := ppvNumerator + (1 - specificity) * (1 - prevalence) in
  let ppv := if 0 <? ppvDenominator then ppvNumerator / ppvDenominator else 0 in
  let npvNumerator := specificity * (1 - prevalence) in
  let npvDenominator := npvNumerator + (1 - sensitivity) * prevalence in
  let npv := if 0 <? npvDenominator then npvNumerator / npvDenominator else 0 in
  {| sensitivity := sensitivity; specificity := specificity; ppv := ppv; npv := npv |}.

(** One step of the [forEach] of [getMatrixForEvaluations]. *)
Definition countCase (evaluations : gmap Z Evaluation) (evaluatedCaseNumbers : list Z)
    (cutoff : Z) (matrix : ConfusionMatrixData) (c : CaseData) : ConfusionMatrixData :=
  if negb (includes evaluatedCaseNumbers (caseNumber c)) then matrix
  else
    match evaluations !! caseNumber c with
    | None => matrix
    | Some evaluation =>
        if (viradsFinal evaluation =? 0)%Z then matrix
        else
          let isTestPositive := (cutoff <=? viradsFinal evaluation)%Z in
          let isConditionPositive := isCVMIPositive c in
          if isTestPositive && isConditionPositive then
            {| tp := tp matrix + 1; fp := fp matrix; tn := tn matrix; fn := fn matrix |}
          else if isTestPositive && negb isConditionPositive then
            {| tp := tp matrix; fp := fp matrix + 1; tn := tn matrix; fn := fn matrix |}
          else if negb isTestPositive && isConditionPositive then
            {| tp := tp matrix; fp := fp matrix; tn := tn matrix; fn := fn matrix + 1 |}
          else if negb isTestPositive && negb isConditionPositive then
            {| tp := tp matrix; fp := fp matrix; tn := tn matrix + 1; fn := fn matrix |}
          else matrix
    end.

Definition getMatrixForEvaluations (evaluations : gmap Z Evaluation)
    (cases : list CaseData) (cutoff : Z) : ConfusionMatrixData :=
  let evaluatedCaseNumbers := Object_keys evaluations in
  fold_left (countCase evaluations evaluatedCaseNumbers cutoff) cases
            {| tp := 0; fp := 0; tn := 0; fn := 0 |}.

(** *** The area under the ROC curve *)

Record RocPoint := { fpr : float; tpr : float }.

(** Two points have the same key [`${fpr}-${tpr}`]. *)
Definition sameKey (a b : RocPoint) : bool :=
  sameString (fpr a) (fpr b) && sameString (tpr a) (tpr b).

(** [map.set(key, item)] on the entries of a [Map] in insertion order: an
    existing key keeps its place and takes the new value. *)
Fixpoint Map_set (entries : list RocPoint) (item : RocPoint) : list RocPoint :=
  match entries with
  | [] => [item]
  | e :: rest => if sameKey e item then item :: rest else e :: Map_set rest item
  end.

(** [[...new Map(points.map(item => [key, item])).values()]]. *)
Definition uniqueByKey (points : list RocPoint) : list RocPoint :=
  fold_left Map_set points [].

(** [Array.prototype.sort] with the comparator [(a, b) => a.fpr - b.fpr].  The
    sort is stable, so with a consistent comparator its result is the one of
    inserting the elements one by one, each after those it does not precede. *)
Fixpoint insertByFpr (x : RocPoint) (sorted : list RocPoint) : list RocPoint :=
  match sorted with
  | [] => [x]
  | y :: rest => if fpr x - fpr y <? 0 then x :: y :: rest else y :: insertByFpr x rest
  end.

Definition sortByFpr (points : list RocPoint) : list RocPoint :=
  fold_left (fun sorted x => insertByFpr x sorted) points [].

(** The loop that adds up the trapezoids. *)
Fixpoint trapezoids (area : float) (points : list RocPoint) : float :=
  match points with
  | p1 :: ((p2 :: _) as rest) =>
      trapezoids (area + (fpr p2 - fpr p1) * (tpr p1 + tpr p2) / 2) rest
  | _ => area
  end.

Definition rocPointAt (evaluations : gmap Z Evaluation) (relevantCases : list CaseData)
    (cutoff : Z) : RocPoint :=
  let matrix := getMatrixForEvaluations evaluations relevantCases cutoff in
  let sensitivity :=
    Z2num (tp matrix)
    / Z2num (if (tp matrix + fn matrix =? 0)%Z then 1 else tp matrix + fn matrix) in
  let specificity :=
    Z2num (tn matrix)
    / Z2num (if (tn matrix + fp matrix =? 0)%Z then 1 else tn matrix + fp matrix) in
  {| fpr := 1 - specificity; tpr := sensitivity |}.

Definition calculateAUC (evaluations : gmap Z Evaluation) (cases : list CaseData) : float :=
  let evaluatedCaseNumbers :=
    List.filter (hasFinal evaluations) (Object_keys evaluations) in
  let relevantCases :=
    List.filter (fun c => includes evaluatedCaseNumbers (caseNumber c)) cases in
  if (Z.of_nat (length relevantCases) =? 0)%Z then 0.5
  else
    let totalPositives := Z.of_nat (length (List.filter isCVMIPositive relevantCases)) in
    let totalNegatives := (Z.of_nat (length relevantCases) - totalPositives)%Z in
    if (totalPositives =? 0)%Z || (totalNegatives =? 0)%Z then 0.5
    else
      let rocPoints :=
        [{| fpr := 0; tpr := 0 |}]
        ++ map (rocPointAt evaluations relevantCases) [2; 3; 4; 5]%Z
        ++ [{| fpr := 1; tpr := 1 |}] in
      let uniqueSortedPoints := sortByFpr (uniqueByKey rocPoints) in
      trapezoids 0 uniqueSortedPoints.

End Accuracy.

(** ** Aggregation: the [analysisData] of the analysis screen *)

Record ReaderResult := {
  user : User;
  evaluatedCount : Z;
  finalMetrics : AnalysisMetrics;
  partialMetrics : AnalysisMetrics;
  finalAuc : float;
  pValueSensitivity : float;
  pValueSpecificity : float
}.

Section Aggregation.
Context {M : JSMath}.
Local Open Scope float_scope.

(** [allEvaluations[user.id] || {}]. *)
Definition userEvalsOf (allEvaluations : gmap string (gmap Z Evaluation)) (u : User)
  : gmap Z Evaluation :=
  default ∅ (allEvaluations !! User.id u).

(** The keys with a final score, in ascending order. *)
Definition evaluatedKeysOf (userEvals : gmap Z Evaluation) : list Z :=
  merge_sort Z.le (List.filter (hasFinal userEvals) (Object_keys userEvals)).

Definition partialKeysOf (evaluatedKeys : list Z) (comparisonPercentage : Z) : list Z :=
  slice_to_ceil evaluatedKeys
    (Z2num (Z.of_nat (length evaluatedKeys)) * (Z2num comparisonPercentage / 100)).

(** [partialKeys.forEach(key => { partialEvals[key] = userEvals[key]; })]; the
    keys are keys of [userEvals]. *)
Definition partialEvalsOf (userEvals : gmap Z Evaluation) (partialKeys : list Z)
  : gmap Z Evaluation :=
  fold_left (fun partialEvals key =>
               match userEvals !! key with
               | Some e => <[key := e]> partialEvals
               | None => partialEvals
               end) partialKeys ∅.

Definition zeroMetrics : AnalysisMetrics :=
  {| sensitivity := 0; specificity := 0; ppv := 0; npv := 0 |}.

(** The body of [allUsers.forEach]: the row pushed for one reader. *)
Definition readerResult (allEvaluations : gmap string (gmap Z Evaluation))
    (cases : list CaseData) (cutoff : Z) (prevalence : float)
    (comparisonPercentage : Z) (u : User) : ReaderResult :=
  let userEvals := userEvalsOf allEvaluations u in
  let evaluatedKeys := evaluatedKeysOf userEvals in
  if (Z.of_nat (length evaluatedKeys) =? 0)%Z then
    {| user := u; evaluatedCount := 0;
       finalMetrics := zeroMetrics; partialMetrics := zeroMetrics;
       finalAuc := 0.5; pValueSensitivity := 1; pValueSpecificity := 1 |}
  else
    let evaluatedCases :=
      List.filter (fun c => includes evaluatedKeys (caseNumber c)) cases in
    let finalMatrix := getMatrixForEvaluations userEvals evaluatedCases cutoff in
    let finalMetrics := calculateMetrics finalMatrix prevalence in
    let finalAuc := calculateAUC userEvals evaluatedCases in
    let partialKeys := partialKeysOf evaluatedKeys comparisonPercentage in
    let partialEvals := partialEvalsOf userEvals partialKeys in
    let partialCases :=
      List.filter (fun c => includes partialKeys (caseNumber c)) cases in
    let partialMatrix := getMatrixForEvaluations partialEvals partialCases cutoff in
    let partialMetrics := calculateMetrics partialMatrix prevalence in
    let P_final := (tp finalMatrix + fn finalMatrix)%Z in
    let N_final := (tn finalMatrix + fp finalMatrix)%Z in
    let P_partial := (tp partialMatrix + fn partialMatrix)%Z in
    let N_partial := (tn partialMatrix + fp partialMatrix)%Z in
    let pValueSensitivity :=
      zTestForProportions (Z2num (tp partialMatrix)) (Z2num P_partial)
                          (Z2num (tp finalMatrix)) (Z2num P_final) in
    let pValueSpecificity :=
      zTestForProportions (Z2num (tn partialMatrix)) (Z2num N_partial)
                          (Z2num (tn finalMatrix)) (Z2num N_final) in
    {| user := u; evaluatedCount := Z.of_nat (length evaluatedKeys);
       finalMetrics := finalMetrics; partialMetrics := partialMetrics;
       finalAuc := finalAuc; pValueSensitivity := pValueSensitivity;
       pValueSpecificity := pValueSpecificity |}.

Definition resultsByUser (allEvaluations : gmap string (gmap Z Evaluation))
    (cases : list CaseData) (cutoff : Z) (prevalence : float)
    (comparisonPercentage : Z) (allUsers : list User) : list ReaderResult :=
  map (readerResult allEvaluations cases cutoff prevalence comparisonPercentage) allUsers.

(** [validResults.reduce((acc, r) => acc + r.finalMetrics.x, 0) /
    (validResults.length || 1)]. *)
Definition averageOf (x : AnalysisMetrics -> float) (validResults : list ReaderResult)
  : float :=
  fold_left (fun acc r => acc + x (finalMetrics r)) validResults 0
  / Z2num (if (Z.of_nat (length validResults) =? 0)%Z then 1
           else Z.of_nat (length validResults)).

Definition averageMetrics (results : list ReaderResult) : AnalysisMetrics :=
  let validResults := List.filter (fun r => (0 <? evaluatedCount r)%Z) results in
  {| sensitivity := averageOf sensitivity validResults;
     specificity := averageOf specificity validResults;
     ppv := averageOf ppv validResults;
     npv := averageOf npv validResults |}.

Definition analysisData (allEvaluations : gmap string (gmap Z Evaluation))
    (cases : list CaseData) (cutoff : Z) (prevalence : float)
    (comparisonPercentage : Z) (allUsers : list User)
  : list ReaderResult * AnalysisMetrics :=
  let results :=
    resultsByUser allEvaluations cases cutoff prevalence comparisonPercentage allUsers in
  (results, averageMetrics results).

End Aggregation.

(** *** The prevalence of the sample

    [samplePrevalence] of the analysis screen, the initial value of the
    prevalence the metrics are computed with. *)
Definition samplePrevalence (cases : list CaseData) : float :=
  if (Z.of_nat (length cases) =? 0)%Z then 0%float
  else
    let positiveCases := Z.of_nat (length (List.filter isCVMIPositive cases)) in
    (Z2num positiveCases / Z2num (Z.of_nat (length cases)))%float.

(** ** The time analysis ([timeAnalysisData] of the analysis screen) *)

Definition ALL_READERS_ID : string := "all-readers".

(** [Object.keys(o).map(Number).sort((a, b) => a - b)]. *)
Definition Object_keys_ascending {A : Type} (o : gmap Z A) : list Z :=
  merge_sort Z.le (Object_keys o).

(** A key that is an array index: the decimal form of an integer from 0 to
    2^32 - 2. *)
Definition isArrayIndex (k : Z) : bool := (0 <=? k) && (k <? 2 ^ 32 - 1).

(** [Object.keys(o)] of an object keyed by case numbers whose properties were
    created in the order [created]: the array indices in ascending order,
    then the other keys in the order of their creation.  [created] names
    each key of [o] once; a key it should miss is listed last. *)
Definition Object_keys_created {A : Type} (created : list Z) (o : gmap Z A) : list Z :=
  List.filter isArrayIndex (Object_keys_ascending o)
  ++ List.filter (fun k => negb (isArrayIndex k) && bool_decide (is_Some (o !! k))) created
  ++ List.filter (fun k => negb (isArrayIndex k) && negb (bool_decide (k ∈ created)))
       (Object_keys_ascending o).

(** [Object.entries(o)] and [Object.values(o)], in the order of
    [Object.keys(o)]. *)
Definition Object_entries {A : Type} (created : list Z) (o : gmap Z A) : list (Z * A) :=
  omap (fun k => (fun v => (k, v)) <$> o !! k) (Object_keys_created created o).

Definition Object_values {A : Type} (created : list Z) (o : gmap Z A) : list A :=
  (Object_entries created o).*2.

(** [arr.slice(Math.ceil(x))]: the start index goes through
    ToIntegerOrInfinity, and a negative one counts from the end. *)
Definition slice_from_ceil {A : Type} (arr : list A) (x : float) : list A :=
  match Prim2SF x with
  | S754_nan => arr
  | S754_infinity false => []
  | S754_infinity true => arr
  | _ =>
      let k := ceilZ x in
      if k <? 0 then skipn (Z.to_nat (Z.of_nat (length arr) + k)) arr
      else skipn (Z.to_nat k) arr
  end.

(** [evaluation.readingTime > 0]. *)
Definition timed (e : Evaluation) : bool := (0 <? readingTime e)%float.

(** The results of [timeAnalysisData] that do not depend on the order in which
    the readers were first stored ([avgTimePerCase] and [totalTime] add the
    times up in that order, which the map of the evaluations does not
    keep). *)
Record TimeAnalysisData := {
  learningCurveResult : option TTestResult;
  firstHalfTimes : list float;
  secondHalfTimes : list float;
  pairedTestResult : option TTestResult;
  user1PairedTimes : list float;
  user2PairedTimes : list float;
  experienceTestResult : option TTestResult;
  exp1Times : list float;
  exp2Times : list float
}.

Section TimeAnalysis.
Context {M : JSMath}.
Variable allEvaluations : gmap string (gmap Z Evaluation).
(** The keys of [allEvaluations[id]] in the order in which the reader [id]
    first stored them, which is the order in which the properties of that
    object were created. *)
Variable createdKeys : string -> list Z.
Variable allUsers : list User.
Variables timeUser1 timeUser2 : string.
Variable comparisonPercentage : Z.
Variables expGroup1 expGroup2 : string.
Variable timeAnalysisCasePercentage : Z.

(** [getFilteredEvaluations]; its argument is always an object. *)
Definition getFilteredEvaluations (userEvals : gmap Z Evaluation) : gmap Z Evaluation :=
  if timeAnalysisCasePercentage =? 100 then userEvals
  else
    let sortedKeys := merge_sort Z.le (Object_keys userEvals) in
    let filteredKeys :=
      slice_to_ceil sortedKeys
        (Z2num (Z.of_nat (length sortedKeys)) * (Z2num timeAnalysisCasePercentage / 100)) in
    fold_left (fun filteredEvals key =>
                 match userEvals !! key with
                 | Some e => <[key := e]> filteredEvals
                 | None => filteredEvals
                 end) filteredKeys ∅.

(** [allEvaluations[id] || {}], filtered. *)
Definition filteredEvalsOf (id : string) : gmap Z Evaluation :=
  getFilteredEvaluations (default ∅ (allEvaluations !! id)).

(** The order in which the properties of that object were created: it is the
    stored object itself at 100 percent, and otherwise a new object filled
    in ascending order of the keys. *)
Definition filteredCreatedOf (id : string) : list Z :=
  if timeAnalysisCasePercentage =? 100 then createdKeys id
  else Object_keys_ascending (filteredEvalsOf id).

(** One step of the [forEach] over the entries of a reader: a positive time is
    pushed on the list of its case. *)
Definition pushTime (timesByCase : gmap Z (list float)) (entry : Z * Evaluation)
  : gmap Z (list float) :=
  let '(caseNum, evalData) := entry in
  if timed evalData then
    <[caseNum := default [] (timesByCase !! caseNum) ++ [readingTime evalData]]> timesByCase
  else timesByCase.

Definition timesByCaseOf : gmap Z (list float) :=
  fold_left (fun timesByCase user =>
               fold_left pushTime
                         (Object_entries (filteredCreatedOf (User.id user))
                                         (filteredEvalsOf (User.id user)))
                         timesByCase)
            allUsers ∅.

(** The times of the learning curve, by ascending case number.  A key of an
    object is always found in it, so [omap] drops nothing. *)
Definition learningCurveTimes : list float :=
  if String.eqb timeUser1 ALL_READERS_ID then
    let timesByCase := timesByCaseOf in
    omap (fun caseNum => mean <$> timesByCase !! caseNum) (Object_keys_ascending timesByCase)
  else
    let filteredEvals := filteredEvalsOf timeUser1 in
    omap (fun k => readingTime <$> filteredEvals !! k) (Object_keys_ascending filteredEvals).

Definition splitIndex : float :=
  (Z2num (Z.of_nat (length learningCurveTimes)) * (Z2num comparisonPercentage / 100))%float.

(** The keys of the first reader, in the order of [Object.keys], that the
    second reader has too, both with a positive time. *)
Definition commonKeysOf (created1 : list Z) (user1Evals user2Evals : gmap Z Evaluation)
  : list Z :=
  List.filter (fun k =>
                 match user2Evals !! k, user1Evals !! k with
                 | Some e2, Some e1 => timed e1 && timed e2
                 | _, _ => false
                 end) (Object_keys_created created1 user1Evals).

Definition timesAt (evals : gmap Z Evaluation) (keys : list Z) : list float :=
  omap (fun k => readingTime <$> evals !! k) keys.

(** The mean time of all readers on one case, over those who timed it. *)
Definition allReadersAvgTime (caseNum : Z) : float :=
  mean (omap (fun u =>
                match filteredEvalsOf (User.id u) !! caseNum with
                | Some e => if timed e then Some (readingTime e) else None
                | None => None
                end) allUsers).

(** The two samples of the paired comparison and its result. *)
Definition pairedComparison : list float * list float * option TTestResult :=
  if negb (String.eqb timeUser1 timeUser2)
     && negb (String.eqb timeUser1 "") && negb (String.eqb timeUser2 "") then
    if negb (String.eqb timeUser1 ALL_READERS_ID)
       && negb (String.eqb timeUser2 ALL_READERS_ID) then
      let user1Evals := filteredEvalsOf timeUser1 in
      let user2Evals := filteredEvalsOf timeUser2 in
      let commonKeys :=
        commonKeysOf (filteredCreatedOf timeUser1) user1Evals user2Evals in
      let user1PairedTimes := timesAt user1Evals commonKeys in
      let user2PairedTimes := timesAt user2Evals commonKeys in
      (user1PairedTimes, user2PairedTimes, tTestPaired user1PairedTimes user2PairedTimes)
    else
      let specificUserId :=
        if String.eqb timeUser1 ALL_READERS_ID then timeUser2 else timeUser1 in
      let specificUserFilteredEvals := filteredEvalsOf specificUserId in
      let caseKeys :=
        List.filter (fun k => match specificUserFilteredEvals !! k with
                              | Some e => timed e
                              | None => false
                              end)
                    (Object_keys_created (filteredCreatedOf specificUserId)
                                         specificUserFilteredEvals) in
      let specificUserTimes := timesAt specificUserFilteredEvals caseKeys in
      let allReadersAvgTimesForCases := map allReadersAvgTime caseKeys in
      if String.eqb timeUser1 ALL_READERS_ID then
        (allReadersAvgTimesForCases, specificUserTimes,
         tTestPaired allReadersAvgTimesForCases specificUserTimes)
      else
        (specificUserTimes, allReadersAvgTimesForCases,
         tTestPaired specificUserTimes allReadersAvgTimesForCases)
  else ([], [], None).

(** The positive times of the readers of one experience group. *)
Definition experienceTimes (expGroup : string) : list float :=
  flat_map (fun u =>
              List.filter (fun t => (0 <? t)%float)
                (map readingTime
                     (Object_values (filteredCreatedOf (User.id u))
                                    (filteredEvalsOf (User.id u)))))
           (List.filter (fun u => String.eqb (User.experience u) expGroup) allUsers).

Definition timeAnalysisData : TimeAnalysisData :=
  let firstHalfTimes := slice_to_ceil learningCurveTimes splitIndex in
  let secondHalfTimes := slice_from_ceil learningCurveTimes splitIndex in
  let '(user1PairedTimes, user2PairedTimes, pairedTestResult) := pairedComparison in
  let exp1Times := experienceTimes expGroup1 in
  let exp2Times := experienceTimes expGroup2 in
  {| learningCurveResult := tTestIndependent firstHalfTimes secondHalfTimes;
     firstHalfTimes := firstHalfTimes; secondHalfTimes := secondHalfTimes;
     pairedTestResult := pairedTestResult;
     user1PairedTimes := user1PairedTimes; user2PairedTimes := user2PairedTimes;
     experienceTestResult := tTestIndependent exp1Times exp2Times;
     exp1Times := exp1Times; exp2Times := exp2Times |}.

End TimeAnalysis.

(** ** The application state and its handlers (App.tsx) *)

Module App.

Inductive View := login | upload | evaluation | analysis | survey.

(** A survey response as the state holds it: [handleSurveyUpdate] merges
    partial answers into it, so every field may be missing. *)
Record SurveyResponse := {
  theoreticalClarity : option Z;
  practicalApplication : option Z;
  theoryEssential : option Z;
  t2CriteriaEase : option Z;
  dwiCriteriaEase : option Z;
  dceCriteriaEase : option Z;
  viradsIntuitive : option Z;
  feelMoreConfident : option Z;
  mostDifficultAspect : option string
}.

(** The object [{}]. *)
Definition noAnswers : SurveyResponse :=
  {| theoreticalClarity := None; practicalApplication := None; theoryEssential := None;
     t2CriteriaEase := None; dwiCriteriaEase := None; dceCriteriaEase := None;
     viradsIntuitive := None; feelMoreConfident := None; mostDifficultAspect := None |}.

(** [b.f] if [b] has the property, else [a.f]. *)
Definition spreadField {A : Type} (a b : option A) : option A :=
  match b with Some v => Some v | None => a end.

(** [{ ...a, ...b }]. *)
Definition spread (a b : SurveyResponse) : SurveyResponse :=
  {| theoreticalClarity := spreadField (theoreticalClarity a) (theoreticalClarity b);
     practicalApplication := spreadField (practicalApplication a) (practicalApplication b);
     theoryEssential := spreadField (theoryEssential a) (theoryEssential b);
     t2CriteriaEase := spreadField (t2CriteriaEase a) (t2CriteriaEase b);
     dwiCriteriaEase := spreadField (dwiCriteriaEase a) (dwiCriteriaEase b);
     dceCriteriaEase := spreadField (dceCriteriaEase a) (dceCriteriaEase b);
     viradsIntuitive := spreadField (viradsIntuitive a) (viradsIntuitive b);
     feelMoreConfident := spreadField (feelMoreConfident a) (feelMoreConfident b);
     mostDifficultAspect := spreadField (mostDifficultAspect a) (mostDifficultAspect b) |}.

(** The state of the component that is saved and passed to the screens. *)
Record State := {
  view : View;
  currentUser : option User;
  allUsers : list User;
  cases : list CaseData;
  allEvaluations : gmap string (gmap Z Evaluation);
  allSurveyResponses : gmap string SurveyResponse
}.

Definition initial : State :=
  {| view := login; currentUser := None; allUsers := []; cases := [];
     allEvaluations := ∅; allSurveyResponses := ∅ |}.

(** [cases.length === 0 ? 'upload' : 'evaluation']. *)
Definition viewAfterLogin (s : State) : View :=
  if (Z.of_nat (length (cases s)) =? 0)%Z then upload else evaluation.

Definition handleUserSelect (user : User) (s : State) : State :=
  {| view := viewAfterLogin s; currentUser := Some user; allUsers := allUsers s;
     cases := cases s; allEvaluations := allEvaluations s;
     allSurveyResponses := allSurveyResponses s |}.

(** [uuid] is what [crypto.randomUUID()] returns. *)
Definition handleUserCreate (uuid name surname experience : string) (s : State) : State :=
  let newUser :=
    {| User.id := uuid; User.name := name; User.surname := surname;
       User.experience := experience |} in
  {| view := viewAfterLogin s; currentUser := Some newUser;
     allUsers := allUsers s ++ [newUser];
     cases := cases s; allEvaluations := allEvaluations s;
     allSurveyResponses := allSurveyResponses s |}.

Definition handleDataUpload (uploadedCases : list CaseData) (s : State) : State :=
  {| view := evaluation; currentUser := currentUser s; allUsers := allUsers s;
     cases := uploadedCases; allEvaluations := ∅; allSurveyResponses := ∅ |}.

Definition handleEvaluationUpdate (caseNumber : Z) (evaluation : Evaluation) (s : State)
  : State :=
  match currentUser s with
  | None => s
  | Some user =>
      {| view := view s; currentUser := currentUser s; allUsers := allUsers s;
         cases := cases s;
         allEvaluations :=
           <[User.id user :=
               <[caseNumber := evaluation]>
                 (default ∅ (allEvaluations s !! User.id user))]> (allEvaluations s);
         allSurveyResponses := allSurveyResponses s |}
  end.

Definition setView (v : View) (s : State) : State :=
  {| view := v; currentUser := currentUser s; allUsers := allUsers s;
     cases := cases s; allEvaluations := allEvaluations s;
     allSurveyResponses := allSurveyResponses s |}.

Definition handleGoToAnalysis (s : State) : State := setView analysis s.

Definition handleFinishEvaluations (s : State) : State :=
  match currentUser s with
  | Some user =>
      match allSurveyResponses s !! User.id user with
      | None => setView survey s
      | Some _ => setView analysis s
      end
  | None => setView analysis s
  end.

Definition handleSurveyUpdate (surveyData : SurveyResponse) (s : State) : State :=
  match currentUser s with
  | None => s
  | Some user =>
      let currentUserSurvey := default noAnswers (allSurveyResponses s !! User.id user) in
      {| view := view s; currentUser := currentUser s; allUsers := allUsers s;
         cases := cases s; allEvaluations := allEvaluations s;
         allSurveyResponses :=
           <[User.id user := spread currentUserSurvey surveyData]> (allSurveyResponses s) |}
  end.

Definition handleSurveySubmit (surveyData : SurveyResponse) (s : State) : State :=
  match currentUser s with
  | None => s
  | Some user =>
      {| view := analysis; currentUser := currentUser s; allUsers := allUsers s;
         cases := cases s; allEvaluations := allEvaluations s;
         allSurveyResponses := <[User.id user := surveyData]> (allSurveyResponses s) |}
  end.

Definition handleReturnToLogin (s : State) : State :=
  {| view := login; currentUser := None; allUsers := allUsers s;
     cases := cases s; allEvaluations := allEvaluations s;
     allSurveyResponses := allSurveyResponses s |}.

Definition handleReset (s : State) : State := initial.

(** [userEvaluations], the evaluations handed to the evaluation screen. *)
Definition userEvaluations (s : State) : gmap Z Evaluation :=
  match currentUser s with
  | Some user => default ∅ (allEvaluations s !! User.id user)
  | None => ∅
  end.

(** What the screens and the login form can ask of the component. *)
Inductive Event :=
| UserSelect (user : User)
| UserCreate (uuid name surname experience : string)
| DataUpload (uploadedCases : list CaseData)
| EvaluationUpdate (caseNumber : Z) (evaluation : Evaluation)
| GoToAnalysis
| FinishEvaluations
| SurveyUpdate (surveyData : SurveyResponse)
| SurveySubmit (surveyData : SurveyResponse)
| ReturnToLogin
| Reset.

Definition handle (ev : Event) (s : State) : State :=
  match ev with
  | UserSelect user => handleUserSelect user s
  | UserCreate uuid name surname experience =>
      handleUserCreate uuid name surname experience s
  | DataUpload uploadedCases => handleDataUpload uploadedCases s
  | EvaluationUpdate caseNumber e => handleEvaluationUpdate caseNumber e s
  | GoToAnalysis => handleGoToAnalysis s
  | FinishEvaluations => handleFinishEvaluations s
  | SurveyUpdate surveyData => handleSurveyUpdate surveyData s
  | SurveySubmit surveyData => handleSurveySubmit surveyData s
  | ReturnToLogin => handleReturnToLogin s
  | Reset => handleReset s
  end.

(** The login screen offers the registered readers only
    ([users.map(user => ... onUserSelect(user))]). *)
Definition offered (ev : Event) (s : State) : Prop :=
  match ev with
  | UserSelect user => In user (allUsers s)
  | _ => True
  end.

End App.

(** ** The progress counter of the evaluation screen *)

(** [evaluatedCasesCount]. *)
Definition evaluatedCasesCount (evaluations : gmap Z Evaluation) : Z :=
  Z.of_nat (length (List.filter (hasFinal evaluations) (Object_keys evaluations))).

(** ** The evaluation screen (components/EvaluationScreen.tsx) *)

(** [DEFAULT_EVAL] of the evaluation screen. *)
Definition DEFAULT_EVAL : Evaluation :=
  {| t2 := 0; difusion := 0; edc := 0; viradsFinal := 0;
     t2Confidence := 0; difusionConfidence := 0; edcConfidence := 0;
     viradsFinalConfidence := 0; imageQuality := 0; readingTime := 0 |}.

Module EvaluationScreen.

(** The keys of [Evaluation] the controls of the screen write. *)
Inductive Key :=
| K_t2
| K_difusion
| K_edc
| K_viradsFinal
| K_t2Confidence
| K_difusionConfidence
| K_edcConfidence
| K_viradsFinalConfidence
| K_imageQuality.

(** [`${key}Confidence`], for the four keys [renderViradsInput] is used with. *)
Definition confidenceKey (key : Key) : Key :=
  match key with
  | K_t2 => K_t2Confidence
  | K_difusion => K_difusionConfidence
  | K_edc => K_edcConfidence
  | K_viradsFinal => K_viradsFinalConfidence
  | other => other
  end.

(** [{ ...e, [field]: value }]. *)
Definition setField (field : Key) (value : Z) (e : Evaluation) : Evaluation :=
  match field with
  | K_t2 =>
      {| t2 := value; difusion := difusion e; edc := edc e; viradsFinal := viradsFinal e;
         t2Confidence := t2Confidence e; difusionConfidence := difusionConfidence e;
         edcConfidence := edcConfidence e;
         viradsFinalConfidence := viradsFinalConfidence e; imageQuality := imageQuality e;
         readingTime := readingTime e |}
  | K_difusion =>
      {| t2 := t2 e; difusion := value; edc := edc e; viradsFinal := viradsFinal e;
         t2Confidence := t2Confidence e; difusionConfidence := difusionConfidence e;
         edcConfidence := edcConfidence e;
         viradsFinalConfidence := viradsFinalConfidence e; imageQuality := imageQuality e;
         readingTime := readingTime e |}
  | K_edc =>
      {| t2 := t2 e; difusion := difusion e; edc := value; viradsFinal := viradsFinal e;
         t2Confidence := t2Confidence e; difusionConfidence := difusionConfidence e;
         edcConfidence := edcConfidence e;
         viradsFinalConfidence := viradsFinalConfidence e; imageQuality := imageQuality e;
         readingTime := readingTime e |}
  | K_viradsFinal =>
      {| t2 := t2 e; difusion := difusion e; edc := edc e; viradsFinal := value;
         t2Confidence := t2Confidence e; difusionConfidence := difusionConfidence e;
         edcConfidence := edcConfidence e;
         viradsFinalConfidence := viradsFinalConfidence e; imageQuality := imageQuality e;
         readingTime := readingTime e |}
  | K_t2Confidence =>
      {| t2 := t2 e; difusion := difusion e; edc := edc e; viradsFinal := viradsFinal e;
         t2Confidence := value; difusionConfidence := difusionConfidence e;
         edcConfidence := edcConfidence e;
         viradsFinalConfidence := viradsFinalConfidence e; imageQuality := imageQuality e;
         readingTime := readingTime e |}
  | K_difusionConfidence =>
      {| t2 := t2 e; difusion := difusion e; edc := edc e; viradsFinal := viradsFinal e;
         t2Confidence := t2Confidence e; difusionConfidence := value;
         edcConfidence := edcConfidence e;
         viradsFinalConfidence := viradsFinalConfidence e; imageQuality := imageQuality e;
         readingTime := readingTime e |}
  | K_edcConfidence =>
      {| t2 := t2 e; difusion := difusion e; edc := edc e; viradsFinal := viradsFinal e;
         t2Confidence := t2Confidence e; difusionConfidence := difusionConfidence e;
         edcConfidence := value; viradsFinalConfidence := viradsFinalConfidence e;
         imageQuality := imageQuality e; readingTime := readingTime e |}
  | K_viradsFinalConfidence =>
      {| t2 := t2 e; difusion := difusion e; edc := edc e; viradsFinal := viradsFinal e;
         t2Confidence := t2Confidence e; difusionConfidence := difusionConfidence e;
         edcConfidence := edcConfidence e; viradsFinalConfidence := value;
         imageQuality := imageQuality e; readingTime := readingTime e |}
  | K_imageQuality =>
      {| t2 := t2 e; difusion := difusion e; edc := edc e; viradsFinal := viradsFinal e;
         t2Confidence := t2Confidence e; difusionConfidence := difusionConfidence e;
         edcConfidence := edcConfidence e;
         viradsFinalConfidence := viradsFinalConfidence e; imageQuality := value;
         readingTime := readingTime e |}
  end.

(** [{ ...e, readingTime: t }]. *)
Definition setReadingTime (t : float) (e : Evaluation) : Evaluation :=
  {| t2 := t2 e; difusion := difusion e; edc := edc e; viradsFinal := viradsFinal e;
     t2Confidence := t2Confidence e; difusionConfidence := difusionConfidence e;
     edcConfidence := edcConfidence e;
     viradsFinalConfidence := viradsFinalConfidence e; imageQuality := imageQuality e;
     readingTime := t |}.

(** The state of the component ([useState]). *)
Record Local := {
  currentIndex : Z;
  currentEval : Evaluation;
  timerIsActive : bool;
  sessionTime : Z
}.

(** The component as it is mounted. *)
Definition mounted : Local :=
  {| currentIndex := 0; currentEval := DEFAULT_EVAL; timerIsActive := false;
     sessionTime := 0 |}.

(** The component with the state of the application it is rendered from:
    its props are [cases] and [userEvaluations] of that state. *)
Definition State : Type := Local * App.State.

(** [cases[currentIndex]]. *)
Definition currentCase (cases : list CaseData) (l : Local) : option CaseData :=
  if currentIndex l <? 0 then None else nth_error cases (Z.to_nat (currentIndex l)).

Definition totalCases (s : App.State) : Z := Z.of_nat (length (App.cases s)).

Definition allCasesEvaluated (s : App.State) : bool :=
  (0 <? totalCases s) && (evaluatedCasesCount (App.userEvaluations s) =? totalCases s).

Definition progressPercentage (s : App.State) : float :=
  if 0 <? totalCases s then
    (Z2num (evaluatedCasesCount (App.userEvaluations s)) / Z2num (totalCases s) * 100)%float
  else 0%float.

(** [x || 0] on a number. *)
Definition orZero (x : float) : float :=
  if (x =? 0)%float || is_nan x then 0%float else x.

Definition totalTimeForCase (l : Local) : float :=
  (orZero (readingTime (currentEval l)) + Z2num (sessionTime l))%float.

Definition isEvaluationComplete (l : Local) : bool :=
  let e := currentEval l in
  (0 <? imageQuality e) && (0 <? t2 e) && (0 <? difusion e) && (0 <? edc e)
  && (0 <? viradsFinal e) && (0 <? t2Confidence e) && (0 <? difusionConfidence e)
  && (0 <? edcConfidence e) && (0 <? viradsFinalConfidence e).

Definition isNextButtonEnabled (l : Local) : bool :=
  negb (timerIsActive l) && (0 <? totalTimeForCase l)%float && isEvaluationComplete l.

(** The effect that shows the current case: its stored evaluation or the
    default one, with the timer reset. *)
Definition showCase (st : State) : State :=
  let '(l, s) := st in
  match currentCase (App.cases s) l with
  | None => st
  | Some c =>
      ({| currentIndex := currentIndex l;
          currentEval := default DEFAULT_EVAL (App.userEvaluations s !! caseNumber c);
          timerIsActive := false; sessionTime := 0 |}, s)
  end.

Definition setCurrentEval (e : Evaluation) (l : Local) : Local :=
  {| currentIndex := currentIndex l; currentEval := e; timerIsActive := timerIsActive l;
     sessionTime := sessionTime l |}.

Definition setCurrentIndex (i : Z) (l : Local) : Local :=
  {| currentIndex := i; currentEval := currentEval l; timerIsActive := timerIsActive l;
     sessionTime := sessionTime l |}.

Definition setTimer (active : bool) (session : Z) (l : Local) : Local :=
  {| currentIndex := currentIndex l; currentEval := currentEval l; timerIsActive := active;
     sessionTime := session |}.

(** The handlers use [currentCase.caseNumber]; they belong to controls that
    are rendered only when there is a current case. *)
Definition handleEvalChange (field : Key) (value : Z) (st : State) : State :=
  let '(l, s) := st in
  match currentCase (App.cases s) l with
  | None => st
  | Some c =>
      let updatedEval := setField field value (currentEval l) in
      (setCurrentEval updatedEval l, App.handleEvaluationUpdate (caseNumber c) updatedEval s)
  end.

(** [onChange] of the number input of a score: [numValue] is what [parseInt]
    made of the text ([None] for NaN), [emptyText] whether the text is
    empty. *)
Definition scoreInput (key : Key) (numValue : option Z) (emptyText : bool) (st : State)
  : State :=
  match numValue with
  | Some n =>
      if (1 <=? n) && (n <=? 5) then handleEvalChange key n st
      else if emptyText then handleEvalChange key 0 st else st
  | None => if emptyText then handleEvalChange key 0 st else st
  end.

Definition saveAndNavigate (navigationFn : State -> State) (st : State) : State :=
  let '(l, s) := st in
  match currentCase (App.cases s) l with
  | None => st
  | Some c =>
      let newTotalTime := totalTimeForCase l in
      let finalEvalForCase := setReadingTime newTotalTime (currentEval l) in
      navigationFn (l, App.handleEvaluationUpdate (caseNumber c) finalEvalForCase s)
  end.

Definition handleStartTimer (st : State) : State :=
  let '(l, s) := st in (setTimer true (sessionTime l) l, s).

Definition handleStopTimer (st : State) : State :=
  let '(l, s) := st in
  match currentCase (App.cases s) l with
  | None => st
  | Some c =>
      let newTotalTime := totalTimeForCase l in
      let updatedEval := setReadingTime newTotalTime (currentEval l) in
      (setTimer false 0 (setCurrentEval updatedEval l),
       App.handleEvaluationUpdate (caseNumber c) updatedEval s)
  end.

Definition handleResetTimer (st : State) : State :=
  let '(l, s) := st in
  match currentCase (App.cases s) l with
  | None => st
  | Some c =>
      let updatedEval := setReadingTime 0 (currentEval l) in
      (setTimer false 0 (setCurrentEval updatedEval l),
       App.handleEvaluationUpdate (caseNumber c) updatedEval s)
  end.

(** The interval of the running timer: [elapsed] is the whole number of
    seconds it computes from the clock. *)
Definition tick (elapsed : Z) (st : State) : State :=
  let '(l, s) := st in (setTimer (timerIsActive l) elapsed l, s).

Definition goToNext (st : State) : State :=
  let '(l, s) := st in
  if currentIndex l <? totalCases s - 1 then
    saveAndNavigate (fun '(l', s') => (setCurrentIndex (currentIndex l + 1) l', s')) st
  else st.

Definition goToPrev (st : State) : State :=
  let '(l, s) := st in
  if 0 <? currentIndex l then
    saveAndNavigate (fun '(l', s') => (setCurrentIndex (currentIndex l - 1) l', s')) st
  else st.

Definition handleChangeUser (st : State) : State :=
  saveAndNavigate (fun '(l', s') => (l', App.handleReturnToLogin s')) st.

(** What the reader can do on the screen, and what the component does by
    itself ([Tick], [Show]).  [ScoreInput] and [ConfidenceRating] carry the
    key [renderViradsInput] is called with. *)
Inductive Event :=
| ScoreInput (key : Key) (numValue : option Z) (emptyText : bool)
| ConfidenceRating (key : Key) (num : Z)
| ImageQualityRating (num : Z)
| StartTimer
| StopTimer
| ResetTimer
| Tick (elapsed : Z)
| Next
| Prev
| ChangeUser
| Analyze
| Finish
| Show.

Definition handle (ev : Event) (st : State) : State :=
  match ev with
  | ScoreInput key numValue emptyText => scoreInput key numValue emptyText st
  | ConfidenceRating key num => handleEvalChange (confidenceKey key) num st
  | ImageQualityRating num => handleEvalChange K_imageQuality num st
  | StartTimer => handleStartTimer st
  | StopTimer => handleStopTimer st
  | ResetTimer => handleResetTimer st
  | Tick elapsed => tick elapsed st
  | Next => goToNext st
  | Prev => goToPrev st
  | ChangeUser => handleChangeUser st
  | Analyze => (fst st, App.handleGoToAnalysis (snd st))
  | Finish => (fst st, App.handleFinishEvaluations (snd st))
  | Show => showCase st
  end.

(** The keys [renderViradsInput] is called with. *)
Definition scoreKeys : list Key := [K_t2; K_difusion; K_edc; K_viradsFinal].

(** The controls the screen renders: it is shown in the view ['evaluation']
    with a current reader, and has controls only when there is a current
    case; a rating control offers 1 to [max], which is 5 for a confidence and
    3 for the image quality; the buttons are disabled as their [disabled]
    attributes say, and one of [Finish] and [Analyze] is rendered. *)
Definition offered (ev : Event) (st : State) : Prop :=
  let '(l, s) := st in
  App.view s = App.evaluation /\ is_Some (App.currentUser s) /\
  is_Some (currentCase (App.cases s) l) /\
  match ev with
  | ScoreInput key _ _ => In key scoreKeys
  | ConfidenceRating key num => In key scoreKeys /\ 1 <= num <= 5
  | ImageQualityRating num => 1 <= num <= 3
  | StartTimer => timerIsActive l = false
  | StopTimer => timerIsActive l = true
  | Tick _ => timerIsActive l = true
  | Next => currentIndex l <> totalCases s - 1 /\ isNextButtonEnabled l = true
  | Prev => currentIndex l <> 0
  | Finish => allCasesEvaluated s = true
  | Analyze => allCasesEvaluated s = false
  | ResetTimer | ChangeUser | Show => True
  end.

End EvaluationScreen.

(** ** A reference platform

    ECMAScript fixes [Math.exp], [Math.log], [Math.sin] and [Math.pow] only up
    to an approximation, and at a few arguments.  This instance computes them
    by range reduction and power series in binary64; it serves to run the
    embedding on concrete inputs.  The general statements below hold for
    every instance that meets their hypotheses; this one gives the numbers of
    the worked examples. *)
Module RefMath.
Local Open Scope float_scope.

Definition ln2 : float := 0.6931471805599453.

(** Horner evaluation of [sum_k coeff k * y^k] for [k < n], from the top. *)
Fixpoint horner (coeff : nat -> float) (n : nat) (y acc : float) : float :=
  match n with
  | O => acc
  | S k => horner coeff k y (coeff k + y * acc)
  end.

Fixpoint inv_fact (k : nat) : float :=
  match k with
  | O => 1
  | S j => inv_fact j / Z2num (Z.of_nat k)
  end.

(** The integer nearest to a finite number (ties toward plus infinity). *)
Definition nearestZ (x : float) : Z := (- ceilZ (- (x + 0.5)))%Z.

Definition exp (x : float) : float :=
  if is_nan x then nan
  else if x =? 0 then 1
  else if 710 <? x then infinity
  else if x <? -746 then 0
  else
    let k := nearestZ (x / ln2) in
    let r := x - Z2num k * ln2 in
    Z.ldexp (horner inv_fact 22 r 0) k.

Definition log (x : float) : float :=
  if is_nan x || (x <? 0) then nan
  else if x =? 0 then neg_infinity
  else if x =? infinity then infinity
  else
    let '(m, e) := Z.frexp x in
    let '(m, e) := if m <? 0.7071067811865476 then (2 * m, (e - 1)%Z) else (m, e) in
    let s := (m - 1) / (m + 1) in
    Z2num e * ln2
    + 2 * s * horner (fun k => 1 / Z2num (2 * Z.of_nat k + 1)) 20 (s * s) 0.

Definition sin (x : float) : float :=
  if is_nan x || is_infinity x then nan
  else
    let k := nearestZ (x / (Math_PI / 2)) in
    let r := x - Z2num k * (Math_PI / 2) in
    let r2 := r * r in
    let s := r * horner (fun j => (if Nat.even j then 1 else -1) * inv_fact (2 * j + 1)) 12 r2 0 in
    let c := horner (fun j => (if Nat.even j then 1 else -1) * inv_fact (2 * j)) 12 r2 0 in
    match (k mod 4)%Z with
    | 0%Z => s
    | 1%Z => c
    | 2%Z => - s
    | _ => - c
    end.

Definition pow (x y : float) : float :=
  if y =? 0 then 1
  else if is_nan x || is_nan y then nan
  else if x =? 0 then (if 0 <? y then 0 else infinity)
  else if 0 <? x then exp (y * log x)
  else
    let r := exp (y * log (- x)) in
    if Z2num (ceilZ y) =? y then (if Z.odd (ceilZ y) then - r else r) else nan.

#[export] Instance math : JSMath :=
  {| Math_exp := exp; Math_log := log; Math_sin := sin; Math_pow := pow |}.

End RefMath.

(** ** Data of the worked examples *)

(** Four parsed cases, two of them positive. *)
Definition exampleCases : list CaseData :=
  [parsedCase 1 T1; parsedCase 2 T3; parsedCase 3 T2; parsedCase 4 Ta].

Definition scored (scores : list (Z * Z)) : gmap Z Evaluation :=
  list_to_map (map (fun '(k, v) => (k, withFinal v DEFAULT_EVAL)) scores).

(** A reader who is right on every case at cutoff 3, one who separates the
    cases perfectly, one who is right on half of them, and one who has opened
    a case without scoring it. *)
Definition exampleEvaluations : gmap Z Evaluation := scored [(1, 2); (2, 4); (3, 5); (4, 1)].
Definition separatedEvaluations : gmap Z Evaluation := scored [(1, 1); (2, 5); (3, 5); (4, 1)].
Definition mixedEvaluations : gmap Z Evaluation := scored [(1, 4); (2, 4); (3, 2); (4, 1)].
Definition unscoredEvaluations : gmap Z Evaluation := scored [(1, 0)].

Definition reader (i : string) : User :=
  {| User.id := i; User.name := "R"; User.surname := "S"; User.experience := "1" |}.

Definition exampleAllEvaluations : gmap string (gmap Z Evaluation) :=
  {[ "a" := exampleEvaluations; "b" := mixedEvaluations; "c" := unscoredEvaluations ]}.

(** A reader who scores every case 3, and one who has the two groups the
    wrong way round. *)
Definition constantEvaluations : gmap Z Evaluation := scored [(1, 3); (2, 3); (3, 3); (4, 3)].
Definition invertedEvaluations : gmap Z Evaluation := scored [(1, 5); (2, 1); (3, 1); (4, 5)].

(** The state after a reader has registered, uploaded the four cases and
    scored the first one. *)
Definition exampleState : App.State :=
  App.handle (App.EvaluationUpdate 1 (withFinal 2 DEFAULT_EVAL))
    (App.handle (App.DataUpload exampleCases)
       (App.handle (App.UserCreate "a" "R" "S" "1") App.initial)).

(** The state after a reader has registered and uploaded the four cases. *)
Definition exampleUploaded : App.State :=
  App.handle (App.DataUpload exampleCases)
    (App.handle (App.UserCreate "a" "R" "S" "1") App.initial).

(** The session in which that reader has typed 4 as the final score of the
    first case shown. *)
Definition exampleSession : EvaluationScreen.State :=
  EvaluationScreen.handle
    (EvaluationScreen.ScoreInput EvaluationScreen.K_viradsFinal (Some 4) false)
    (EvaluationScreen.handle EvaluationScreen.Show
       (EvaluationScreen.mounted, exampleUploaded)).

(** Two readers who timed the same four cases, two of them with numbers that
    are not array indices, and stored them in different orders. *)
Definition timedAt (times : list (Z * float)) : gmap Z Evaluation :=
  list_to_map (map (fun '(k, t) => (k, EvaluationScreen.setReadingTime t DEFAULT_EVAL)) times).

Definition exampleTimes : gmap string (gmap Z Evaluation) :=
  {[ "a" := timedAt [(7, 31%float); (-1, 12%float); (3, 9%float); (4294967295, 40%float)];
     "b" := timedAt [(4294967295, 8%float); (3, 20%float); (-1, 10%float); (7, 33%float)] ]}.

Definition exampleCreated (id : string) : list Z :=
  if String.eqb id "a" then [7; -1; 3; 4294967295] else [4294967295; 3; -1; 7].

(** ** Vocabulary of the proofs: binary64 numbers as real numbers

    The kernel specifies its binary64 operations by the functions of
    [SpecFloat] on sign, mantissa and exponent.  The definitions below give
    these their meaning in the real numbers; the theory after the embedding
    proves that every operation returns a neighbour of the exact result. *)

(** [2^e] and [m * 2^e] as real numbers. *)
Definition bpow (e : Z) : R := powerRZ 2 e.
Definition F2R (m e : Z) : R := (IZR m * bpow e)%R.

(** The canonical exponent of binary64. *)
Abbreviation fexp64 := (fexp prec emax).

(** The real value of a specification float (0 for what is not finite). *)
Definition SF2R (f : spec_float) : R :=
  match f with
  | S754_finite s m e => F2R (cond_Zopp s (Z.pos m)) e
  | _ => 0%R
  end.

Definition SFabsR (f : spec_float) : R :=
  match f with
  | S754_finite _ m e => F2R (Z.pos m) e
  | _ => 0%R
  end.

Definition SF_finite (f : spec_float) : bool :=
  match f with
  | S754_zero _ | S754_finite _ _ _ => true
  | _ => false
  end.

Definition SF_signed (sx : bool) (f : spec_float) : Prop :=
  match f with
  | S754_zero s | S754_infinity s | S754_finite s _ _ => s = sx
  | S754_nan => False
  end.

(** The real value of a number, and whether it is finite. *)
Definition B2R (x : float) : R := SF2R (Prim2SF x).
Definition finite (x : float) : bool := SF_finite (Prim2SF x).

(** The real numbers binary64 represents. *)
Definition format (r : R) : Prop :=
  exists m e, Z.abs m < 2 ^ 53 /\ -1074 <= e <= 971 /\ r = F2R m e.

(** [res] is a faithful rounding of [r]: it is a valid number, not NaN, and it
    never leaves an interval of representable bounds that contains [r]. *)
Definition faithful (r : R) (res : spec_float) : Prop :=
  valid_binary res = true /\ res <> S754_nan /\
  (forall lo, format lo -> (lo <= r)%R ->
     res = S754_infinity false \/ (SF_finite res = true /\ (lo <= SF2R res)%R)) /\
  (forall hi, format hi -> (r <= hi)%R ->
     res = S754_infinity true \/ (SF_finite res = true /\ (SF2R res <= hi)%R)).

(** The bits a right shift has dropped were not all zero. *)
Definition inex (mrs : shr_record) : bool := shr_r mrs || shr_s mrs.

Definition loc_inex (l : location) : bool :=
  match l with loc_Exact => false | loc_Inexact _ => true end.

(** [b] is [a] shifted right by [k] bits. *)
Definition shr_rel (k : Z) (a b : shr_record) : Prop :=
  0 <= shr_m a ->
  shr_m b = shr_m a / 2 ^ k /\ inex b = negb (shr_m a mod 2 ^ k =? 0) || inex a.

(** What [binary_round_aux] returns once the mantissa is truncated to the
    canonical exponent [e1] and rounded to [m2]. *)
Definition finish (sx : bool) (m2 e1 : Z) : spec_float :=
  if m2 =? 2 ^ 53 then
    (if e1 + 1 <=? 971 then S754_finite sx (2 ^ 52) (e1 + 1) else S754_infinity sx)
  else match m2 with
       | Z0 => S754_zero sx
       | Zpos p => if e1 <=? 971 then S754_finite sx p e1 else S754_infinity sx
       | Zneg _ => S754_nan
       end.

(** [x] is a finite number whose value lies between [lo] and [hi]. *)
Definition within (x : float) (lo hi : R) : Prop :=
  finite x = true /\ (lo <= B2R x <= hi)%R.

(** The multiples of 2^-53 from 0 to 1: all binary64 numbers from 1/2 to 1 are
    among them, and so is 1 - s for every binary64 number s from 0 to 1. *)
Definition onGrid (r : R) : Prop :=
  exists k, 0 <= k <= 2 ^ 53 /\ r = (IZR k / IZR (2 ^ 53))%R.

(** A point of the ROC polyline as [calculateAUC] computes them. *)
Definition goodPoint (p : RocPoint) : Prop :=
  finite (fpr p) = true /\ onGrid (B2R (fpr p)) /\
  finite (tpr p) = true /\ (0 <= B2R (tpr p) <= 1)%R.

Definition fprLe (a b : RocPoint) : Prop := (B2R (fpr a) <= B2R (fpr b))%R.

(** One of the two zeros of binary64. *)
Definition isZero (z : float) : Prop := z = 0%float \/ z = (-0)%float.

(** A number from 0 to 1, as the program can test it. *)
Definition inUnit (x : float) : bool := ((0 <=? x) && (x <=? 1))%float.

Definition metricsInUnit (m : AnalysisMetrics) : bool :=
  inUnit (sensitivity m) && inUnit (specificity m) && inUnit (ppv m) && inUnit (npv m).

(** ** Vocabulary of the proofs: cases, cells and readers *)

(** The score a case is classified by: the final score of its evaluation when
    there is one that is not the sentinel 0. *)
Definition classified (evaluations : gmap Z Evaluation) (c : CaseData) : option Z :=
  match evaluations !! caseNumber c with
  | Some e => if viradsFinal e =? 0 then None else Some (viradsFinal e)
  | None => None
  end.

(** The cell a classified case falls in. *)
Inductive Cell := CellTP | CellFP | CellTN | CellFN.

#[global] Instance Cell_eq_dec : EqDecision Cell.
Proof. solve_decision. Defined.

Definition cellOf (evaluations : gmap Z Evaluation) (cutoff : Z) (c : CaseData)
  : option Cell :=
  match classified evaluations c with
  | None => None
  | Some score =>
      Some (match cutoff <=? score, isCVMIPositive c with
            | true, true => CellTP
            | true, false => CellFP
            | false, true => CellFN
            | false, false => CellTN
            end)
  end.

Definition inCell (evaluations : gmap Z Evaluation) (cutoff : Z) (cell : Cell)
    (c : CaseData) : bool :=
  bool_decide (cellOf evaluations cutoff c = Some cell).

Definition countIn (evaluations : gmap Z Evaluation) (cutoff : Z) (cell : Cell)
    (cases : list CaseData) : Z :=
  Z.of_nat (length (List.filter (inCell evaluations cutoff cell) cases)).

(** The final score recorded for a case (0 when there is none). *)
Definition finalScore (evaluations : gmap Z Evaluation) (c : CaseData) : Z :=
  default 0 (viradsFinal <$> evaluations !! caseNumber c).

Definition cellFor (testPositive conditionPositive : bool) : Cell :=
  match testPositive, conditionPositive with
  | true, true => CellTP
  | true, false => CellFP
  | false, true => CellFN
  | false, false => CellTN
  end.

(** The cases [calculateAUC] keeps: those with a final score above 0. *)
Definition relevantCasesOf (evaluations : gmap Z Evaluation) (cases : list CaseData)
  : list CaseData :=
  List.filter (fun c => hasFinal evaluations (caseNumber c)) cases.

(** The reader has an evaluation with a final score above 0. *)
Definition hasEvaluated (allEvaluations : gmap string (gmap Z Evaluation)) (u : User) : bool :=
  existsb (hasFinal (userEvalsOf allEvaluations u))
          (Object_keys (userEvalsOf allEvaluations u)).

(** What [calculatePValue] returns for the statistic 0, in binary64. *)
Definition pValueAtZero : float := 0.99999999899999992%float.

(** Every reader the state refers to is registered: the current reader, and
    the owner of every stored map of evaluations and of every survey. *)
Definition registered (s : App.State) : Prop :=
  (forall u, App.currentUser s = Some u -> In u (App.allUsers s)) /\
  (forall i, is_Some (App.allEvaluations s !! i) ->
             exists u, In u (App.allUsers s) /\ User.id u = i) /\
  (forall i, is_Some (App.allSurveyResponses s !! i) ->
             exists u, In u (App.allUsers s) /\ User.id u = i).

(** The states the component can be in, starting from the empty one. *)
Inductive reachable : App.State -> Prop :=
| reachable_initial : reachable App.initial
| reachable_handle (ev : App.Event) (s : App.State) :
    reachable s -> App.offered ev s -> reachable (App.handle ev s).

(** An evaluation whose scores and confidences are between 0 and 5 and whose
    image quality is between 0 and 3 (0 standing for no value yet). *)
Definition inRange (e : Evaluation) : Prop :=
  0 <= t2 e <= 5 /\ 0 <= difusion e <= 5 /\ 0 <= edc e <= 5 /\ 0 <= viradsFinal e <= 5 /\
  0 <= t2Confidence e <= 5 /\ 0 <= difusionConfidence e <= 5 /\
  0 <= edcConfidence e <= 5 /\ 0 <= viradsFinalConfidence e <= 5 /\
  0 <= imageQuality e <= 3.

(** Every stored evaluation, of every reader, is in range. *)
Definition storedInRange (s : App.State) : Prop :=
  forall i evals k e,
    App.allEvaluations s !! i = Some evals -> evals !! k = Some e -> inRange e.

(** Every stored evaluation, of every reader, is that of a listed case. *)
Definition storedListed (s : App.State) : Prop :=
  forall i evals k,
    App.allEvaluations s !! i = Some evals -> is_Some (evals !! k) ->
    exists c, In c (App.cases s) /\ caseNumber c = k.

(** The requests of the screens other than the evaluation screen, which alone
    is given [onUpdate], [onAnalyze] and [onFinishAllEvaluations]. *)
Definition fromOtherScreens (ev : App.Event) : Prop :=
  match ev with
  | App.EvaluationUpdate _ _ | App.GoToAnalysis | App.FinishEvaluations => False
  | _ => True
  end.

(** The states of the application with its evaluation screen, starting from
    the empty session: a request of another screen may arrive at any time,
    the evaluation screen may be mounted anew at any time, and on the
    evaluation screen the reader uses the controls it offers while its
    effects ([Show], [Tick]) run in any order. *)
Inductive running : EvaluationScreen.State -> Prop :=
| running_initial : running (EvaluationScreen.mounted, App.initial)
| running_request (ev : App.Event) (l : EvaluationScreen.Local) (s : App.State) :
    running (l, s) -> fromOtherScreens ev -> App.offered ev s ->
    running (l, App.handle ev s)
| running_mount (l : EvaluationScreen.Local) (s : App.State) :
    running (l, s) -> running (EvaluationScreen.mounted, s)
| running_screen (ev : EvaluationScreen.Event) (st : EvaluationScreen.State) :
    running st -> EvaluationScreen.offered ev st ->
    running (EvaluationScreen.handle ev st).

(** What holds in every running state. *)
Definition wellFormed (st : EvaluationScreen.State) : Prop :=
  inRange (EvaluationScreen.currentEval (fst st)) /\
  storedInRange (snd st) /\ storedListed (snd st).



(** * Theory of binary64 rounding *)

Lemma bpow_pos e : (0 < bpow e)%R.
Proof. apply powerRZ_lt; lra. Qed.

Lemma bpow_add a b : bpow (a + b) = (bpow a * bpow b)%R.
Proof. apply powerRZ_add; lra. Qed.

Lemma bpow_Z n : 0 <= n -> bpow n = IZR (2 ^ n).
Proof.
  intros Hn. destruct n as [|p|p]; [reflexivity| |lia].
  unfold bpow. symmetry. apply (Zpower_pos_powerRZ 2 p).
Qed.

Lemma bpow_le a b : a <= b -> (bpow a <= bpow b)%R.
Proof.
  intros H. replace b with (a + (b - a)) by lia.
  rewrite bpow_add, (bpow_Z (b - a)) by lia.
  pose proof (bpow_pos a).
  assert (1 <= IZR (2 ^ (b - a)))%R by (apply IZR_le; pose proof (Z.pow_pos_nonneg 2 (b - a)); lia).
  nra.
Qed.

Lemma bpow_lt a b : a < b -> (bpow a < bpow b)%R.
Proof.
  intros H. replace b with (a + (b - a)) by lia.
  rewrite bpow_add, (bpow_Z (b - a)) by lia.
  pose proof (bpow_pos a).
  assert (2 <= IZR (2 ^ (b - a)))%R.
  { apply IZR_le. replace (b - a) with (1 + (b - a - 1)) by lia.
    rewrite Z.pow_add_r by lia. pose proof (Z.pow_pos_nonneg 2 (b - a - 1)). lia. }
  nra.
Qed.

Lemma F2R_shift m e k : 0 <= k -> F2R m (e + k) = F2R (m * 2 ^ k) e.
Proof.
  intros Hk. unfold F2R. rewrite bpow_add, (bpow_Z k), mult_IZR by lia. ring.
Qed.

Lemma F2R_le m1 m2 e : (F2R m1 e <= F2R m2 e)%R <-> m1 <= m2.
Proof.
  unfold F2R. pose proof (bpow_pos e). split; intros Hle.
  - apply le_IZR. nra.
  - apply IZR_le in Hle. nra.
Qed.

Lemma F2R_lt m1 m2 e : (F2R m1 e < F2R m2 e)%R <-> m1 < m2.
Proof.
  unfold F2R. pose proof (bpow_pos e). split; intros Hlt.
  - apply lt_IZR. nra.
  - apply IZR_lt in Hlt. nra.
Qed.

Lemma F2R_eq m1 m2 e : F2R m1 e = F2R m2 e <-> m1 = m2.
Proof.
  split; [|congruence]. intros H.
  apply Z.le_antisymm; apply (F2R_le _ _ e); rewrite H; lra.
Qed.

(** *** Digits *)
Lemma digits2_pos_spec p :
  2 ^ (Z.pos (digits2_pos p) - 1) <= Z.pos p < 2 ^ Z.pos (digits2_pos p).
Proof.
  induction p as [p IH|p IH|]; cbn [digits2_pos].
  - rewrite Pos2Z.inj_succ. replace (Z.succ (Z.pos (digits2_pos p)) - 1) with (1 + (Z.pos (digits2_pos p) - 1)) by lia.
    unfold Z.succ. rewrite (Z.add_comm _ 1), !Z.pow_add_r by lia. lia.
  - rewrite Pos2Z.inj_succ. replace (Z.succ (Z.pos (digits2_pos p)) - 1) with (1 + (Z.pos (digits2_pos p) - 1)) by lia.
    unfold Z.succ. rewrite (Z.add_comm _ 1), !Z.pow_add_r by lia. lia.
  - cbn. lia.
Qed.

Lemma Zdigits2_spec m : 0 < m -> 2 ^ (Zdigits2 m - 1) <= m < 2 ^ Zdigits2 m.
Proof. destruct m; try lia. intros _. apply digits2_pos_spec. Qed.

Lemma Zdigits2_pos m : 0 < m -> 0 < Zdigits2 m.
Proof. destruct m; cbn; lia. Qed.

Lemma Zdigits2_unique m d : 2 ^ (d - 1) <= m < 2 ^ d -> 0 < m -> Zdigits2 m = d.
Proof.
  intros [H1 H2] Hm. pose proof (Zdigits2_spec m Hm) as [H3 H4].
  pose proof (Zdigits2_pos m Hm).
  assert (0 < d).
  { destruct (Z_lt_le_dec 0 d); auto. exfalso.
    destruct (Z.eq_dec d 0); [subst; simpl in H2; lia|rewrite Z.pow_neg_r in H2 by lia; lia]. }
  destruct (Z_lt_le_dec (Zdigits2 m) d) as [Hlt|Hge].
  - assert (2 ^ Zdigits2 m <= 2 ^ (d - 1)) by (apply Z.pow_le_mono_r; lia). lia.
  - destruct (Z_lt_le_dec d (Zdigits2 m)) as [Hlt|Hge']; [|lia].
    assert (2 ^ d <= 2 ^ (Zdigits2 m - 1)) by (apply Z.pow_le_mono_r; lia). lia.
Qed.

Lemma shr_rel_1 a : shr_rel 1 a (shr_1 a).
Proof.
  destruct a as [m r s]. unfold shr_rel, inex. cbn [shr_m shr_r shr_s]. intros Hm.
  change (2 ^ 1) with 2.
  destruct m as [|[p|p|]|]; try lia; cbn [shr_1 shr_m shr_r shr_s].
  - split; reflexivity.
  - split. { apply Z.div_unique with 1; lia. }
    replace (Z.pos p~1 mod 2) with 1 by (apply Z.mod_unique with (Z.pos p); lia).
    reflexivity.
  - split. { apply Z.div_unique with 0; lia. }
    replace (Z.pos p~0 mod 2) with 0 by (apply Z.mod_unique with (Z.pos p); lia).
    reflexivity.
  - split; reflexivity.
Qed.

Lemma shr_rel_trans j k a b c :
  0 < j -> 0 < k -> shr_rel j a b -> shr_rel k b c -> shr_rel (j + k) a c.
Proof.
  unfold shr_rel. intros Hj Hk Hab Hbc Ha.
  destruct (Hab Ha) as [Hb1 Hb2].
  assert (0 <= shr_m b) as Hb by (rewrite Hb1; apply Z.div_pos; [lia|apply Z.pow_pos_nonneg; lia]).
  destruct (Hbc Hb) as [Hc1 Hc2].
  assert (0 < 2 ^ j) by (apply Z.pow_pos_nonneg; lia).
  assert (0 < 2 ^ k) by (apply Z.pow_pos_nonneg; lia).
  rewrite Z.pow_add_r by lia. split.
  - rewrite Hc1, Hb1. apply Z.div_div; lia.
  - rewrite Hc2, Hb2, Hb1. rewrite Z.rem_mul_r by lia.
    pose proof (Z.mod_pos_bound (shr_m a) (2 ^ j) ltac:(lia)).
    pose proof (Z.mod_pos_bound (shr_m a / 2 ^ j) (2 ^ k) ltac:(lia)).
    destruct (Z.eqb_spec (shr_m a mod 2 ^ j) 0), (Z.eqb_spec ((shr_m a / 2 ^ j) mod 2 ^ k) 0),
      (Z.eqb_spec (shr_m a mod 2 ^ j + 2 ^ j * ((shr_m a / 2 ^ j) mod 2 ^ k)) 0); cbn; try reflexivity; try nia.
    all: destruct (inex a); reflexivity.
Qed.

Lemma shr_rel_iter p a : shr_rel (Z.pos p) a (SpecFloat.iter_pos shr_1 p a).
Proof.
  revert a. induction p as [p IH|p IH|]; intros a; cbn [SpecFloat.iter_pos].
  - replace (Z.pos p~1) with (1 + Z.pos p + Z.pos p) by lia.
    eapply shr_rel_trans; [lia|lia| |apply IH].
    eapply shr_rel_trans; [lia|lia| |apply IH]. apply shr_rel_1.
  - replace (Z.pos p~0) with (Z.pos p + Z.pos p) by lia.
    eapply shr_rel_trans; [lia|lia|apply IH|apply IH].
  - apply shr_rel_1.
Qed.

Lemma fexp64_eq e : fexp64 e = Z.max (e - 53) (-1074).
Proof. reflexivity. Qed.

Lemma inex_of_loc m l : inex (shr_record_of_loc m l) = loc_inex l.
Proof. destruct l as [|[]]; reflexivity. Qed.

Lemma shr_m_of_loc m l : shr_m (shr_record_of_loc m l) = m.
Proof. destruct l as [|[]]; reflexivity. Qed.

Lemma loc_inex_of_shr mrs : loc_inex (loc_of_shr_record mrs) = inex mrs.
Proof. destruct mrs as [m [] []]; reflexivity. Qed.

Lemma round_nearest_even_bounds m l :
  m <= round_nearest_even m l <= m + 1 /\ (loc_inex l = false -> round_nearest_even m l = m).
Proof.
  destruct l as [|[]]; cbn; try (split; [lia|]; intros; try reflexivity; discriminate).
  destruct (Z.even m); split; try lia; discriminate.
Qed.

Lemma shr_spec mrs e n :
  0 <= shr_m mrs -> 0 <= n ->
  snd (shr mrs e n) = e + n /\
  shr_m (fst (shr mrs e n)) = shr_m mrs / 2 ^ n /\
  inex (fst (shr mrs e n)) = negb (shr_m mrs mod 2 ^ n =? 0) || inex mrs.
Proof.
  intros Hm Hn. destruct n as [|p|p]; [| |lia]; cbn [shr fst snd].
  - rewrite Z.add_0_r, Z.pow_0_r, Z.div_1_r, Z.mod_1_r. auto.
  - split; [reflexivity|]. apply shr_rel_iter, Hm.
Qed.

Lemma shr_nonpos mrs e n : n <= 0 -> shr mrs e n = (mrs, e).
Proof. destruct n; [reflexivity|lia|reflexivity]. Qed.

Lemma binary_round_aux_trunc sx m e l :
  0 <= m -> e <= fexp64 (Zdigits2 m + e) ->
  let e1 := fexp64 (Zdigits2 m + e) in
  let m1 := m / 2 ^ (e1 - e) in
  let i1 := negb (m mod 2 ^ (e1 - e) =? 0) || loc_inex l in
  -1074 <= e1 /\ 0 <= m1 < 2 ^ 53 /\ (e1 = -1074 \/ 2 ^ 52 <= m1) /\
  exists m2, m1 <= m2 <= m1 + 1 /\ (i1 = false -> m2 = m1) /\
             binary_round_aux prec emax sx m e l = finish sx m2 e1.
Proof.
  intros Hm He e1 m1 i1.
  assert (He1 : e1 = Z.max (Zdigits2 m + e - 53) (-1074)) by reflexivity.
  assert (Hn : 0 <= e1 - e) by (fold e1 in He; lia).
  assert (H2n : 0 < 2 ^ (e1 - e)) by (apply Z.pow_pos_nonneg; lia).
  assert (Hm1 : 0 <= m1 < 2 ^ 53 /\ (e1 = -1074 \/ 2 ^ 52 <= m1)).
  { destruct (Z.eq_dec m 0) as [Hz|Hnz].
    - unfold m1. rewrite Hz in *. cbn in He1. rewrite Z.div_0_l by lia. lia.
    - assert (Hpos : 0 < m) by lia.
      pose proof (Zdigits2_spec m Hpos) as [Hd1 Hd2].
      pose proof (Zdigits2_pos m Hpos) as Hdpos.
      split; [split; [apply Z.div_pos; lia|]|].
      + apply Z.div_lt_upper_bound; [lia|].
        rewrite <- Z.pow_add_r by lia.
        eapply Z.lt_le_trans; [exact Hd2|]. apply Z.pow_le_mono_r; lia.
      + destruct (Z.eq_dec e1 (-1074)) as [|Hne]; [left; assumption|right].
        apply Z.div_le_lower_bound; [lia|].
        rewrite <- Z.pow_add_r by lia.
        replace (e1 - e + 52) with (Zdigits2 m - 1) by lia. exact Hd1. }
  destruct Hm1 as [Hm1 Hnorm].
  split; [lia|]. split; [exact Hm1|]. split; [exact Hnorm|].
  unfold binary_round_aux, shr_fexp. fold e1.
  pose proof (shr_spec (shr_record_of_loc m l) e (e1 - e)) as Hs.
  rewrite shr_m_of_loc, inex_of_loc in Hs. specialize (Hs ltac:(lia) Hn).
  destruct (shr (shr_record_of_loc m l) e (e1 - e)) as [mrs' e'] eqn:Eshr.
  cbn [fst snd] in Hs. destruct Hs as (He' & Hm' & Hi').
  replace (e + (e1 - e)) with e1 in He' by lia. subst e'.
  fold m1 in Hm'. fold i1 in Hi'.
  set (m2 := round_nearest_even (shr_m mrs') (loc_of_shr_record mrs')).
  pose proof (round_nearest_even_bounds (shr_m mrs') (loc_of_shr_record mrs')) as [Hb Hex].
  fold m2 in Hb, Hex. rewrite loc_inex_of_shr, Hi' in Hex. rewrite Hm' in Hb, Hex.
  exists m2. split; [exact Hb|]. split; [exact Hex|].
  unfold finish. destruct (Z.eqb_spec m2 (2 ^ 53)) as [E53|N53].
  - rewrite E53. change (Zdigits2 (2 ^ 53)) with 54.
    replace (fexp64 (54 + e1) - e1) with 1 by (rewrite fexp64_eq; lia).
    reflexivity.
  - assert (Hsh : fexp64 (Zdigits2 m2 + e1) - e1 <= 0).
    { rewrite fexp64_eq. destruct (Z.eq_dec m2 0) as [->|Hnz]; [cbn; lia|].
      assert (0 < m2) by lia. pose proof (Zdigits2_spec m2 ltac:(lia)) as [Hx1 Hx2].
      assert (Zdigits2 m2 <= 53).
      { destruct (Z_lt_le_dec 53 (Zdigits2 m2)); [|lia].
        assert (2 ^ 53 <= 2 ^ (Zdigits2 m2 - 1)) by (apply Z.pow_le_mono_r; lia). lia. }
      lia. }
    rewrite shr_nonpos by exact Hsh. cbn [shr_record_of_loc shr_m].
    destruct m2 as [|p|p]; [reflexivity|reflexivity|lia].
Qed.

(** Real-number reading of a truncation. *)
Lemma trunc_real m e n x i :
  0 <= m -> 0 <= n ->
  (F2R m e <= x < F2R (m + 1) e)%R -> (i = false <-> x = F2R m e) ->
  (F2R (m / 2 ^ n) (e + n) <= x < F2R (m / 2 ^ n + 1) (e + n))%R /\
  (negb (m mod 2 ^ n =? 0) || i = false <-> x = F2R (m / 2 ^ n) (e + n)).
Proof.
  intros Hm Hn [Hx1 Hx2] Hi.
  assert (H2n : 0 < 2 ^ n) by (apply Z.pow_pos_nonneg; lia).
  pose proof (Z.div_mod m (2 ^ n) ltac:(lia)) as Hdm.
  pose proof (Z.mod_pos_bound m (2 ^ n) H2n) as Hr.
  set (q := m / 2 ^ n) in *. set (r := m mod 2 ^ n) in *.
  rewrite !F2R_shift by lia.
  assert (Hlo : (F2R (q * 2 ^ n) e <= F2R m e)%R) by (apply F2R_le; lia).
  assert (Hhi : (F2R (m + 1) e <= F2R ((q + 1) * 2 ^ n) e)%R) by (apply F2R_le; lia).
  split; [lra|]. split.
  - intros Hf. apply orb_false_elim in Hf as [Hr0 Hi0].
    apply negb_false_iff, Z.eqb_eq in Hr0. apply Hi in Hi0.
    rewrite Hi0. apply F2R_eq. lia.
  - intros Hxe.
    assert (Hmq : m = q * 2 ^ n).
    { apply Z.le_antisymm; [|lia]. apply (F2R_le _ _ e). lra. }
    assert (Hr0 : r = 0) by lia.
    rewrite Hr0. cbn. apply Hi. rewrite Hxe. apply F2R_eq. lia.
Qed.

(** Two consecutive multiples of the canonical unit have no representable
    number strictly between them. *)
Lemma grid_gap mg eg m1 e1 :
  0 <= mg < 2 ^ 53 -> -1074 <= eg ->
  0 <= m1 -> (e1 = -1074 \/ 2 ^ 52 <= m1) ->
  (F2R mg eg < F2R (m1 + 1) e1)%R -> (F2R mg eg <= F2R m1 e1)%R.
Proof.
  intros Hmg Heg Hm1 Hnorm Hlt.
  destruct (Z_le_gt_dec e1 eg) as [Hle|Hgt].
  - replace eg with (e1 + (eg - e1)) in * by lia.
    rewrite F2R_shift in * by lia. apply F2R_le. apply F2R_lt in Hlt. lia.
  - destruct Hnorm as [->|Hn]; [lia|].
    replace e1 with (eg + (e1 - eg)) by lia.
    rewrite F2R_shift by lia. apply F2R_le.
    assert (2 <= 2 ^ (e1 - eg)).
    { replace (e1 - eg) with (1 + (e1 - eg - 1)) by lia.
      rewrite Z.pow_add_r by lia. pose proof (Z.pow_pos_nonneg 2 (e1 - eg - 1)). lia. }
    change (2 ^ 53) with (2 ^ 52 * 2) in Hmg. nia.
Qed.

Lemma bounded_spec m e :
  bounded prec emax m e = true <->
  Z.pos m < 2 ^ 53 /\ -1074 <= e <= 971 /\ (e = -1074 \/ 2 ^ 52 <= Z.pos m).
Proof.
  unfold bounded, canonical_mantissa. rewrite andb_true_iff, Z.eqb_eq, Z.leb_le.
  change (emax - prec) with 971. rewrite fexp64_eq.
  pose proof (digits2_pos_spec m) as [Hd1 Hd2].
  set (d := Z.pos (digits2_pos m)) in *. assert (0 < d) by (unfold d; lia).
  split.
  - intros [Hc He].
    assert (d <= 53) by lia.
    assert (2 ^ d <= 2 ^ 53) by (apply Z.pow_le_mono_r; lia).
    split; [lia|]. split; [lia|].
    destruct (Z.eq_dec e (-1074)); [left; assumption|right].
    replace 52 with (d - 1) by lia. exact Hd1.
  - intros (Hm & He & Hn).
    assert (d <= 53).
    { destruct (Z_lt_le_dec 53 d); [|lia].
      assert (2 ^ 53 <= 2 ^ (d - 1)) by (apply Z.pow_le_mono_r; lia). lia. }
    split; [|lia]. destruct Hn as [->|Hn]; [lia|].
    assert (53 <= d).
    { destruct (Z_lt_le_dec d 53); [|lia].
      assert (2 ^ d <= 2 ^ 52) by (apply Z.pow_le_mono_r; lia). lia. }
    lia.
Qed.

Lemma finish_cases sx m2 e1 :
  0 <= m2 <= 2 ^ 53 -> -1074 <= e1 -> (e1 = -1074 \/ 2 ^ 52 <= m2 \/ m2 = 0) ->
  (m2 = 0 /\ finish sx m2 e1 = S754_zero sx) \/
  (exists p e', finish sx m2 e1 = S754_finite sx p e' /\ bounded prec emax p e' = true /\
                F2R (Z.pos p) e' = F2R m2 e1) \/
  (0 < m2 /\ finish sx m2 e1 = S754_infinity sx /\ (bpow 1024 <= F2R m2 e1)%R).
Proof.
  intros Hm2 He1 Hn. unfold finish.
  destruct (Z.eqb_spec m2 (2 ^ 53)) as [E|N].
  - destruct (Z.leb_spec (e1 + 1) 971) as [Hle|Hgt].
    + right; left. exists (2 ^ 52)%positive, (e1 + 1). split; [reflexivity|]. split.
      * apply bounded_spec. change (Z.pos (2 ^ 52)) with (2 ^ 52). lia.
      * rewrite E, F2R_shift by lia. reflexivity.
    + right; right. split; [lia|]. split; [reflexivity|].
      rewrite E. unfold F2R. rewrite <- (bpow_Z 53) by lia. rewrite <- bpow_add.
      apply bpow_le. lia.
  - destruct m2 as [|p|p]; [left; auto| |lia].
    destruct (Z.leb_spec e1 971) as [Hle|Hgt].
    + right; left. exists p, e1. split; [reflexivity|]. split; [|reflexivity].
      apply bounded_spec. lia.
    + right; right. split; [lia|]. split; [reflexivity|].
      assert (2 ^ 52 <= Z.pos p) by lia.
      replace 1024 with (52 + 972) by lia. rewrite bpow_add, (bpow_Z 52) by lia.
      unfold F2R. pose proof (bpow_le 972 e1 ltac:(lia)). pose proof (bpow_pos 972).
      assert (IZR (2 ^ 52) <= IZR (Z.pos p))%R by (apply IZR_le; lia).
      assert (0 < IZR (2 ^ 52))%R by (apply IZR_lt; lia).
      nra.
Qed.

Lemma binary_round_aux_faithful sx m e l x :
  0 <= m -> e <= fexp64 (Zdigits2 m + e) ->
  (F2R m e <= x < F2R (m + 1) e)%R -> (loc_inex l = false <-> x = F2R m e) ->
  let res := binary_round_aux prec emax sx m e l in
  valid_binary res = true /\ SF_signed sx res /\
  (forall mg eg, 0 <= mg < 2 ^ 53 -> -1074 <= eg -> (F2R mg eg <= x)%R ->
     SF_finite res = false \/ (F2R mg eg <= SFabsR res)%R) /\
  (forall mh eh, 0 <= mh < 2 ^ 53 -> -1074 <= eh <= 971 -> (x <= F2R mh eh)%R ->
     SF_finite res = true /\ (SFabsR res <= F2R mh eh)%R).
Proof.
  intros Hm He Hx Hl res.
  destruct (binary_round_aux_trunc sx m e l Hm He) as (He1 & Hm1 & Hnorm & m2 & Hm2 & Hex & Hres).
  fold res in Hres.
  set (e1 := fexp64 (Zdigits2 m + e)) in *.
  set (m1 := m / 2 ^ (e1 - e)) in *.
  destruct (trunc_real m e (e1 - e) x (loc_inex l) ltac:(lia) ltac:(lia) Hx Hl) as [Hx1 Hxe].
  fold m1 in Hx1, Hxe. replace (e + (e1 - e)) with e1 in Hx1, Hxe by lia.
  assert (Hup : m2 = m1 \/ (m2 = m1 + 1 /\ (F2R m1 e1 < x)%R)).
  { destruct (Z.eq_dec m2 m1) as [|Hne]; [left; assumption|right].
    split; [lia|]. destruct Hx1 as [Hlo _].
    destruct (Rle_lt_or_eq_dec _ _ Hlo) as [|Heq]; [assumption|].
    exfalso. apply Hne, Hex, Hxe. symmetry. exact Heq. }
  assert (Hn2 : e1 = -1074 \/ 2 ^ 52 <= m2 \/ m2 = 0) by lia.
  assert (Hlow : forall mg eg, 0 <= mg < 2 ^ 53 -> -1074 <= eg -> (F2R mg eg <= x)%R ->
                 (F2R mg eg <= F2R m2 e1)%R).
  { intros mg eg Hmg Heg Hg.
    assert (F2R mg eg <= F2R m1 e1)%R by (apply grid_gap; try assumption; try lia; lra).
    assert (F2R m1 e1 <= F2R m2 e1)%R by (apply F2R_le; lia). lra. }
  assert (Hhigh : forall mh eh, 0 <= mh < 2 ^ 53 -> -1074 <= eh -> (x <= F2R mh eh)%R ->
                 (F2R m2 e1 <= F2R mh eh)%R).
  { intros mh eh Hmh Heh Hh. destruct Hup as [->|[-> Hlt]]; [lra|].
    destruct (Rle_lt_dec (F2R (m1 + 1) e1) (F2R mh eh)) as [|Hc]; [assumption|].
    exfalso. assert (F2R mh eh <= F2R m1 e1)%R by (apply grid_gap; try assumption; lia). lra. }
  destruct (finish_cases sx m2 e1 ltac:(lia) He1 Hn2) as
    [[Hz Hf]|[(p & e' & Hf & Hb & Hv)|(Hpos & Hf & Hov)]]; rewrite <- Hres in Hf; rewrite Hf.
  - split; [reflexivity|]. split; [reflexivity|]. split.
    + intros mg eg Hmg Heg Hg. right. cbn. specialize (Hlow mg eg Hmg Heg Hg).
      rewrite Hz in Hlow. unfold F2R in Hlow at 2. lra.
    + intros mh eh Hmh Heh Hh. split; [reflexivity|]. cbn.
      specialize (Hhigh mh eh Hmh ltac:(lia) Hh). rewrite Hz in Hhigh. unfold F2R in Hhigh at 1. lra.
  - split; [exact Hb|]. split; [reflexivity|]. split.
    + intros mg eg Hmg Heg Hg. right. cbn. rewrite Hv. auto.
    + intros mh eh Hmh Heh Hh. split; [reflexivity|]. cbn. rewrite Hv. apply Hhigh; auto; lia.
  - split; [reflexivity|]. split; [reflexivity|]. split.
    + intros; left; reflexivity.
    + intros mh eh Hmh Heh Hh. exfalso.
      specialize (Hhigh mh eh Hmh ltac:(lia) Hh).
      assert (F2R mh eh < bpow 1024)%R; [|lra].
      replace 1024 with (53 + 971) by lia. rewrite bpow_add, (bpow_Z 53) by lia.
      unfold F2R. pose proof (bpow_le eh 971 ltac:(lia)). pose proof (bpow_pos eh).
      assert (IZR mh < IZR (2 ^ 53))%R by (apply IZR_lt; lia).
      assert (0 <= IZR mh)%R by (apply IZR_le; lia).
      nra.
Qed.

Lemma F2R_0 e : F2R 0 e = 0%R.
Proof. unfold F2R. lra. Qed.

Lemma F2R_opp m e : F2R (- m) e = (- F2R m e)%R.
Proof. unfold F2R. rewrite opp_IZR. ring. Qed.

Lemma F2R_pos m e : (0 < F2R m e)%R <-> 0 < m.
Proof. rewrite <- (F2R_0 e). apply F2R_lt. Qed.

Lemma F2R_neg m e : (F2R m e < 0)%R <-> m < 0.
Proof. rewrite <- (F2R_0 e). apply F2R_lt. Qed.

Lemma format_SF2R f : valid_binary f = true -> format (SF2R f).
Proof.
  destruct f as [s|s| |s m e]; cbn [valid_binary SF2R]; intros Hv;
    try (exists 0, 0; rewrite F2R_0; repeat split; lia).
  apply bounded_spec in Hv. exists (cond_Zopp s (Z.pos m)), e.
  split; [destruct s; cbn; lia|]. split; [lia|reflexivity].
Qed.

Lemma faithful_exact f :
  valid_binary f = true -> SF_finite f = true -> faithful (SF2R f) f.
Proof.
  intros Hv Hf. split; [exact Hv|]. split; [destruct f; discriminate|].
  split; intros ? _ ?; right; auto.
Qed.

Lemma round_signed_faithful (sx : bool) m e l (x : R) :
  0 <= m -> e <= fexp64 (Zdigits2 m + e) ->
  (F2R m e <= x < F2R (m + 1) e)%R -> (loc_inex l = false <-> x = F2R m e) ->
  faithful (if sx then - x else x)%R (binary_round_aux prec emax sx m e l).
Proof.
  intros Hm He Hx Hl.
  destruct (binary_round_aux_faithful sx m e l x Hm He Hx Hl) as (Hv & Hs & Hlo & Hhi).
  set (res := binary_round_aux prec emax sx m e l) in *.
  assert (Hxpos : (0 <= x)%R).
  { destruct Hx as [Hx _]. assert (F2R 0 e <= F2R m e)%R by (apply F2R_le; lia).
    rewrite F2R_0 in *. lra. }
  assert (Habs : (0 <= SFabsR res)%R).
  { destruct res; cbn; try lra. apply Rlt_le, F2R_pos. lia. }
  assert (Hval : SF2R res = (if sx then - SFabsR res else SFabsR res)%R).
  { destruct res as [s|s| |s p e']; cbn in Hs |- *; try (destruct sx; lra).
    subst s. destruct sx; cbn [cond_Zopp]; [apply F2R_opp|reflexivity]. }
  assert (Hinf : SF_finite res = false -> res = S754_infinity sx).
  { destruct res; cbn in Hs |- *; try discriminate; try contradiction. intros _. congruence. }
  split; [exact Hv|]. split; [destruct res; cbn in Hs; try contradiction; discriminate|].
  split.
  - intros lo (mg & eg & Hmg & Heg & ->) Hle. destruct sx.
    + (* negative result: use the upper enclosure of the magnitude *)
      destruct (Hhi (- mg) eg) as [Hfin Hb].
      * assert (mg <= 0); [|lia]. apply (F2R_le mg 0 eg). rewrite F2R_0. lra.
      * lia.
      * rewrite F2R_opp. lra.
      * right. split; [exact Hfin|]. rewrite Hval. rewrite F2R_opp in Hb. lra.
    + destruct (Z_le_gt_dec mg 0) as [Hneg|Hpos].
      * destruct (SF_finite res) eqn:Hfin; [right|left; auto].
        split; [reflexivity|]. rewrite Hval.
        assert (F2R mg eg <= F2R 0 eg)%R by (apply F2R_le; lia). rewrite F2R_0 in *. lra.
      * destruct (Hlo mg eg ltac:(lia) ltac:(lia) Hle) as [Hfin|Hb]; [left; auto|].
        destruct (SF_finite res) eqn:Hfin; [right|left; auto].
        split; [reflexivity|]. rewrite Hval. exact Hb.
  - intros hi (mh & eh & Hmh & Heh & ->) Hle. destruct sx.
    + destruct (Z_le_gt_dec 0 mh) as [Hpos|Hneg].
      * destruct (SF_finite res) eqn:Hfin; [right|left; auto].
        split; [reflexivity|]. rewrite Hval.
        assert (F2R 0 eh <= F2R mh eh)%R by (apply F2R_le; lia). rewrite F2R_0 in *. lra.
      * destruct (Hlo (- mh) eh ltac:(lia) ltac:(lia)) as [Hfin|Hb].
        { rewrite F2R_opp. lra. }
        { left; auto. }
        destruct (SF_finite res) eqn:Hfin; [right|left; auto].
        split; [reflexivity|]. rewrite Hval. rewrite F2R_opp in Hb. lra.
    + destruct (Hhi mh eh) as [Hfin Hb].
      * assert (0 <= mh); [|lia]. apply (F2R_le 0 mh eh). rewrite F2R_0. lra.
      * lia.
      * exact Hle.
      * right. split; [exact Hfin|]. rewrite Hval. exact Hb.
Qed.

(** Alignment and normalisation of integers. *)
Lemma iter_xO p d : Z.pos (Pos.iter xO p d) = Z.pos p * 2 ^ Z.pos d.
Proof.
  induction d as [|d IH] using Pos.peano_ind.
  - cbn. lia.
  - rewrite Pos.iter_succ, Pos2Z.inj_xO, IH, Pos2Z.inj_succ, Z.pow_succ_r by lia. lia.
Qed.

Lemma shl_align_spec mx ex ex' :
  let '(m', e') := shl_align mx ex ex' in
  e' = Z.min ex ex' /\ Z.pos m' = Z.pos mx * 2 ^ (ex - e').
Proof.
  unfold shl_align. destruct (ex' - ex) as [|d|d] eqn:E.
  - split; [lia|]. replace (ex - ex) with 0 by lia. lia.
  - split; [lia|]. replace (ex - ex) with 0 by lia. lia.
  - split; [lia|]. rewrite iter_xO. f_equal. f_equal. lia.
Qed.

Lemma Zdigits2_shift m k : 0 < m -> 0 <= k -> Zdigits2 (m * 2 ^ k) = Zdigits2 m + k.
Proof.
  intros Hm Hk. pose proof (Zdigits2_spec m Hm) as [H1 H2]. pose proof (Zdigits2_pos m Hm).
  assert (0 < 2 ^ k) by (apply Z.pow_pos_nonneg; lia).
  apply Zdigits2_unique; [|nia].
  replace (Zdigits2 m + k - 1) with ((Zdigits2 m - 1) + k) by lia.
  rewrite !Z.pow_add_r by lia. split; nia.
Qed.

Lemma binary_round_faithful sx mx ex :
  faithful (F2R (cond_Zopp sx (Z.pos mx)) ex) (binary_round prec emax sx mx ex).
Proof.
  unfold binary_round.
  pose proof (shl_align_spec mx ex (fexp64 (Z.pos (digits2_pos mx) + ex))) as Hal.
  destruct (shl_align mx ex (fexp64 (Z.pos (digits2_pos mx) + ex))) as [mz ez].
  destruct Hal as [Hez Hmz].
  assert (Hk : 0 <= ex - ez) by lia.
  assert (Hval : F2R (Z.pos mz) ez = F2R (Z.pos mx) ex).
  { rewrite Hmz. rewrite <- F2R_shift by lia. f_equal. lia. }
  replace (F2R (cond_Zopp sx (Z.pos mx)) ex)
    with (if sx then - F2R (Z.pos mz) ez else F2R (Z.pos mz) ez)%R.
  2:{ rewrite Hval. destruct sx; cbn [cond_Zopp]; [symmetry; apply F2R_opp|reflexivity]. }
  apply round_signed_faithful.
  - lia.
  - rewrite Hmz, Zdigits2_shift by lia. cbn [Zdigits2].
    replace (Z.pos (digits2_pos mx) + (ex - ez) + ez) with (Z.pos (digits2_pos mx) + ex) by lia.
    lia.
  - split; [lra|]. apply F2R_lt. lia.
  - split; reflexivity.
Qed.

Lemma binary_normalize_faithful m e :
  faithful (F2R m e) (binary_normalize prec emax m e false).
Proof.
  destruct m as [|p|p]; cbn [binary_normalize].
  - rewrite F2R_0. apply (faithful_exact (S754_zero false)); reflexivity.
  - apply (binary_round_faithful false).
  - apply (binary_round_faithful true).
Qed.

(** The four arithmetic operations of the specification are faithful. *)
Lemma faithful_zero s : faithful 0 (S754_zero s).
Proof. apply (faithful_exact (S754_zero s)); reflexivity. Qed.

Lemma shl_align_value s m e ez :
  ez <= e ->
  F2R (cond_Zopp s (Z.pos (fst (shl_align m e ez)))) ez = F2R (cond_Zopp s (Z.pos m)) e.
Proof.
  intros Hle. pose proof (shl_align_spec m e ez) as H.
  destruct (shl_align m e ez) as [m' e']. cbn [fst]. destruct H as [He' Hm'].
  assert (Hez : e' = ez) by lia. clear He'. subst e'.
  transitivity (F2R (cond_Zopp s (Z.pos m) * 2 ^ (e - ez)) ez).
  - apply F2R_eq. rewrite Hm'. destruct s; cbn [cond_Zopp]; ring.
  - rewrite <- F2R_shift by lia. f_equal. lia.
Qed.

Lemma F2R_plus m1 m2 e : F2R (m1 + m2) e = (F2R m1 e + F2R m2 e)%R.
Proof. unfold F2R. rewrite plus_IZR. ring. Qed.

Lemma F2R_minus m1 m2 e : F2R (m1 - m2) e = (F2R m1 e - F2R m2 e)%R.
Proof. unfold F2R. rewrite minus_IZR. ring. Qed.

Lemma SFadd_faithful x y :
  valid_binary x = true -> valid_binary y = true ->
  SF_finite x = true -> SF_finite y = true ->
  faithful (SF2R x + SF2R y) (SFadd prec emax x y).
Proof.
  intros Vx Vy Fx Fy.
  destruct x as [sx|sx| |sx mx ex], y as [sy|sy| |sy my ey]; try discriminate.
  - cbn [SF2R]. rewrite Rplus_0_l. destruct sx, sy; apply faithful_zero.
  - cbn [SF2R SFadd]. rewrite Rplus_0_l. apply (faithful_exact (S754_finite sy my ey)); auto.
  - cbn [SF2R SFadd]. rewrite Rplus_0_r. apply (faithful_exact (S754_finite sx mx ex)); auto.
  - cbn [SF2R SFadd]. 
    rewrite <- (shl_align_value sx mx ex (Z.min ex ey)) by lia.
    rewrite <- (shl_align_value sy my ey (Z.min ex ey)) by lia.
    rewrite <- F2R_plus. apply binary_normalize_faithful.
Qed.

Lemma SFsub_faithful x y :
  valid_binary x = true -> valid_binary y = true ->
  SF_finite x = true -> SF_finite y = true ->
  faithful (SF2R x - SF2R y) (SFsub prec emax x y).
Proof.
  intros Vx Vy Fx Fy.
  destruct x as [sx|sx| |sx mx ex], y as [sy|sy| |sy my ey]; try discriminate.
  - cbn [SF2R]. rewrite Rminus_0_r. destruct sx, sy; apply faithful_zero.
  - cbn [SF2R SFsub]. 
    replace (0 - F2R (cond_Zopp sy (Z.pos my)) ey)%R with (SF2R (S754_finite (negb sy) my ey)).
    + apply (faithful_exact (S754_finite (negb sy) my ey)); auto.
    + cbn [SF2R]. destruct sy; cbn [negb cond_Zopp]; rewrite ?F2R_opp; lra.
  - cbn [SF2R SFsub]. rewrite Rminus_0_r. apply (faithful_exact (S754_finite sx mx ex)); auto.
  - cbn [SF2R SFsub].
    rewrite <- (shl_align_value sx mx ex (Z.min ex ey)) by lia.
    rewrite <- (shl_align_value sy my ey (Z.min ex ey)) by lia.
    rewrite <- F2R_minus. apply binary_normalize_faithful.
Qed.

Lemma F2R_mult m1 e1 m2 e2 : (F2R m1 e1 * F2R m2 e2)%R = F2R (m1 * m2) (e1 + e2).
Proof. unfold F2R. rewrite mult_IZR, bpow_add. ring. Qed.

Lemma SFmul_faithful x y :
  valid_binary x = true -> valid_binary y = true ->
  SF_finite x = true -> SF_finite y = true ->
  faithful (SF2R x * SF2R y) (SFmul prec emax x y).
Proof.
  intros Vx Vy Fx Fy.
  destruct x as [sx|sx| |sx mx ex], y as [sy|sy| |sy my ey]; try discriminate;
    cbn [SF2R SFmul]; rewrite ?Rmult_0_l, ?Rmult_0_r; try apply faithful_zero.
  cbn [valid_binary] in Vx, Vy. apply bounded_spec in Vx, Vy.
  rewrite F2R_mult.
  replace (F2R (cond_Zopp sx (Z.pos mx) * cond_Zopp sy (Z.pos my)) (ex + ey))
    with (if xorb sx sy then - F2R (Z.pos (mx * my)) (ex + ey) else F2R (Z.pos (mx * my)) (ex + ey))%R.
  2:{ rewrite Pos2Z.inj_mul. destruct sx, sy; cbn [xorb cond_Zopp]; rewrite <- ?F2R_opp; f_equal; lia. }
  apply round_signed_faithful.
  - lia.
  - rewrite fexp64_eq.
    destruct (Z_le_gt_dec (2 ^ 52) (Z.pos mx * Z.pos my)) as [Hbig|Hsmall].
    + assert (53 <= Zdigits2 (Z.pos (mx * my))).
      { rewrite Pos2Z.inj_mul.
        pose proof (Zdigits2_spec (Z.pos mx * Z.pos my) ltac:(lia)) as [_ Hd].
        destruct (Z_lt_le_dec (Zdigits2 (Z.pos mx * Z.pos my)) 53) as [Hc|]; [|lia].
        assert (2 ^ Zdigits2 (Z.pos mx * Z.pos my) <= 2 ^ 52) by (apply Z.pow_le_mono_r; lia).
        lia. }
      lia.
    + assert (ex = -1074 /\ ey = -1074) as [-> ->]; [|lia].
      split.
      * destruct Vx as (_ & _ & [?|Hx]); [assumption|]. nia.
      * destruct Vy as (_ & _ & [?|Hy]); [assumption|]. nia.
  - split; [lra|]. apply F2R_lt. lia.
  - split; reflexivity.
Qed.

Lemma loc_inex_new_location n k : loc_inex (new_location n k) = negb (k =? 0).
Proof.
  unfold new_location, new_location_even, new_location_odd.
  destruct (Z.even n), (k =? 0); reflexivity.
Qed.

Lemma SFdiv_faithful x y :
  valid_binary x = true -> valid_binary y = true ->
  SF_finite x = true -> SF_finite y = true -> SF2R y <> 0%R ->
  faithful (SF2R x / SF2R y) (SFdiv prec emax x y).
Proof.
  intros Vx Vy Fx Fy Hy0.
  destruct x as [sx|sx| |sx mx ex], y as [sy|sy| |sy my ey]; try discriminate;
    cbn [SF2R] in Hy0 |- *; try (exfalso; apply Hy0; reflexivity).
  - unfold Rdiv. rewrite Rmult_0_l. apply faithful_zero.
  - cbn [valid_binary] in Vx, Vy. apply bounded_spec in Vx, Vy.
    cbn [SFdiv]. unfold SFdiv_core_binary.
    set (d1 := Zdigits2 (Z.pos mx)). set (d2 := Zdigits2 (Z.pos my)).
    set (e' := Z.min (fexp64 (d1 + ex - (d2 + ey))) (ex - ey)).
    set (s := ex - ey - e').
    assert (Hs : 0 <= s) by (unfold s, e'; lia).
    set (m' := match s with Z.pos _ => Z.shiftl (Z.pos mx) s | 0 => Z.pos mx | Z.neg _ => 0 end).
    assert (Hm' : m' = Z.pos mx * 2 ^ s).
    { unfold m'. destruct s as [|p|p] eqn:Es; [lia| |lia]. apply Z.shiftl_mul_pow2. lia. }
    pose proof (Z_div_mod m' (Z.pos my) ltac:(lia)) as Hdm.
    destruct (Z.div_eucl m' (Z.pos my)) as [q r]. destruct Hdm as [Hdm Hr].
    assert (H2s : 0 < 2 ^ s) by (apply Z.pow_pos_nonneg; lia).
    assert (Hq : 0 <= q) by nia.
    set (X := (F2R (Z.pos mx) ex / F2R (Z.pos my) ey)%R).
    replace (F2R (cond_Zopp sx (Z.pos mx)) ex / F2R (cond_Zopp sy (Z.pos my)) ey)%R
      with (if xorb sx sy then - X else X)%R.
    2:{ unfold X. assert (F2R (Z.pos my) ey <> 0)%R.
        { pose proof (proj2 (F2R_pos (Z.pos my) ey) ltac:(lia)). lra. }
        destruct sx, sy; cbn [xorb cond_Zopp]; rewrite ?F2R_opp; field; assumption. }
    assert (HX : X = (IZR q * bpow e' + IZR r * (bpow e' / IZR (Z.pos my)))%R).
    { unfold X, F2R. replace ex with (ey + (e' + s)) by (unfold s; lia).
      rewrite !bpow_add, (bpow_Z s) by lia.
      assert (IZR (Z.pos mx) * IZR (2 ^ s) = IZR (Z.pos my) * IZR q + IZR r)%R as Hreal.
      { rewrite <- !mult_IZR, <- plus_IZR. f_equal. lia. }
      pose proof (bpow_pos ey). assert (0 < IZR (Z.pos my))%R by (apply IZR_lt; lia).
      apply Rmult_eq_reg_r with (IZR (Z.pos my)); [|lra].
      transitivity (IZR (Z.pos mx) * IZR (2 ^ s) * bpow e')%R; [field; lra|].
      rewrite Hreal. field. lra. }
    assert (HY : (0 < bpow e' / IZR (Z.pos my))%R).
    { apply Rdiv_lt_0_compat; [apply bpow_pos|apply IZR_lt; lia]. }
    assert (HB : (IZR (Z.pos my) * (bpow e' / IZR (Z.pos my)) = bpow e')%R).
    { field. assert (0 < IZR (Z.pos my))%R by (apply IZR_lt; lia). lra. }
    assert (Hr1 : (0 <= IZR r)%R) by (apply IZR_le; lia).
    assert (Hr2 : (IZR r < IZR (Z.pos my))%R) by (apply IZR_lt; lia).
    apply round_signed_faithful.
    + exact Hq.
    + rewrite fexp64_eq.
      destruct (Z_le_gt_dec e' (-1074)) as [|Hgt]; [lia|].
      assert (He' : e' <= d1 + ex - (d2 + ey) - 53) by (unfold e' in *; rewrite fexp64_eq in *; lia).
      pose proof (Zdigits2_spec (Z.pos mx) ltac:(lia)) as [Hd1 _]. fold d1 in Hd1.
      pose proof (Zdigits2_spec (Z.pos my) ltac:(lia)) as [_ Hd2]. fold d2 in Hd2.
      pose proof (Zdigits2_pos (Z.pos mx) ltac:(lia)). pose proof (Zdigits2_pos (Z.pos my) ltac:(lia)).
      assert (2 ^ 52 <= q).
      { assert (2 ^ (d1 - 1) * 2 ^ s <= m') by nia.
        assert (2 ^ (52 + d2) <= 2 ^ (d1 - 1) * 2 ^ s).
        { rewrite <- Z.pow_add_r by (fold d1; lia). apply Z.pow_le_mono_r; [lia|]. unfold s. fold d1 d2. lia. }
        rewrite Z.pow_add_r in * by (fold d2; lia).
        destruct (Z_lt_le_dec q (2 ^ 52)); [|assumption]. exfalso. 
        assert (q + 1 <= 2 ^ 52) by lia.
        assert (Z.pos my * q + r < Z.pos my * (q + 1)) by lia.
        assert (Z.pos my * (q + 1) <= Z.pos my * 2 ^ 52) by (apply Z.mul_le_mono_nonneg_l; lia).
        assert (Z.pos my * 2 ^ 52 < 2 ^ d2 * 2 ^ 52) by (apply Z.mul_lt_mono_pos_r; lia).
        lia. }
      assert (53 <= Zdigits2 q).
      { pose proof (Zdigits2_spec q ltac:(lia)) as [_ Hdq].
        destruct (Z_lt_le_dec (Zdigits2 q) 53); [|lia].
        assert (2 ^ Zdigits2 q <= 2 ^ 52) by (apply Z.pow_le_mono_r; lia). lia. }
      lia.
    + rewrite HX. unfold F2R. rewrite plus_IZR. split; [nra|].
      assert (IZR r * (bpow e' / IZR (Z.pos my)) < bpow e')%R; [|lra].
      rewrite <- HB at 2. apply Rmult_lt_compat_r; assumption.
    + rewrite loc_inex_new_location, negb_false_iff, Z.eqb_eq. rewrite HX. unfold F2R. split.
      * intros ->. lra.
      * intros Heq. apply eq_IZR. 
        assert (IZR r * (bpow e' / IZR (Z.pos my)) = 0)%R by lra.
        apply Rmult_integral in H as [?|?]; [assumption|lra].
Qed.

Lemma faithful_bounds r res lo hi :
  faithful r res -> format lo -> format hi -> (lo <= r <= hi)%R ->
  SF_finite res = true /\ (lo <= SF2R res <= hi)%R.
Proof.
  intros (_ & _ & Hlo & Hhi) Flo Fhi [H1 H2].
  destruct (Hlo lo Flo H1) as [E1|[F1 B1]], (Hhi hi Fhi H2) as [E2|[F2 B2]].
  - congruence.
  - rewrite E1 in F2. discriminate.
  - rewrite E2 in F1. discriminate.
  - split; [assumption|lra].
Qed.

Lemma faithful_format r res :
  faithful r res -> format r -> SF_finite res = true /\ SF2R res = r.
Proof.
  intros Hf Hr. destruct (faithful_bounds r res r r Hf Hr Hr ltac:(lra)) as [? ?].
  split; [assumption|lra].
Qed.

(** Order of valid finite floats. *)
Lemma canonical_lt m1 e1 m2 e2 :
  bounded prec emax m1 e1 = true -> bounded prec emax m2 e2 = true ->
  e1 < e2 -> (F2R (Z.pos m1) e1 < F2R (Z.pos m2) e2)%R.
Proof.
  intros H1 H2 Hlt. apply bounded_spec in H1, H2.
  replace e2 with (e1 + (e2 - e1)) by lia. rewrite F2R_shift by lia. apply F2R_lt.
  assert (2 <= 2 ^ (e2 - e1)).
  { replace (e2 - e1) with (1 + (e2 - e1 - 1)) by lia.
    rewrite Z.pow_add_r by lia. pose proof (Z.pow_pos_nonneg 2 (e2 - e1 - 1)). lia. }
  change (2 ^ 53) with (2 ^ 52 * 2) in H1. nia.
Qed.

Lemma SFcompare_finite x y :
  valid_binary x = true -> valid_binary y = true ->
  SF_finite x = true -> SF_finite y = true ->
  match SFcompare x y with
  | Some Lt => (SF2R x < SF2R y)%R
  | Some Eq => SF2R x = SF2R y
  | Some Gt => (SF2R y < SF2R x)%R
  | None => False
  end.
Proof.
  intros Vx Vy Fx Fy.
  destruct x as [sx|sx| |sx mx ex], y as [sy|sy| |sy my ey]; try discriminate;
    cbn [SFcompare SF2R].
  - reflexivity.
  - destruct sy; cbn [cond_Zopp]; [apply F2R_neg|apply F2R_pos]; lia.
  - destruct sx; cbn [cond_Zopp]; [apply F2R_neg|apply F2R_pos]; lia.
  - cbn [valid_binary] in Vx, Vy.
    assert (Hpx : (0 < F2R (Z.pos mx) ex)%R) by (apply F2R_pos; lia).
    assert (Hpy : (0 < F2R (Z.pos my) ey)%R) by (apply F2R_pos; lia).
    destruct sx, sy; cbn [cond_Zopp]; 
      change (Z.neg mx) with (- Z.pos mx); change (Z.neg my) with (- Z.pos my);
      rewrite ?F2R_opp; try lra.
    + destruct (Z.compare_spec ex ey) as [->|Hlt|Hgt].
      * rewrite Pos.compare_cont_spec. cbn [Pos.switch_Eq].
        destruct (Pos.compare_spec mx my) as [->|Hm|Hm]; cbn [CompOpp].
        -- reflexivity.
        -- apply Ropp_lt_contravar, F2R_lt. lia.
        -- apply Ropp_lt_contravar, F2R_lt. lia.
      * apply Ropp_lt_contravar, canonical_lt; assumption.
      * apply Ropp_lt_contravar, canonical_lt; assumption.
    + destruct (Z.compare_spec ex ey) as [->|Hlt|Hgt].
      * rewrite Pos.compare_cont_spec. cbn [Pos.switch_Eq].
        destruct (Pos.compare_spec mx my) as [->|Hm|Hm].
        -- reflexivity.
        -- apply F2R_lt. lia.
        -- apply F2R_lt. lia.
      * apply canonical_lt; assumption.
      * apply canonical_lt; assumption.
Qed.

Lemma format_B2R x : format (B2R x).
Proof. apply format_SF2R, Prim2SF_valid. Qed.

Lemma ltb_B2R x y :
  finite x = true -> finite y = true -> ((x <? y)%float = true <-> (B2R x < B2R y)%R).
Proof.
  intros Fx Fy. rewrite FloatAxioms.ltb_spec. unfold SFltb, B2R.
  pose proof (SFcompare_finite _ _ (Prim2SF_valid x) (Prim2SF_valid y) Fx Fy) as H.
  destruct (SFcompare (Prim2SF x) (Prim2SF y)) as [[]|]; try contradiction;
    split; intros; try reflexivity; try discriminate; lra.
Qed.

Lemma leb_B2R x y :
  finite x = true -> finite y = true -> ((x <=? y)%float = true <-> (B2R x <= B2R y)%R).
Proof.
  intros Fx Fy. rewrite FloatAxioms.leb_spec. unfold SFleb, B2R.
  pose proof (SFcompare_finite _ _ (Prim2SF_valid x) (Prim2SF_valid y) Fx Fy) as H.
  destruct (SFcompare (Prim2SF x) (Prim2SF y)) as [[]|]; try contradiction;
    split; intros; try reflexivity; try discriminate; lra.
Qed.

Lemma eqb_B2R x y :
  finite x = true -> finite y = true -> ((x =? y)%float = true <-> B2R x = B2R y).
Proof.
  intros Fx Fy. rewrite FloatAxioms.eqb_spec. unfold SFeqb, B2R.
  pose proof (SFcompare_finite _ _ (Prim2SF_valid x) (Prim2SF_valid y) Fx Fy) as H.
  destruct (SFcompare (Prim2SF x) (Prim2SF y)) as [[]|]; try contradiction;
    split; intros; try reflexivity; try discriminate; lra.
Qed.

Lemma add_faithful x y :
  finite x = true -> finite y = true -> faithful (B2R x + B2R y) (Prim2SF (x + y)).
Proof. intros. rewrite FloatAxioms.add_spec. apply SFadd_faithful; auto using Prim2SF_valid. Qed.

Lemma sub_faithful x y :
  finite x = true -> finite y = true -> faithful (B2R x - B2R y) (Prim2SF (x - y)).
Proof. intros. rewrite FloatAxioms.sub_spec. apply SFsub_faithful; auto using Prim2SF_valid. Qed.

Lemma mul_faithful x y :
  finite x = true -> finite y = true -> faithful (B2R x * B2R y) (Prim2SF (x * y)).
Proof. intros. rewrite FloatAxioms.mul_spec. apply SFmul_faithful; auto using Prim2SF_valid. Qed.

Lemma div_faithful x y :
  finite x = true -> finite y = true -> B2R y <> 0%R ->
  faithful (B2R x / B2R y) (Prim2SF (x / y)).
Proof. intros. rewrite FloatAxioms.div_spec. apply SFdiv_faithful; auto using Prim2SF_valid. Qed.

Lemma Z2num_faithful z : faithful (IZR z) (Prim2SF (Z2num z)).
Proof.
  unfold Z2num. pose proof (binary_normalize_faithful z 0) as H.
  rewrite Prim2SF_SF2Prim by apply H.
  replace (IZR z) with (F2R z 0); [exact H|]. unfold F2R, bpow. cbn. lra.
Qed.

Lemma Z2num_exact z :
  Z.abs z < 2 ^ 53 -> finite (Z2num z) = true /\ B2R (Z2num z) = IZR z.
Proof.
  intros Hz. apply faithful_format; [apply Z2num_faithful|].
  exists z, 0. split; [assumption|]. split; [lia|]. unfold F2R, bpow. cbn. lra.
Qed.

Lemma B2R_one : B2R 1 = 1%R.
Proof.
  change 1%float with (Z2num 1). apply Z2num_exact. cbn. lia.
Qed.

(** ** Working with numbers through their real values *)

Lemma faithful_Prim_bounds x r lo hi :
  faithful r (Prim2SF x) -> format lo -> format hi -> (lo <= r <= hi)%R ->
  finite x = true /\ (lo <= B2R x <= hi)%R.
Proof. apply faithful_bounds. Qed.

Lemma faithful_Prim_exact x r :
  faithful r (Prim2SF x) -> format r -> finite x = true /\ B2R x = r.
Proof. apply faithful_format. Qed.

Lemma format_F2R m e : Z.abs m < 2 ^ 53 -> -1074 <= e <= 971 -> format (F2R m e).
Proof. intros Hm He. exists m, e. auto. Qed.

Lemma format_IZR z : Z.abs z <= 2 ^ 53 -> format (IZR z).
Proof.
  intros Hz. destruct (Z.eq_dec (Z.abs z) (2 ^ 53)) as [E|N].
  - assert (Hc : z = 2 ^ 52 * 2 \/ z = - 2 ^ 52 * 2) by lia.
    destruct Hc as [-> | ->].
    + exists (2 ^ 52), 1. split; [cbn; lia|]. split; [lia|].
      unfold F2R, bpow. simpl powerRZ. rewrite mult_IZR. lra.
    + exists (- 2 ^ 52), 1. split; [cbn; lia|]. split; [lia|].
      unfold F2R, bpow. simpl powerRZ. rewrite mult_IZR. lra.
  - exists z, 0. split; [lia|]. split; [lia|]. unfold F2R, bpow. cbn. lra.
Qed.

Lemma bpow_opp e : bpow (- e) = (/ bpow e)%R.
Proof. apply powerRZ_neg'. Qed.

Lemma F2R_neg_exp m k : 0 <= k -> F2R m (- k) = (IZR m / IZR (2 ^ k))%R.
Proof. intros Hk. unfold F2R. rewrite bpow_opp, bpow_Z by lia. reflexivity. Qed.

(** Multiples of [2^-53] between -1 and 1. *)
Lemma format_grid k : Z.abs k <= 2 ^ 53 -> format (IZR k / IZR (2 ^ 53)).
Proof.
  intros Hk. assert (H53 : IZR (2 ^ 53) <> 0%R) by (apply not_0_IZR; lia).
  destruct (Z.eq_dec (Z.abs k) (2 ^ 53)) as [E|N].
  - assert (Hc : k = 2 ^ 53 \/ k = - 2 ^ 53) by lia.
    destruct Hc as [-> | ->].
    + replace (IZR (2 ^ 53) / IZR (2 ^ 53))%R with (IZR 1) by (field; assumption).
      apply format_IZR. cbn. lia.
    + replace (IZR (- 2 ^ 53) / IZR (2 ^ 53))%R with (IZR (- 1)).
      * apply format_IZR. cbn. lia.
      * rewrite !opp_IZR. field. assumption.
  - rewrite <- F2R_neg_exp by lia. apply format_F2R; lia.
Qed.

Lemma finite_nonzero_value s m e : SF2R (S754_finite s m e) <> 0%R.
Proof.
  assert (0 < F2R (Z.pos m) e)%R by (apply F2R_pos; lia).
  unfold SF2R. destruct s; cbn [cond_Zopp]; rewrite ?F2R_opp; lra.
Qed.

Lemma SF2R_inj x y :
  valid_binary x = true -> valid_binary y = true ->
  SF_finite x = true -> SF_finite y = true ->
  SF2R x = SF2R y -> SF2R x <> 0%R -> x = y.
Proof.
  intros Vx Vy Fx Fy Heq Hnz.
  pose proof (SFcompare_finite x y Vx Vy Fx Fy) as Hc.
  destruct x as [sx|sx| |sx mx ex], y as [sy|sy| |sy my ey]; try discriminate;
    try (exfalso; apply Hnz; reflexivity).
  - exfalso. apply (finite_nonzero_value sx mx ex). exact Heq.
  - cbn [SFcompare] in Hc. cbn [SF2R] in Heq, Hc.
    assert (Hpx : (0 < F2R (Z.pos mx) ex)%R) by (apply F2R_pos; lia).
    assert (Hpy : (0 < F2R (Z.pos my) ey)%R) by (apply F2R_pos; lia).
    cbn [valid_binary] in Vx, Vy.
    assert (Hpos : forall m1 e1 m2 e2, bounded prec emax m1 e1 = true ->
              bounded prec emax m2 e2 = true ->
              F2R (Z.pos m1) e1 = F2R (Z.pos m2) e2 -> m1 = m2 /\ e1 = e2).
    { intros m1 e1 m2 e2 B1 B2 E.
      destruct (Z.lt_total e1 e2) as [Hlt|[He|Hgt]].
      - pose proof (canonical_lt m1 e1 m2 e2 B1 B2 Hlt). lra.
      - subst e2. apply F2R_eq in E. split; [congruence|reflexivity].
      - pose proof (canonical_lt m2 e2 m1 e1 B2 B1 Hgt). lra. }
    destruct sx, sy; cbn [cond_Zopp] in Heq;
      change (Z.neg mx) with (- Z.pos mx) in Heq; change (Z.neg my) with (- Z.pos my) in Heq;
      rewrite ?F2R_opp in Heq; try lra.
    + destruct (Hpos mx ex my ey Vx Vy ltac:(lra)) as [-> ->]. reflexivity.
    + destruct (Hpos mx ex my ey Vx Vy Heq) as [-> ->]. reflexivity.
Qed.

Lemma B2R_inj x y :
  finite x = true -> finite y = true -> B2R x = B2R y -> B2R x <> 0%R -> x = y.
Proof.
  intros Fx Fy Heq Hnz. apply Prim2SF_inj.
  apply SF2R_inj; auto using Prim2SF_valid.
Qed.

Lemma B2R_zero x :
  finite x = true -> B2R x = 0%R -> exists s, Prim2SF x = S754_zero s.
Proof.
  unfold finite, B2R. destruct (Prim2SF x) as [s|s| |s m e]; try discriminate.
  - intros _ _. exists s. reflexivity.
  - intros _ H. exfalso. exact (finite_nonzero_value s m e H).
Qed.

Lemma finite_cases x :
  finite x = true \/ Prim2SF x = S754_infinity false \/
  Prim2SF x = S754_infinity true \/ Prim2SF x = S754_nan.
Proof. unfold finite. destruct (Prim2SF x) as [s|[]| |s m e]; cbn; auto. Qed.

Lemma B2R_Z2num z : Z.abs z < 2 ^ 53 -> B2R (Z2num z) = IZR z.
Proof. intros. apply Z2num_exact. assumption. Qed.

Lemma finite_Z2num z : Z.abs z < 2 ^ 53 -> finite (Z2num z) = true.
Proof. intros. apply Z2num_exact. assumption. Qed.

Lemma B2R_zero_float : B2R 0 = 0%R.
Proof. reflexivity. Qed.

Lemma B2R_two : B2R 2 = 2%R.
Proof. change 2%float with (Z2num 2). apply B2R_Z2num. cbn. lia. Qed.

Lemma B2R_half : B2R 0.5 = (1 / 2)%R.
Proof.
  unfold B2R. change (Prim2SF 0.5) with (S754_finite false (2 ^ 52) (- (53))).
  cbn [SF2R cond_Zopp]. rewrite F2R_neg_exp by lia.
  change (Z.pos (2 ^ 52)) with (2 ^ 52). change (2 ^ 53) with (2 ^ 52 * 2).
  rewrite mult_IZR. field. apply not_0_IZR. lia.
Qed.

(** *** Exact operations *)

Lemma div_diag x : finite x = true -> B2R x <> 0%R -> (x / x)%float = 1%float.
Proof.
  intros Fx Hnz.
  destruct (faithful_Prim_exact (x / x) _ (div_faithful x x Fx Fx Hnz)) as [Ff Hv].
  - replace (B2R x / B2R x)%R with (IZR 1) by (field; assumption).
    apply format_IZR. cbn. lia.
  - apply B2R_inj; auto. rewrite Hv, B2R_one. field. assumption.
    rewrite Hv. unfold Rdiv. rewrite Rinv_r by assumption. lra.
Qed.

Lemma mul_one_l x : finite x = true -> (1 * x)%float = x.
Proof.
  intros Fx. destruct (Req_dec (B2R x) 0) as [Hz|Hnz].
  - destruct (B2R_zero x Fx Hz) as [s Hs]. apply Prim2SF_inj.
    rewrite FloatAxioms.mul_spec, Hs. destruct s; reflexivity.
  - destruct (faithful_Prim_exact (1 * x) _ (mul_faithful 1 x eq_refl Fx)) as [Ff Hv].
    + rewrite B2R_one, Rmult_1_l. apply format_B2R.
    + apply B2R_inj; auto; rewrite Hv, B2R_one; lra.
Qed.

Lemma sub_diag x : finite x = true -> (x - x)%float = 0%float.
Proof.
  intros Fx. apply Prim2SF_inj. rewrite FloatAxioms.sub_spec.
  unfold finite in Fx. destruct (Prim2SF x) as [[]|[]| |s m e]; try discriminate; try reflexivity.
  unfold SF64sub, SFsub. rewrite Z.sub_diag. reflexivity.
Qed.

Lemma add_zero_r x z :
  finite x = true -> finite z = true -> B2R z = 0%R -> B2R x <> 0%R -> (x + z)%float = x.
Proof.
  intros Fx Fz Hz Hnz.
  destruct (faithful_Prim_exact (x + z) _ (add_faithful x z Fx Fz)) as [Ff Hv].
  - rewrite Hz, Rplus_0_r. apply format_B2R.
  - apply B2R_inj; auto; rewrite Hv, Hz; lra.
Qed.

Lemma mul_zero_l y : finite y = true -> finite (0 * y) = true /\ B2R (0 * y) = 0%R.
Proof.
  intros Fy.
  destruct (faithful_Prim_exact (0 * y) _ (mul_faithful 0 y eq_refl Fy)) as [Ff Hv].
  - rewrite B2R_zero_float, Rmult_0_l. apply (format_IZR 0). cbn. lia.
  - split; [assumption|]. rewrite Hv, B2R_zero_float. lra.
Qed.

Lemma zero_div y :
  Prim2SF y <> S754_nan -> (y =? 0)%float = false -> (0 / y)%float = 0%float \/ (0 / y)%float = (-0)%float.
Proof.
  intros Hnan Hnz. rewrite FloatAxioms.eqb_spec in Hnz.
  assert (H : Prim2SF (0 / y) = S754_zero false \/ Prim2SF (0 / y) = S754_zero true).
  { rewrite FloatAxioms.div_spec. change (Prim2SF 0) with (S754_zero false).
    destruct (Prim2SF y) as [s|s| |s m e]; try congruence.
    - destruct s; discriminate.
    - destruct s; cbn; auto.
    - destruct s; cbn; auto. }
  destruct H as [H|H]; [left|right]; apply Prim2SF_inj; rewrite H; reflexivity.
Qed.

(** *** Ratios of counts *)

Lemma count_ratio a b :
  0 <= a <= b -> 0 < b < 2 ^ 53 ->
  finite (Z2num a / Z2num b) = true /\ (0 <= B2R (Z2num a / Z2num b) <= 1)%R.
Proof.
  intros Ha Hb.
  pose proof (finite_Z2num a ltac:(lia)) as Fa. pose proof (finite_Z2num b ltac:(lia)) as Fb.
  pose proof (B2R_Z2num a ltac:(lia)) as Va. pose proof (B2R_Z2num b ltac:(lia)) as Vb.
  assert (Hb0 : (0 < IZR b)%R) by (apply IZR_lt; lia).
  apply (faithful_Prim_bounds _ (B2R (Z2num a) / B2R (Z2num b))).
  - apply div_faithful; auto. rewrite Vb. lra.
  - apply (format_IZR 0). cbn. lia.
  - apply (format_IZR 1). cbn. lia.
  - rewrite Va, Vb.
    assert (0 <= IZR a)%R by (apply IZR_le; lia).
    assert (IZR a <= IZR b)%R by (apply IZR_le; lia).
    split.
    + apply Rmult_le_pos; [assumption|]. apply Rlt_le, Rinv_0_lt_compat. assumption.
    + apply (Rmult_le_reg_r (IZR b)); [assumption|]. unfold Rdiv.
      rewrite Rmult_assoc, Rinv_l by lra. lra.
Qed.

Lemma count_ratio_strict a b :
  0 < a < b -> b < 2 ^ 53 ->
  finite (Z2num a / Z2num b) = true /\
  (/ IZR (2 ^ 53) <= B2R (Z2num a / Z2num b) <= 1 - / IZR (2 ^ 53))%R.
Proof.
  intros Ha Hb.
  pose proof (finite_Z2num a ltac:(lia)) as Fa. pose proof (finite_Z2num b ltac:(lia)) as Fb.
  pose proof (B2R_Z2num a ltac:(lia)) as Va. pose proof (B2R_Z2num b ltac:(lia)) as Vb.
  assert (Hb0 : (0 < IZR b)%R) by (apply IZR_lt; lia).
  assert (H53 : (0 < IZR (2 ^ 53))%R) by (apply IZR_lt; lia).
  apply (faithful_Prim_bounds _ (B2R (Z2num a) / B2R (Z2num b))).
  - apply div_faithful; auto. rewrite Vb. lra.
  - replace (/ IZR (2 ^ 53))%R with (IZR 1 / IZR (2 ^ 53))%R by (unfold Rdiv; lra).
    apply format_grid. cbn. lia.
  - replace (1 - / IZR (2 ^ 53))%R with (IZR (2 ^ 53 - 1) / IZR (2 ^ 53))%R.
    + apply format_grid. cbn. lia.
    + rewrite minus_IZR. field. lra.
  - rewrite Va, Vb.
    assert (1 <= IZR a)%R by (apply IZR_le; lia).
    assert (IZR a + 1 <= IZR b)%R by (rewrite <- plus_IZR; apply IZR_le; lia).
    assert (IZR b < IZR (2 ^ 53))%R by (apply IZR_lt; lia).
    assert (Hib : (/ IZR (2 ^ 53) < / IZR b)%R) by (apply Rinv_lt_contravar; nra).
    assert (Hipos : (0 < / IZR b)%R) by (apply Rinv_0_lt_compat; assumption).
    assert (Hone : (IZR b * / IZR b = 1)%R) by (apply Rinv_r; lra).
    unfold Rdiv. split; nra.
Qed.

(** * The confusion matrix *)

Lemma includes_Object_keys {A : Type} (o : gmap Z A) (k : Z) :
  includes (Object_keys o) k = true <-> is_Some (o !! k).
Proof.
  unfold includes, Object_keys. rewrite bool_decide_eq_true, list_elem_of_fmap. split.
  - intros [[k' v] [-> Hin]]. apply elem_of_map_to_list in Hin. cbn. eauto.
  - intros [v Hv]. exists (k, v). split; [reflexivity|]. apply elem_of_map_to_list. exact Hv.
Qed.

Lemma countCase_classified evaluations cutoff matrix c :
  countCase evaluations (Object_keys evaluations) cutoff matrix c =
  match classified evaluations c with
  | None => matrix
  | Some score =>
      match cutoff <=? score, isCVMIPositive c with
      | true, true => {| tp := tp matrix + 1; fp := fp matrix; tn := tn matrix; fn := fn matrix |}
      | true, false => {| tp := tp matrix; fp := fp matrix + 1; tn := tn matrix; fn := fn matrix |}
      | false, true => {| tp := tp matrix; fp := fp matrix; tn := tn matrix; fn := fn matrix + 1 |}
      | false, false => {| tp := tp matrix; fp := fp matrix; tn := tn matrix + 1; fn := fn matrix |}
      end
  end.
Proof.
  unfold countCase, classified.
  destruct (evaluations !! caseNumber c) as [e|] eqn:He.
  - assert (Hin : includes (Object_keys evaluations) (caseNumber c) = true)
      by (apply includes_Object_keys; rewrite He; eauto).
    rewrite Hin. cbn [negb].
    destruct (viradsFinal e =? 0); [reflexivity|].
    destruct (cutoff <=? viradsFinal e), (isCVMIPositive c); reflexivity.
  - destruct (negb _); reflexivity.
Qed.

Lemma length_filter_cons {A : Type} (f : A -> bool) (x : A) (l : list A) :
  Z.of_nat (length (List.filter f (x :: l))) = Z.b2z (f x) + Z.of_nat (length (List.filter f l)).
Proof. cbn [List.filter]. destruct (f x); cbn [length Z.b2z]; lia. Qed.

Lemma countCase_cells evaluations cutoff matrix c :
  let m := countCase evaluations (Object_keys evaluations) cutoff matrix c in
  tp m = tp matrix + Z.b2z (inCell evaluations cutoff CellTP c) /\
  fp m = fp matrix + Z.b2z (inCell evaluations cutoff CellFP c) /\
  tn m = tn matrix + Z.b2z (inCell evaluations cutoff CellTN c) /\
  fn m = fn matrix + Z.b2z (inCell evaluations cutoff CellFN c).
Proof.
  cbn zeta. rewrite countCase_classified. unfold inCell, cellOf.
  destruct (classified evaluations c) as [score|];
    [destruct (cutoff <=? score), (isCVMIPositive c)|];
    repeat case_bool_decide; try congruence; cbn [tp fp tn fn Z.b2z]; lia.
Qed.

Lemma fold_countCase evaluations cutoff cases matrix :
  let m := fold_left (countCase evaluations (Object_keys evaluations) cutoff) cases matrix in
  tp m = tp matrix + countIn evaluations cutoff CellTP cases /\
  fp m = fp matrix + countIn evaluations cutoff CellFP cases /\
  tn m = tn matrix + countIn evaluations cutoff CellTN cases /\
  fn m = fn matrix + countIn evaluations cutoff CellFN cases.
Proof.
  revert matrix. unfold countIn.
  induction cases as [|c cases IH]; intros matrix.
  - cbn. lia.
  - cbn [fold_left]. rewrite !length_filter_cons.
    specialize (IH (countCase evaluations (Object_keys evaluations) cutoff matrix c)).
    cbn zeta in IH. destruct IH as (H1 & H2 & H3 & H4).
    destruct (countCase_cells evaluations cutoff matrix c) as (G1 & G2 & G3 & G4).
    cbn zeta. rewrite H1, H2, H3, H4, G1, G2, G3, G4. lia.
Qed.

Lemma getMatrix_cells evaluations cases cutoff :
  let m := getMatrixForEvaluations evaluations cases cutoff in
  tp m = countIn evaluations cutoff CellTP cases /\
  fp m = countIn evaluations cutoff CellFP cases /\
  tn m = countIn evaluations cutoff CellTN cases /\
  fn m = countIn evaluations cutoff CellFN cases.
Proof.
  unfold getMatrixForEvaluations.
  pose proof (fold_countCase evaluations cutoff cases {| tp := 0; fp := 0; tn := 0; fn := 0 |}) as H.
  cbn zeta in *. cbn [tp fp tn fn] in H. lia.
Qed.

Lemma count_cells evaluations cutoff cases :
  countIn evaluations cutoff CellTP cases + countIn evaluations cutoff CellFP cases
  + countIn evaluations cutoff CellTN cases + countIn evaluations cutoff CellFN cases
  = Z.of_nat (length (List.filter (fun c => bool_decide (is_Some (classified evaluations c))) cases)).
Proof.
  unfold countIn. induction cases as [|c cases IH]; [reflexivity|].
  rewrite !length_filter_cons, <- IH.
  assert (Z.b2z (inCell evaluations cutoff CellTP c) + Z.b2z (inCell evaluations cutoff CellFP c)
          + Z.b2z (inCell evaluations cutoff CellTN c) + Z.b2z (inCell evaluations cutoff CellFN c)
          = Z.b2z (bool_decide (is_Some (classified evaluations c)))); [|lia].
  unfold inCell, cellOf. destruct (classified evaluations c) as [score|].
  - rewrite (bool_decide_eq_true_2 (is_Some (Some score))) by eauto.
    destruct (cutoff <=? score), (isCVMIPositive c);
      repeat case_bool_decide; try congruence; reflexivity.
  - rewrite (bool_decide_eq_false_2 (is_Some None)) by (intros [? ?]; discriminate).
    repeat case_bool_decide; try congruence; reflexivity.
Qed.

Lemma countIn_nonneg evaluations cutoff cell cases : 0 <= countIn evaluations cutoff cell cases.
Proof. unfold countIn. lia. Qed.

Lemma countIn_le_length evaluations cutoff cell cases :
  countIn evaluations cutoff cell cases <= Z.of_nat (length cases).
Proof. unfold countIn. pose proof (filter_length_le (inCell evaluations cutoff cell) cases). lia. Qed.

(** With scores that are never negative, a case is classified exactly when it
    has an evaluation with a final score above 0. *)
Lemma classified_hasFinal evaluations c :
  (forall k e, evaluations !! k = Some e -> 0 <= viradsFinal e) ->
  bool_decide (is_Some (classified evaluations c)) = hasFinal evaluations (caseNumber c).
Proof.
  intros Hnn. unfold classified, hasFinal.
  destruct (evaluations !! caseNumber c) as [e|] eqn:He.
  - specialize (Hnn _ _ He).
    destruct (Z.eqb_spec (viradsFinal e) 0) as [Hz|Hnz].
    + rewrite Hz. apply bool_decide_eq_false_2. intros [? ?]; discriminate.
    + rewrite bool_decide_eq_true_2 by eauto. symmetry. apply Z.ltb_lt. lia.
  - apply bool_decide_eq_false_2. intros [? ?]; discriminate.
Qed.

(** C1. The end-to-end scenario: four cases T1, T3, T2, Ta and one reader with
    final scores 2, 4, 5, 1 give, at cutoff 3, the matrix tp 2, fp 0, tn 2,
    fn 0, and [calculateMetrics] gives sensitivity 1 and specificity 1 from it
    (whatever the other fields of the evaluations and the prevalence). *)
Theorem scenario_matrix_and_metrics (e1 e2 e3 e4 : Evaluation) (prevalence : float) :
  let cases := [parsedCase 1 T1; parsedCase 2 T3; parsedCase 3 T2; parsedCase 4 Ta] in
  let evaluations : gmap Z Evaluation :=
    {[ 1 := withFinal 2 e1; 2 := withFinal 4 e2; 3 := withFinal 5 e3; 4 := withFinal 1 e4 ]} in
  let matrix := getMatrixForEvaluations evaluations cases 3 in
  map isCVMIPositive cases = [false; true; true; false] /\
  matrix = {| tp := 2; fp := 0; tn := 2; fn := 0 |} /\
  sensitivity (calculateMetrics matrix prevalence) = 1%float /\
  specificity (calculateMetrics matrix prevalence) = 1%float.
Proof.
  intros cases evaluations matrix.
  assert (Hm : matrix = {| tp := 2; fp := 0; tn := 2; fn := 0 |}) by (vm_compute; reflexivity).
  split; [reflexivity|]. split; [exact Hm|]. rewrite Hm. split; vm_compute; reflexivity.
Qed.

Lemma inCell_spec evaluations cutoff c tpos cpos :
  (forall k e, evaluations !! k = Some e -> 0 <= viradsFinal e) ->
  inCell evaluations cutoff (cellFor tpos cpos) c =
  hasFinal evaluations (caseNumber c)
  && bool_decide ((cutoff <=? finalScore evaluations c) = tpos /\ isCVMIPositive c = cpos).
Proof.
  intros Hnn. unfold inCell, cellOf, classified, hasFinal, finalScore.
  destruct (evaluations !! caseNumber c) as [e|] eqn:He; simpl.
  - specialize (Hnn _ _ He). destruct (Z.eqb_spec (viradsFinal e) 0) as [Hz|Hnz].
    + rewrite Hz. cbn. apply bool_decide_eq_false_2. discriminate.
    + replace (0 <? viradsFinal e) with true by (symmetry; apply Z.ltb_lt; lia).
      cbn [andb]. apply bool_decide_ext.
      destruct (cutoff <=? viradsFinal e), (isCVMIPositive c), tpos, cpos;
        cbn [cellFor];
        (split; [intros H; try congruence; split; reflexivity
                |intros [H1 H2]; try congruence; reflexivity]).
  - reflexivity.
Qed.

Lemma filter_filter_andb {A : Type} (f g : A -> bool) (l : list A) :
  List.filter g (List.filter f l) = List.filter (fun x => f x && g x) l.
Proof.
  induction l as [|x l IH]; [reflexivity|]. cbn [List.filter].
  destruct (f x); cbn [List.filter andb]; [destruct (g x)|]; rewrite IH; reflexivity.
Qed.

(** C2. The counts of [getMatrixForEvaluations] are non-negative integers; each
    case of the list that has an evaluation with a final score above 0 is in
    exactly one cell, chosen by its score against the cutoff and its ground
    truth, and no other case is counted, so the four counts add up to the
    number of those cases.  Scores are never negative (0 is the sentinel). *)
Theorem getMatrix_partitions_evaluated_cases
    (evaluations : gmap Z Evaluation) (cases : list CaseData) (cutoff : Z) :
  (forall k e, evaluations !! k = Some e -> 0 <= viradsFinal e) ->
  let m := getMatrixForEvaluations evaluations cases cutoff in
  let included := List.filter (fun c => hasFinal evaluations (caseNumber c)) cases in
  let count (testPositive conditionPositive : bool) :=
    Z.of_nat (length (List.filter
      (fun c => bool_decide ((cutoff <=? finalScore evaluations c) = testPositive
                             /\ isCVMIPositive c = conditionPositive)) included)) in
  (0 <= tp m /\ 0 <= fp m /\ 0 <= tn m /\ 0 <= fn m) /\
  tp m + fp m + tn m + fn m = Z.of_nat (length included) /\
  tp m = count true true /\ fp m = count true false /\
  tn m = count false false /\ fn m = count false true.
Proof.
  intros Hnn m included count.
  destruct (getMatrix_cells evaluations cases cutoff) as (Htp & Hfp & Htn & Hfn).
  fold m in Htp, Hfp, Htn, Hfn.
  assert (Hcount : forall tpos cpos,
            countIn evaluations cutoff (cellFor tpos cpos) cases = count tpos cpos).
  { intros tpos cpos. unfold countIn, count, included. rewrite filter_filter_andb.
    f_equal. f_equal. apply List.filter_ext. intros c. apply inCell_spec, Hnn. }
  split; [rewrite Htp, Hfp, Htn, Hfn; repeat split; apply countIn_nonneg|].
  split.
  - rewrite Htp, Hfp, Htn, Hfn, count_cells. unfold included. f_equal. f_equal.
    apply List.filter_ext. intros c. apply classified_hasFinal, Hnn.
  - rewrite Htp, Hfp, Htn, Hfn. repeat split.
    + apply (Hcount true true).
    + apply (Hcount true false).
    + apply (Hcount false false).
    + apply (Hcount false true).
Qed.

(** * The t-tests *)

Section TTests.
Context {M : JSMath}.

(** C7. [tTestIndependent] returns no result exactly when one of the samples
    has fewer than 2 observations, and [tTestPaired] exactly when the samples
    differ in length or have fewer than 2 pairs; otherwise each returns a
    result with its statistic, degrees of freedom and p-value. *)
Theorem tTests_no_result_iff (sample1 sample2 : list float) :
  (tTestIndependent sample1 sample2 = None <->
     (length sample1 < 2)%nat \/ (length sample2 < 2)%nat) /\
  (tTestPaired sample1 sample2 = None <->
     length sample1 <> length sample2 \/ (length sample1 < 2)%nat) /\
  (tTestIndependent sample1 sample2 = None \/
     exists t df p, tTestIndependent sample1 sample2
                    = Some {| TTestResult.t := t; TTestResult.df := df; TTestResult.p := p |}) /\
  (tTestPaired sample1 sample2 = None \/
     exists t df p, tTestPaired sample1 sample2
                    = Some {| TTestResult.t := t; TTestResult.df := df; TTestResult.p := p |}).
Proof.
  unfold tTestIndependent, tTestPaired.
  destruct (Z.ltb_spec (Z.of_nat (length sample1)) 2) as [H1|H1],
           (Z.ltb_spec (Z.of_nat (length sample2)) 2) as [H2|H2],
           (Z.eqb_spec (Z.of_nat (length sample1)) (Z.of_nat (length sample2))) as [He|He];
    cbn [orb negb];
    repeat match goal with
           | |- context [if ?b then Some _ else Some _] => destruct b
           end;
    repeat split; intros; try discriminate; try lia; eauto 10;
    try (left; lia); try (right; lia);
    try (match goal with H : _ \/ _ |- _ => destruct H; lia end).
Qed.

End TTests.

Lemma positive_finite_form y :
  finite y = true -> (0 < B2R y)%R -> exists m e, Prim2SF y = S754_finite false m e.
Proof.
  unfold finite, B2R. destruct (Prim2SF y) as [s|s| |s m e]; try discriminate; cbn [SF2R].
  - intros _ H. lra.
  - intros _ H. destruct s; [|eauto]. exfalso. cbn [cond_Zopp] in H.
    assert (F2R (- Z.pos m) e < 0)%R by (apply F2R_neg; lia). lra.
Qed.

Lemma zero_div_positive y : finite y = true -> (0 < B2R y)%R -> (0 / y)%float = 0%float.
Proof.
  intros Fy Hy. destruct (positive_finite_form y Fy Hy) as (m & e & Hf).
  apply Prim2SF_inj. rewrite FloatAxioms.div_spec, Hf. reflexivity.
Qed.

Lemma zero_div_count n : 0 < n < 2 ^ 53 -> (0 / Z2num n)%float = 0%float.
Proof.
  intros Hn. apply zero_div_positive.
  - apply finite_Z2num. lia.
  - rewrite B2R_Z2num by lia. apply IZR_lt. lia.
Qed.



Section PairedTTest.
Context {M : JSMath}.




End PairedTTest.

(** * Sensitivity, specificity and the predictive values *)

Lemma ltb_zero_pos x : finite x = true -> (0 < B2R x)%R -> (0 <? x)%float = true.
Proof. intros Fx Hx. apply ltb_B2R; auto. Qed.

Lemma one_minus_unit p :
  finite p = true -> (/ IZR (2 ^ 53) <= B2R p <= 1 - / IZR (2 ^ 53))%R ->
  finite (1 - p) = true /\ (/ IZR (2 ^ 53) <= B2R (1 - p) <= 1 - / IZR (2 ^ 53))%R.
Proof.
  intros Fp Hp. assert (H53 : (0 < IZR (2 ^ 53))%R) by (apply IZR_lt; lia).
  apply (faithful_Prim_bounds _ (B2R 1 - B2R p)).
  - apply sub_faithful; auto.
  - replace (/ IZR (2 ^ 53))%R with (IZR 1 / IZR (2 ^ 53))%R by (unfold Rdiv; lra).
    apply format_grid. cbn. lia.
  - replace (1 - / IZR (2 ^ 53))%R with (IZR (2 ^ 53 - 1) / IZR (2 ^ 53))%R.
    + apply format_grid. cbn. lia.
    + rewrite minus_IZR. field. lra.
  - rewrite B2R_one. lra.
Qed.

Lemma bayes_perfect p q :
  finite p = true -> (0 < B2R p)%R -> finite q = true ->
  (if (0 <? 1 * p + (1 - 1) * q)%float then (1 * p / (1 * p + (1 - 1) * q))%float else 0%float)
  = 1%float.
Proof.
  intros Fp Hp Fq. rewrite mul_one_l by assumption.
  change (1 - 1)%float with 0%float.
  destruct (mul_zero_l q Fq) as [Fz Hz].
  rewrite add_zero_r by (auto; lra).
  rewrite ltb_zero_pos by assumption. apply div_diag; auto. lra.
Qed.

(** C9. A matrix with fn = 0 and fp = 0 (sensitivity 1 and specificity 1) and
    [calculateMetrics] called with the matrix's own prevalence
    (tp+fn)/(tp+fp+tn+fn): the positive and the negative predictive value are
    both 1. *)
Theorem perfect_matrix_predictive_values (matrix : ConfusionMatrixData) :
  fn matrix = 0 -> fp matrix = 0 -> 0 < tp matrix -> 0 < tn matrix ->
  tp matrix + tn matrix < 2 ^ 53 ->
  let prevalence :=
    (Z2num (tp matrix + fn matrix)
     / Z2num (tp matrix + fp matrix + tn matrix + fn matrix))%float in
  let metrics := calculateMetrics matrix prevalence in
  sensitivity metrics = 1%float /\ specificity metrics = 1%float /\
  ppv metrics = 1%float /\ npv metrics = 1%float.
Proof.
  destruct matrix as [a b c d]. cbn [tp fp tn fn]. intros -> -> Ha Hc Hsum.
  cbn zeta. unfold calculateMetrics. cbn [tp fp tn fn sensitivity specificity ppv npv].
  replace (a + 0 + c + 0) with (a + c) by lia.
  replace (a + 0) with a by lia. replace (c + 0) with c by lia.
  replace (0 <? a) with true by (symmetry; apply Z.ltb_lt; lia).
  replace (0 <? c) with true by (symmetry; apply Z.ltb_lt; lia).
  assert (H1 : (Z2num a / Z2num a)%float = 1%float).
  { apply div_diag; [apply finite_Z2num; lia|]. rewrite B2R_Z2num by lia. apply not_0_IZR. lia. }
  assert (H2 : (Z2num c / Z2num c)%float = 1%float).
  { apply div_diag; [apply finite_Z2num; lia|]. rewrite B2R_Z2num by lia. apply not_0_IZR. lia. }
  rewrite H1, H2.
  destruct (count_ratio_strict a (a + c) ltac:(lia) Hsum) as [Fp Hp].
  destruct (one_minus_unit _ Fp Hp) as [Fq Hq].
  assert (H53 : (0 < / IZR (2 ^ 53))%R) by (apply Rinv_0_lt_compat, IZR_lt; lia).
  split; [reflexivity|]. split; [reflexivity|]. split.
  - apply bayes_perfect; [exact Fp|lra|exact Fq].
  - apply bayes_perfect; [exact Fq|lra|exact Fp].
Qed.

(** * The area under the ROC curve *)

Lemma includes_evaluated (evaluations : gmap Z Evaluation) (k : Z) :
  includes (List.filter (hasFinal evaluations) (Object_keys evaluations)) k
  = hasFinal evaluations k.
Proof.
  unfold includes. destruct (hasFinal evaluations k) eqn:Hk.
  - apply bool_decide_eq_true_2, list_elem_of_In, filter_In. split; [|exact Hk].
    apply list_elem_of_In. apply (bool_decide_eq_true_1 _), includes_Object_keys.
    unfold hasFinal in Hk. destruct (evaluations !! k); [eauto|discriminate].
  - apply bool_decide_eq_false_2. intros Hin. apply list_elem_of_In, filter_In in Hin.
    destruct Hin as [_ Hin]. congruence.
Qed.

Lemma relevantCases_eq evaluations cases :
  List.filter (fun c => includes (List.filter (hasFinal evaluations) (Object_keys evaluations))
                                 (caseNumber c)) cases
  = relevantCasesOf evaluations cases.
Proof. apply List.filter_ext. intros c. apply includes_evaluated. Qed.

Lemma relevant_classified evaluations cases c :
  In c (relevantCasesOf evaluations cases) ->
  exists e, evaluations !! caseNumber c = Some e /\ 0 < viradsFinal e /\
            classified evaluations c = Some (viradsFinal e) /\ In c cases.
Proof.
  intros Hin. apply filter_In in Hin as [Hc Hf]. unfold hasFinal in Hf. unfold classified.
  destruct (evaluations !! caseNumber c) as [e|]; [|discriminate].
  apply Z.ltb_lt in Hf. exists e. repeat split; auto.
  destruct (Z.eqb_spec (viradsFinal e) 0); [lia|reflexivity].
Qed.

Lemma length_filter_false {A : Type} (f : A -> bool) (l : list A) :
  (forall x, In x l -> f x = false) -> length (List.filter f l) = 0%nat.
Proof.
  intros H. rewrite (List.filter_ext_in f (fun _ => false) l H).
  clear H. induction l as [|x l IH]; [reflexivity|exact IH].
Qed.

(** With every positive case scored 5 and every negative case scored 1, each
    cutoff from 2 to 5 separates them. *)
Lemma perfect_separation_matrix evaluations cases cutoff :
  (forall c e, In c cases -> evaluations !! caseNumber c = Some e -> 0 < viradsFinal e ->
               viradsFinal e = if isCVMIPositive c then 5 else 1) ->
  2 <= cutoff <= 5 ->
  let relevant := relevantCasesOf evaluations cases in
  let positives := Z.of_nat (length (List.filter isCVMIPositive relevant)) in
  getMatrixForEvaluations evaluations relevant cutoff
  = {| tp := positives; fp := 0; tn := Z.of_nat (length relevant) - positives; fn := 0 |}.
Proof.
  intros Hsep Hcut relevant positives.
  destruct (getMatrix_cells evaluations relevant cutoff) as (Htp & Hfp & Htn & Hfn).
  assert (Hcell : forall c, In c relevant ->
            cellOf evaluations cutoff c = Some (if isCVMIPositive c then CellTP else CellTN)).
  { intros c Hin. destruct (relevant_classified _ _ _ Hin) as (e & He & Hpos & Hcl & Hc).
    unfold cellOf. rewrite Hcl. rewrite (Hsep c e Hc He Hpos).
    destruct (isCVMIPositive c).
    - replace (cutoff <=? 5) with true by (symmetry; apply Z.leb_le; lia). reflexivity.
    - replace (cutoff <=? 1) with false by (symmetry; apply Z.leb_gt; lia). reflexivity. }
  destruct (getMatrixForEvaluations evaluations relevant cutoff) as [a b c d].
  cbn [tp fp tn fn] in *. unfold countIn in *.
  rewrite (List.filter_ext_in (inCell evaluations cutoff CellTP) isCVMIPositive relevant) in Htp.
  2:{ intros x Hx. unfold inCell. rewrite (Hcell x Hx).
      destruct (isCVMIPositive x); case_bool_decide; congruence. }
  rewrite (List.filter_ext_in (inCell evaluations cutoff CellTN)
             (fun x => negb (isCVMIPositive x)) relevant) in Htn.
  2:{ intros x Hx. unfold inCell. rewrite (Hcell x Hx).
      destruct (isCVMIPositive x); case_bool_decide; cbn; congruence. }
  rewrite length_filter_false in Hfp.
  2:{ intros x Hx. unfold inCell. rewrite (Hcell x Hx).
      destruct (isCVMIPositive x); case_bool_decide; congruence. }
  rewrite length_filter_false in Hfn.
  2:{ intros x Hx. unfold inCell. rewrite (Hcell x Hx).
      destruct (isCVMIPositive x); case_bool_decide; congruence. }
  pose proof (List.filter_length isCVMIPositive relevant) as Hlen.
  f_equal; unfold positives; lia.
Qed.

Lemma rocPoint_perfect evaluations relevant cutoff positives negatives :
  getMatrixForEvaluations evaluations relevant cutoff
  = {| tp := positives; fp := 0; tn := negatives; fn := 0 |} ->
  0 < positives < 2 ^ 53 -> 0 < negatives < 2 ^ 53 ->
  rocPointAt evaluations relevant cutoff = {| fpr := 0; tpr := 1 |}.
Proof.
  intros Hm Hp Hn. unfold rocPointAt. rewrite Hm. cbn [tp fp tn fn].
  replace (positives + 0 =? 0) with false by (symmetry; apply Z.eqb_neq; lia).
  replace (negatives + 0 =? 0) with false by (symmetry; apply Z.eqb_neq; lia).
  rewrite !Z.add_0_r.
  rewrite !div_diag; try (apply finite_Z2num; lia);
    try (rewrite B2R_Z2num by lia; apply not_0_IZR; lia).
  reflexivity.
Qed.

(** C5. When every evaluated positive case has the final score 5 and every
    evaluated negative case the final score 1, and there is at least one of
    each, [calculateAUC] returns exactly 1. *)
Theorem calculateAUC_perfect_separation
    (evaluations : gmap Z Evaluation) (cases : list CaseData) :
  Z.of_nat (length cases) < 2 ^ 53 ->
  (forall c e, In c cases -> evaluations !! caseNumber c = Some e -> 0 < viradsFinal e ->
               viradsFinal e = if isCVMIPositive c then 5 else 1) ->
  (exists c, In c cases /\ hasFinal evaluations (caseNumber c) = true
             /\ isCVMIPositive c = true) ->
  (exists c, In c cases /\ hasFinal evaluations (caseNumber c) = true
             /\ isCVMIPositive c = false) ->
  calculateAUC evaluations cases = 1%float.
Proof.
  intros Hsize Hsep (cp & Hcp & Hfp & Hpp) (cn & Hcn & Hfn & Hpn).
  unfold calculateAUC. rewrite relevantCases_eq.
  set (relevant := relevantCasesOf evaluations cases).
  set (positives := Z.of_nat (length (List.filter isCVMIPositive relevant))).
  assert (Hrel : Z.of_nat (length relevant) <= Z.of_nat (length cases)).
  { unfold relevant, relevantCasesOf. pose proof (filter_length_le (fun c => hasFinal evaluations (caseNumber c)) cases). lia. }
  pose proof (List.filter_length isCVMIPositive relevant) as Hlen.
  assert (Hpos : 0 < positives).
  { unfold positives.
    assert (In cp (List.filter isCVMIPositive relevant)).
    { apply filter_In. split; [|exact Hpp]. apply filter_In. auto. }
    destruct (List.filter isCVMIPositive relevant); [contradiction|cbn [length]; lia]. }
  assert (Hneg : 0 < Z.of_nat (length relevant) - positives).
  { assert (In cn (List.filter (fun x => negb (isCVMIPositive x)) relevant)).
    { apply filter_In. split; [apply filter_In; auto|]. rewrite Hpn. reflexivity. }
    destruct (List.filter (fun x => negb (isCVMIPositive x)) relevant);
      [contradiction|]. cbn [length] in Hlen. unfold positives. lia. }
  replace (Z.of_nat (length relevant) =? 0) with false by (symmetry; apply Z.eqb_neq; lia).
  replace (positives =? 0) with false by (symmetry; apply Z.eqb_neq; lia).
  replace (Z.of_nat (length relevant) - positives =? 0) with false
    by (symmetry; apply Z.eqb_neq; lia).
  cbn [orb map].
  rewrite !(rocPoint_perfect evaluations relevant _ positives
              (Z.of_nat (length relevant) - positives));
    try (apply perfect_separation_matrix; [exact Hsep|lia]); try lia.
  reflexivity.
Qed.

(** * The z-test for two proportions *)

(** The square root of a positive number is positive (or infinite). *)
Lemma SFsqrt_positive m e :
  bounded prec emax m e = true ->
  (exists m' e', SFsqrt prec emax (S754_finite false m e) = S754_finite false m' e')
  \/ SFsqrt prec emax (S754_finite false m e) = S754_infinity false.
Proof.
  intros Hb. apply bounded_spec in Hb. destruct Hb as (Hm & He & _).
  unfold SFsqrt, SFsqrt_core_binary.
  pose proof (Zdigits2_spec (Z.pos m) ltac:(lia)) as [Hd1 _].
  pose proof (Zdigits2_pos (Z.pos m) ltac:(lia)) as Hdpos.
  set (d := Zdigits2 (Z.pos m)) in *.
  rewrite !Z.div2_div.
  set (k := (d + e + 1) / 2).
  assert (Hk : 2 * k <= d + e + 1 /\ -536 <= k).
  { unfold k. pose proof (Z.div_mod (d + e + 1) 2 ltac:(lia)).
    pose proof (Z.mod_pos_bound (d + e + 1) 2 ltac:(lia)). lia. }
  assert (He2 : 2 * (e / 2) <= e /\ -537 <= e / 2).
  { pose proof (Z.div_mod e 2 ltac:(lia)). pose proof (Z.mod_pos_bound e 2 ltac:(lia)). lia. }
  set (e' := Z.min (fexp64 k) (e / 2)).
  assert (He' : -590 <= e' /\ 2 * e' <= e /\ 2 * e' <= d + e - 105).
  { unfold e'. rewrite fexp64_eq. lia. }
  set (s := e - 2 * e').
  assert (Hs : 0 <= s /\ 105 - d <= s) by (unfold s; lia).
  set (m' := match s with Z.pos _ => Z.shiftl (Z.pos m) s | 0 => Z.pos m | Z.neg _ => 0 end).
  assert (Hm' : m' = Z.pos m * 2 ^ s).
  { unfold m'. destruct s as [|p|p] eqn:Es; [lia| |lia]. apply Z.shiftl_mul_pow2. lia. }
  assert (Hbig : 2 ^ 104 <= m').
  { rewrite Hm'. assert (2 ^ (d - 1) * 2 ^ s <= Z.pos m * 2 ^ s).
    { apply Z.mul_le_mono_nonneg_r; [apply Z.pow_nonneg; lia|exact Hd1]. }
    rewrite <- Z.pow_add_r in H by lia.
    assert (2 ^ 104 <= 2 ^ (d - 1 + s)) by (apply Z.pow_le_mono_r; lia). lia. }
  pose proof (Z.sqrtrem_spec m' ltac:(lia)) as Hsq.
  destruct (Z.sqrtrem m') as [q r]. destruct Hsq as [Hq Hr].
  assert (Hq52 : 2 ^ 52 <= q).
  { destruct (Z_lt_le_dec q (2 ^ 52)) as [Hlt|]; [exfalso|assumption].
    assert (0 <= q) by lia.
    assert ((q + 1) * (q + 1) <= 2 ^ 52 * 2 ^ 52) by (apply Z.mul_le_mono_nonneg; lia).
    change (2 ^ 52 * 2 ^ 52) with (2 ^ 104) in *. nia. }
  set (l := if r =? 0 then loc_Exact else loc_Inexact (if r <=? q then Lt else Gt)).
  assert (Hdq : 53 <= Zdigits2 q).
  { pose proof (Zdigits2_spec q ltac:(lia)) as [_ Hdq].
    destruct (Z_lt_le_dec (Zdigits2 q) 53); [|lia].
    assert (2 ^ Zdigits2 q <= 2 ^ 52) by (apply Z.pow_le_mono_r; lia). lia. }
  destruct (binary_round_aux_trunc false q e' l ltac:(lia) ltac:(rewrite fexp64_eq; lia))
    as (He1 & Hm1 & Hnorm & m2 & Hm2 & _ & Hres).
  rewrite Hres. unfold finish.
  assert (2 ^ 52 <= m2).
  { destruct Hnorm as [Hn|Hn]; [|lia]. rewrite fexp64_eq in Hn. lia. }
  destruct (m2 =? 2 ^ 53).
  - destruct (_ <=? 971); [left; eauto|right; reflexivity].
  - destruct m2 as [|p|p]; try lia. destruct (_ <=? 971); [left; eauto|right; reflexivity].
Qed.

Lemma sqrt_positive x :
  finite x = true -> (0 < B2R x)%R ->
  (exists m e, Prim2SF (sqrt x) = S754_finite false m e)
  \/ Prim2SF (sqrt x) = S754_infinity false.
Proof.
  intros Fx Hx. destruct (positive_finite_form x Fx Hx) as (m & e & Hf).
  rewrite FloatAxioms.sqrt_spec, Hf. apply SFsqrt_positive.
  pose proof (Prim2SF_valid x) as Hv. rewrite Hf in Hv. exact Hv.
Qed.

Lemma zero_div_positive_or_infinite y :
  (exists m e, Prim2SF y = S754_finite false m e) \/ Prim2SF y = S754_infinity false ->
  (y =? 0)%float = false /\ (0 / y)%float = 0%float.
Proof.
  intros Hy. split.
  - rewrite FloatAxioms.eqb_spec. destruct Hy as [(m & e & ->)| ->]; reflexivity.
  - apply Prim2SF_inj. rewrite FloatAxioms.div_spec.
    destruct Hy as [(m & e & ->)| ->]; reflexivity.
Qed.

Lemma format_bpow e : -1074 <= e <= 971 -> format (bpow e).
Proof.
  intros He. exists 1, e. split; [cbn; lia|]. split; [lia|]. unfold F2R. lra.
Qed.

Lemma bpow_m53 : bpow (-53) = (/ IZR (2 ^ 53))%R.
Proof. change (-53) with (- (53)). rewrite bpow_opp, bpow_Z by lia. reflexivity. Qed.

Lemma bpow_0 : bpow 0 = 1%R.
Proof. reflexivity. Qed.

Lemma bpow_1 : bpow 1 = 2%R.
Proof. unfold bpow. simpl. lra. Qed.

Lemma mul_within x y a b c d :
  within x (bpow a) (bpow c) -> within y (bpow b) (bpow d) ->
  -1074 <= a + b -> c + d <= 971 ->
  within (x * y) (bpow (a + b)) (bpow (c + d)).
Proof.
  intros [Fx Hx] [Fy Hy] Hlo Hhi.
  pose proof (bpow_pos a). pose proof (bpow_pos b).
  assert (a <= c).
  { destruct (Z_le_gt_dec a c); [assumption|]. pose proof (bpow_lt c a ltac:(lia)). lra. }
  assert (b <= d).
  { destruct (Z_le_gt_dec b d); [assumption|]. pose proof (bpow_lt d b ltac:(lia)). lra. }
  apply (faithful_Prim_bounds _ (B2R x * B2R y)).
  - apply mul_faithful; assumption.
  - apply format_bpow. lia.
  - apply format_bpow. lia.
  - rewrite !bpow_add. split; apply Rmult_le_compat; lra.
Qed.

Lemma add_within x y a b c :
  within x (bpow a) (bpow c) -> within y (bpow b) (bpow c) ->
  -1074 <= a -> c + 1 <= 971 ->
  within (x + y) (bpow a) (bpow (c + 1)).
Proof.
  intros [Fx Hx] [Fy Hy] Hlo Hhi.
  pose proof (bpow_pos a). pose proof (bpow_pos b).
  assert (a <= c).
  { destruct (Z_le_gt_dec a c); [assumption|]. pose proof (bpow_lt c a ltac:(lia)). lra. }
  apply (faithful_Prim_bounds _ (B2R x + B2R y)).
  - apply add_faithful; assumption.
  - apply format_bpow. lia.
  - apply format_bpow. lia.
  - rewrite bpow_add, bpow_1. lra.
Qed.

Lemma reciprocal_count n :
  0 < n < 2 ^ 53 -> within (1 / Z2num n) (bpow (-53)) (bpow 0).
Proof.
  intros Hn.
  assert (Hr : (1 / Z2num n)%float = (Z2num 1 / Z2num n)%float) by reflexivity.
  rewrite Hr, bpow_m53, bpow_0.
  destruct (Z.eq_dec n 1) as [->|Hne].
  - change (Z2num 1 / Z2num 1)%float with 1%float. split; [reflexivity|].
    rewrite B2R_one. assert (0 < / IZR (2 ^ 53))%R by (apply Rinv_0_lt_compat, IZR_lt; lia).
    assert (/ IZR (2 ^ 53) < / 1)%R.
    { apply Rinv_lt_contravar; [|apply (IZR_lt 1); lia]. rewrite Rmult_1_l. apply IZR_lt. lia. }
    rewrite Rinv_1 in *. lra.
  - destruct (count_ratio_strict 1 n ltac:(lia) ltac:(lia)) as [F H].
    split; [exact F|]. assert (0 < / IZR (2 ^ 53))%R by (apply Rinv_0_lt_compat, IZR_lt; lia). lra.
Qed.

Lemma Z2num_add a b :
  0 <= a -> 0 <= b -> a + b < 2 ^ 53 -> (Z2num a + Z2num b)%float = Z2num (a + b).
Proof.
  intros Ha Hb Hab.
  destruct (Z.eq_dec (a + b) 0) as [Hz|Hnz].
  - replace a with 0 by lia. replace b with 0 by lia. reflexivity.
  - pose proof (finite_Z2num a ltac:(lia)) as Fa. pose proof (finite_Z2num b ltac:(lia)) as Fb.
    destruct (faithful_Prim_exact (Z2num a + Z2num b) _ (add_faithful _ _ Fa Fb)) as [Ff Hv].
    + rewrite !B2R_Z2num by lia. rewrite <- plus_IZR. apply format_IZR. lia.
    + rewrite !B2R_Z2num in Hv by lia. rewrite <- plus_IZR in Hv.
      apply B2R_inj; auto.
      * apply finite_Z2num. lia.
      * rewrite Hv, B2R_Z2num by lia. reflexivity.
      * rewrite Hv. apply not_0_IZR. exact Hnz.
Qed.

Lemma eqb_false_of_value x y :
  finite x = true -> finite y = true -> B2R x <> B2R y -> (x =? y)%float = false.
Proof.
  intros Fx Fy Hne. destruct (x =? y)%float eqn:E; [|reflexivity].
  apply eqb_B2R in E; auto. contradiction.
Qed.

Section ZTest.
Context {M : JSMath}.

Lemma calculatePValue_zero :
  Math_exp (-0)%float = 1%float -> calculatePValue 0 = pValueAtZero.
Proof.
  intros Hexp. unfold calculatePValue, standardNormalCdf.
  change (- (abs (abs 0) / sqrt 2) * (abs (abs 0) / sqrt 2))%float with (-0)%float.
  rewrite Hexp. reflexivity.
Qed.

Lemma pooled_proportion s1 t1 s2 t2 :
  0 <= s1 -> 0 <= s2 -> 0 < s1 + s2 < t1 + t2 -> 0 < t1 -> 0 < t2 -> t1 + t2 < 2 ^ 53 ->
  within (zTest_pPooled (Z2num s1) (Z2num t1) (Z2num s2) (Z2num t2))
         (bpow (-53)) (1 - bpow (-53)).
Proof.
  intros H1 H2 Hs Ht1 Ht2 Ht. unfold zTest_pPooled.
  rewrite !Z2num_add by lia. rewrite bpow_m53.
  apply count_ratio_strict; lia.
Qed.

Lemma standard_error_positive s1 t1 s2 t2 :
  0 <= s1 -> 0 <= s2 -> 0 < s1 + s2 < t1 + t2 -> 0 < t1 -> 0 < t2 -> t1 + t2 < 2 ^ 53 ->
  let se := zTest_se (Z2num s1) (Z2num t1) (Z2num s2) (Z2num t2) in
  (exists m e, Prim2SF se = S754_finite false m e) \/ Prim2SF se = S754_infinity false.
Proof.
  intros H1 H2 Hs Ht1 Ht2 Ht. cbn zeta. unfold zTest_se.
  destruct (pooled_proportion s1 t1 s2 t2 H1 H2 Hs Ht1 Ht2 Ht) as [Fp Hp].
  set (p := zTest_pPooled (Z2num s1) (Z2num t1) (Z2num s2) (Z2num t2)) in *.
  rewrite bpow_m53 in Hp.
  destruct (one_minus_unit p Fp Hp) as [Fq Hq].
  assert (H53 : (0 < / IZR (2 ^ 53))%R) by (apply Rinv_0_lt_compat, IZR_lt; lia).
  assert (Wp : within p (bpow (-53)) (bpow 0)) by (split; [exact Fp|rewrite bpow_m53, bpow_0; lra]).
  assert (Wq : within (1 - p) (bpow (-53)) (bpow 0))
    by (split; [exact Fq|rewrite bpow_m53, bpow_0; lra]).
  pose proof (mul_within _ _ _ _ _ _ Wp Wq ltac:(lia) ltac:(lia)) as Wpq.
  pose proof (add_within _ _ _ _ _ (reciprocal_count t1 ltac:(lia)) (reciprocal_count t2 ltac:(lia))
                ltac:(lia) ltac:(lia)) as Wr.
  destruct (mul_within _ _ _ _ _ _ Wpq Wr ltac:(lia) ltac:(lia)) as [Fx Hx].
  apply sqrt_positive; [exact Fx|]. pose proof (bpow_pos (-53 + -53 + -53)). lra.
Qed.

End ZTest.

Lemma getMatrix_bounds evaluations cases cutoff :
  let m := getMatrixForEvaluations evaluations cases cutoff in
  0 <= tp m /\ 0 <= fp m /\ 0 <= tn m /\ 0 <= fn m /\
  tp m + fp m + tn m + fn m <= Z.of_nat (length cases).
Proof.
  cbn zeta. destruct (getMatrix_cells evaluations cases cutoff) as (Htp & Hfp & Htn & Hfn).
  rewrite Htp, Hfp, Htn, Hfn, count_cells.
  pose proof (filter_length_le (fun c => bool_decide (is_Some (classified evaluations c))) cases).
  repeat split; try apply countIn_nonneg. lia.
Qed.

(** The matrix depends on the evaluations only through the entries of the
    cases it is given. *)
Lemma getMatrix_ext evaluations1 evaluations2 cases cutoff :
  (forall c, In c cases -> evaluations1 !! caseNumber c = evaluations2 !! caseNumber c) ->
  getMatrixForEvaluations evaluations1 cases cutoff
  = getMatrixForEvaluations evaluations2 cases cutoff.
Proof.
  intros Hext.
  destruct (getMatrix_cells evaluations1 cases cutoff) as (A1 & A2 & A3 & A4).
  destruct (getMatrix_cells evaluations2 cases cutoff) as (B1 & B2 & B3 & B4).
  assert (Hc : forall cell, countIn evaluations1 cutoff cell cases
                            = countIn evaluations2 cutoff cell cases).
  { intros cell. unfold countIn. f_equal. f_equal. apply List.filter_ext_in.
    intros c Hc. unfold inCell, cellOf, classified. rewrite (Hext c Hc). reflexivity. }
  destruct (getMatrixForEvaluations evaluations1 cases cutoff),
           (getMatrixForEvaluations evaluations2 cases cutoff).
  cbn [tp fp tn fn] in *. rewrite A1, A2, A3, A4, B1, B2, B3, B4, !Hc. reflexivity.
Qed.

Lemma partialEvals_fold (userEvals acc : gmap Z Evaluation) (keys : list Z) (k : Z) :
  (forall j e, acc !! j = Some e -> userEvals !! j = Some e) ->
  (k ∈ keys \/ acc !! k = userEvals !! k) ->
  fold_left (fun partialEvals key =>
               match userEvals !! key with
               | Some e => <[key := e]> partialEvals
               | None => partialEvals
               end) keys acc !! k = userEvals !! k.
Proof.
  revert acc. induction keys as [|key keys IH]; intros acc Hsub Hk; cbn [fold_left].
  - destruct Hk as [Hk|Hk]; [inversion Hk|exact Hk].
  - apply IH.
    + intros j e. destruct (userEvals !! key) as [e'|] eqn:He; [|apply Hsub].
      destruct (decide (key = j)) as [<-|Hne].
      * rewrite lookup_insert_eq. congruence.
      * rewrite lookup_insert_ne by exact Hne. apply Hsub.
    + destruct (decide (key = k)) as [->|Hne].
      * right. destruct (userEvals !! k) as [e'|] eqn:He.
        -- apply lookup_insert_eq.
        -- destruct (acc !! k) as [e|] eqn:Ha; [|reflexivity].
           apply Hsub in Ha. congruence.
      * destruct Hk as [Hk|Hk].
        -- left. apply elem_of_cons in Hk as [?|?]; [congruence|assumption].
        -- right. destruct (userEvals !! key); [rewrite lookup_insert_ne by exact Hne|]; exact Hk.
Qed.

Lemma partialEvals_lookup (userEvals : gmap Z Evaluation) (keys : list Z) (k : Z) :
  k ∈ keys -> partialEvalsOf userEvals keys !! k = userEvals !! k.
Proof.
  intros Hk. unfold partialEvalsOf. apply partialEvals_fold; [|left; exact Hk].
  intros j e H. rewrite lookup_empty in H. discriminate.
Qed.

Section EqualProportions.
Context {M : JSMath}.

Lemma zTest_equal_proportions s1 t1 s2 t2 :
  Math_exp (-0)%float = 1%float ->
  0 <= s1 <= t1 -> 0 <= s2 <= t2 -> 0 < t1 -> 0 < t2 -> t1 + t2 < 2 ^ 53 ->
  0 < s1 + s2 < t1 + t2 ->
  (Z2num s1 / Z2num t1)%float = (Z2num s2 / Z2num t2)%float ->
  zTest_z (Z2num s1) (Z2num t1) (Z2num s2) (Z2num t2) = 0%float /\
  zTestForProportions (Z2num s1) (Z2num t1) (Z2num s2) (Z2num t2) = pValueAtZero.
Proof.
  intros Hexp H1 H2 Ht1 Ht2 Ht Hs Heq.
  destruct (zero_div_positive_or_infinite _
              (standard_error_positive s1 t1 s2 t2 ltac:(lia) ltac:(lia) Hs Ht1 Ht2 Ht))
    as [Hse Hdiv].
  assert (Hz : zTest_z (Z2num s1) (Z2num t1) (Z2num s2) (Z2num t2) = 0%float).
  { unfold zTest_z. rewrite Heq, sub_diag; [exact Hdiv|].
    apply (count_ratio s2 t2); lia. }
  split; [exact Hz|].
  unfold zTestForProportions.
  rewrite (eqb_false_of_value (Z2num t1) 0), (eqb_false_of_value (Z2num t2) 0);
    try reflexivity; try (apply finite_Z2num; lia);
    try (rewrite B2R_Z2num by lia; apply not_0_IZR; lia).
  cbn [orb].
  destruct (pooled_proportion s1 t1 s2 t2 ltac:(lia) ltac:(lia) Hs Ht1 Ht2 Ht) as [Fp Hp].
  pose proof (bpow_pos (-53)) as Hpos.
  rewrite (eqb_false_of_value _ 0), (eqb_false_of_value _ 1);
    try reflexivity; try exact Fp;
    try (rewrite B2R_zero_float; lra); try (rewrite B2R_one; lra).
  cbn [orb]. rewrite Hse, Hz. apply calculatePValue_zero, Hexp.
Qed.

(** The test of a proportion against itself. *)
Lemma zTest_same a b :
  Math_exp (-0)%float = 1%float ->
  0 <= a <= b -> 2 * b < 2 ^ 53 ->
  zTestForProportions (Z2num a) (Z2num b) (Z2num a) (Z2num b)
  = if (b =? 0) || (a =? 0) || (a =? b) then 1%float else pValueAtZero.
Proof.
  intros Hexp Ha Hb.
  destruct (Z.eqb_spec b 0) as [->|Hb0].
  { cbn [orb]. replace a with 0 by lia. reflexivity. }
  cbn [orb]. 
  assert (Ht : zTestForProportions (Z2num a) (Z2num b) (Z2num a) (Z2num b)
               = (let pPooled := (Z2num (a + a) / Z2num (b + b))%float in
                  if (pPooled =? 0)%float || (pPooled =? 1)%float then 1%float
                  else if (zTest_se (Z2num a) (Z2num b) (Z2num a) (Z2num b) =? 0)%float
                       then 1%float
                       else calculatePValue (zTest_z (Z2num a) (Z2num b) (Z2num a) (Z2num b)))).
  { unfold zTestForProportions.
    rewrite (eqb_false_of_value (Z2num b) 0);
      try reflexivity; try (apply finite_Z2num; lia);
      try (rewrite B2R_Z2num by lia; apply not_0_IZR; lia).
    cbn [orb]. unfold zTest_pPooled. rewrite !Z2num_add by lia. reflexivity. }
  destruct (Z.eqb_spec a 0) as [->|Ha0].
  { rewrite Ht. cbn zeta. change (Z2num (0 + 0)) with 0%float.
    rewrite zero_div_count by lia. reflexivity. }
  destruct (Z.eqb_spec a b) as [->|Hab].
  { rewrite Ht. cbn zeta. rewrite div_diag.
    - reflexivity.
    - apply finite_Z2num. lia.
    - rewrite B2R_Z2num by lia. apply not_0_IZR. lia. }
  apply zTest_equal_proportions; auto; lia.
Qed.

End EqualProportions.

Section Aggregate.
Context {M : JSMath}.

Lemma readerResult_identical_subset (allEvaluations : gmap string (gmap Z Evaluation))
    (cases : list CaseData) (cutoff : Z) (prevalence : float) (comparisonPercentage : Z)
    (u : User) :
  Math_exp (-0)%float = 1%float ->
  2 * Z.of_nat (length cases) < 2 ^ 53 ->
  let userEvals := userEvalsOf allEvaluations u in
  let evaluatedKeys := evaluatedKeysOf userEvals in
  evaluatedKeys <> [] ->
  partialKeysOf evaluatedKeys comparisonPercentage = evaluatedKeys ->
  let r := readerResult allEvaluations cases cutoff prevalence comparisonPercentage u in
  let m := getMatrixForEvaluations userEvals
             (List.filter (fun c => includes evaluatedKeys (caseNumber c)) cases) cutoff in
  pValueSensitivity r
  = (if (tp m + fn m =? 0) || (tp m =? 0) || (tp m =? tp m + fn m)
     then 1%float else pValueAtZero) /\
  pValueSpecificity r
  = (if (tn m + fp m =? 0) || (tn m =? 0) || (tn m =? tn m + fp m)
     then 1%float else pValueAtZero).
Proof.
  intros Hexp Hsize userEvals evaluatedKeys Hne Hpart r m.
  set (evaluatedCases := List.filter (fun c => includes evaluatedKeys (caseNumber c)) cases) in *.
  assert (Hr : pValueSensitivity r
               = zTestForProportions (Z2num (tp m)) (Z2num (tp m + fn m))
                                     (Z2num (tp m)) (Z2num (tp m + fn m)) /\
               pValueSpecificity r
               = zTestForProportions (Z2num (tn m)) (Z2num (tn m + fp m))
                                     (Z2num (tn m)) (Z2num (tn m + fp m))).
  { unfold r, readerResult. fold userEvals. fold evaluatedKeys.
    destruct (Z.eqb_spec (Z.of_nat (length evaluatedKeys)) 0) as [Hz|_].
    { destruct evaluatedKeys; [congruence|cbn [length] in Hz; lia]. }
    cbn [pValueSensitivity pValueSpecificity]. rewrite Hpart. fold evaluatedCases.
    rewrite (getMatrix_ext (partialEvalsOf userEvals evaluatedKeys) userEvals evaluatedCases cutoff).
    - fold m. split; reflexivity.
    - intros c Hc. apply partialEvals_lookup.
      apply filter_In in Hc as [_ Hc]. apply (bool_decide_eq_true_1 _) in Hc. exact Hc. }
  destruct Hr as [-> ->].
  destruct (getMatrix_bounds userEvals evaluatedCases cutoff) as (B1 & B2 & B3 & B4 & B5).
  fold m in B1, B2, B3, B4, B5.
  assert (Z.of_nat (length evaluatedCases) <= Z.of_nat (length cases)).
  { unfold evaluatedCases.
    pose proof (filter_length_le (fun c => includes evaluatedKeys (caseNumber c)) cases). lia. }
  split; apply zTest_same; auto; lia.
Qed.

(** C3, as the code has it.  With equal proportions of counts, totals positive
    and a pooled proportion strictly between 0 and 1, the z statistic is 0
    and the p-value returned is [2 * (1 - standardNormalCdf 0)], the binary64
    number 0.99999999899999992, which is below 1: the approximation of the
    error function is not exact at 0.  [zTestForProportions 10 20 10 20] is
    that number.  When the partial subset of a reader is the full subset,
    [pValueSensitivity] and [pValueSpecificity] are that number too, and are
    exactly 1 only where a guard returns early (no case of the condition, or
    an observed proportion of 0 or 1). *)
Theorem zTest_equal_proportions_p_value :
  Math_exp (-0)%float = 1%float ->
  (forall s1 t1 s2 t2 : Z,
     0 <= s1 <= t1 -> 0 <= s2 <= t2 -> 0 < t1 -> 0 < t2 -> t1 + t2 < 2 ^ 53 ->
     0 < s1 + s2 < t1 + t2 ->
     (Z2num s1 / Z2num t1)%float = (Z2num s2 / Z2num t2)%float ->
     zTest_z (Z2num s1) (Z2num t1) (Z2num s2) (Z2num t2) = 0%float /\
     zTestForProportions (Z2num s1) (Z2num t1) (Z2num s2) (Z2num t2) = pValueAtZero) /\
  zTestForProportions 10 20 10 20 = pValueAtZero /\
  (pValueAtZero <? 1)%float = true /\
  (forall (allEvaluations : gmap string (gmap Z Evaluation)) (cases : list CaseData)
          (cutoff : Z) (prevalence : float) (comparisonPercentage : Z) (u : User),
     2 * Z.of_nat (length cases) < 2 ^ 53 ->
     let userEvals := userEvalsOf allEvaluations u in
     let evaluatedKeys := evaluatedKeysOf userEvals in
     evaluatedKeys <> [] ->
     partialKeysOf evaluatedKeys comparisonPercentage = evaluatedKeys ->
     let r := readerResult allEvaluations cases cutoff prevalence comparisonPercentage u in
     let m := getMatrixForEvaluations userEvals
                (List.filter (fun c => includes evaluatedKeys (caseNumber c)) cases) cutoff in
     pValueSensitivity r
     = (if (tp m + fn m =? 0) || (tp m =? 0) || (tp m =? tp m + fn m)
        then 1%float else pValueAtZero) /\
     pValueSpecificity r
     = (if (tn m + fp m =? 0) || (tn m =? 0) || (tn m =? tn m + fp m)
        then 1%float else pValueAtZero)).
Proof.
  intros Hexp. split; [|split; [|split]].
  - intros s1 t1 s2 t2. apply zTest_equal_proportions, Hexp.
  - apply (zTest_equal_proportions 10 20 10 20 Hexp); try lia. reflexivity.
  - reflexivity.
  - intros. apply readerResult_identical_subset; assumption.
Qed.

End Aggregate.

(** The two proportions 10/20 are equal and not degenerate, yet the p-value
    is not 1 on a platform whose [Math.exp] maps -0 to 1. *)
Lemma zTest_equal_proportions_not_one :
  ~ (forall M : JSMath,
       Math_exp (-0)%float = 1%float -> zTestForProportions 10 20 10 20 = 1%float).
Proof.
  intros H. specialize (H RefMath.math eq_refl).
  vm_compute in H. discriminate H.
Qed.

(** * The logarithm of the gamma function *)

Lemma one_minus_below_half x : (x <? 0.5)%float = true -> (1 - x <? 0.5)%float = false.
Proof.
  intros Hlt. destruct (finite_cases x) as [Fx|[Hx|[Hx|Hx]]].
  - apply ltb_B2R in Hlt; [|exact Fx|reflexivity]. rewrite B2R_half in Hlt.
    destruct (sub_faithful 1 x eq_refl Fx) as (_ & _ & Hlo & _).
    destruct (Hlo (B2R 0.5) (format_B2R 0.5)) as [Hinf|[Ff Hv]].
    + rewrite B2R_one, B2R_half. lra.
    + rewrite FloatAxioms.ltb_spec, Hinf. reflexivity.
    + destruct (1 - x <? 0.5)%float eqn:E; [|reflexivity].
      apply ltb_B2R in E; [|exact Ff|reflexivity]. fold (B2R (1 - x)) in Hv. lra.
  - rewrite FloatAxioms.ltb_spec, Hx in Hlt. discriminate.
  - rewrite FloatAxioms.ltb_spec, FloatAxioms.sub_spec, Hx. reflexivity.
  - rewrite FloatAxioms.ltb_spec, Hx in Hlt. discriminate.
Qed.

Section LogGamma.
Context {M : JSMath}.

(** The recursion of [logGamma] stops after one recursive call. *)
Lemma logGamma_rec_total (depth : nat) (x : float) :
  (2 <= depth)%nat -> logGamma_rec depth x = Some (logGamma x).
Proof.
  intros Hd. destruct depth as [|[|depth]]; try lia.
  unfold logGamma. cbn [logGamma_rec].
  destruct (x <? 0.5)%float eqn:Hx; [|reflexivity].
  rewrite (one_minus_below_half x Hx). reflexivity.
Qed.


End LogGamma.

Lemma half_count (k : Z) :
  0 <= k < 2 ^ 52 ->
  finite (Z2num k / 2) = true /\ B2R (Z2num k / 2) = (IZR k / 2)%R.
Proof.
  intros Hk. pose proof (finite_Z2num k ltac:(lia)) as Fk.
  pose proof (B2R_Z2num k ltac:(lia)) as Vk.
  assert (Htwo : B2R 2 <> 0%R) by (rewrite B2R_two; lra).
  pose proof (div_faithful _ 2 Fk eq_refl Htwo) as Hf. rewrite Vk, B2R_two in Hf.
  apply faithful_Prim_exact; [exact Hf|].
  replace (IZR k / 2)%R with (F2R k (- (1))).
  - apply format_F2R; lia.
  - rewrite F2R_neg_exp by lia. reflexivity.
Qed.

Lemma format_half (k : Z) : Z.abs k < 2 ^ 53 -> format (IZR k / 2).
Proof.
  intros Hk. replace (IZR k / 2)%R with (F2R k (- (1))).
  - apply format_F2R; lia.
  - rewrite F2R_neg_exp by lia. reflexivity.
Qed.



Section LogGammaBranches.
Context {M : JSMath}.




End LogGammaBranches.



(** * The rows of the analysis *)

Section Rows.
Context {M : JSMath}.

Lemma evaluatedKeys_length (userEvals : gmap Z Evaluation) :
  length (evaluatedKeysOf userEvals)
  = length (List.filter (hasFinal userEvals) (Object_keys userEvals)).
Proof. unfold evaluatedKeysOf. apply Permutation_length, merge_sort_Permutation. Qed.

Lemma filter_nil_existsb {A : Type} (f : A -> bool) (l : list A) :
  length (List.filter f l) = 0%nat <-> existsb f l = false.
Proof.
  induction l as [|x l IH]; cbn [List.filter existsb length]; [tauto|].
  destruct (f x); cbn [length orb]; [split; [lia|discriminate]|exact IH].
Qed.

Lemma evaluatedCount_hasEvaluated allEvaluations cases cutoff prevalence comparisonPercentage u :
  (0 <? evaluatedCount
          (readerResult allEvaluations cases cutoff prevalence comparisonPercentage u))
  = hasEvaluated allEvaluations u.
Proof.
  unfold readerResult, hasEvaluated.
  pose proof (evaluatedKeys_length (userEvalsOf allEvaluations u)) as Hlen.
  pose proof (filter_nil_existsb (hasFinal (userEvalsOf allEvaluations u))
                (Object_keys (userEvalsOf allEvaluations u))) as Hex.
  destruct (Z.eqb_spec (Z.of_nat (length (evaluatedKeysOf (userEvalsOf allEvaluations u)))) 0)
    as [Hz|Hnz]; cbn [evaluatedCount].
  - symmetry. apply Hex. lia.
  - destruct (existsb _ _); [apply Z.ltb_lt; lia|].
    exfalso. apply Hnz. destruct Hex as [_ Hex]. rewrite Hlen, Hex; reflexivity.
Qed.

Lemma averageMetrics_valid_readers allEvaluations cases cutoff prevalence comparisonPercentage
    (allUsers : list User) :
  averageMetrics
    (resultsByUser allEvaluations cases cutoff prevalence comparisonPercentage allUsers)
  = averageMetrics
      (resultsByUser allEvaluations cases cutoff prevalence comparisonPercentage
         (List.filter (hasEvaluated allEvaluations) allUsers)).
Proof.
  unfold averageMetrics.
  assert (Hvalid : forall users,
            List.filter (fun r => 0 <? evaluatedCount r)
              (resultsByUser allEvaluations cases cutoff prevalence comparisonPercentage users)
            = resultsByUser allEvaluations cases cutoff prevalence comparisonPercentage
                (List.filter (hasEvaluated allEvaluations) users)).
  { intros users. unfold resultsByUser. induction users as [|u users IH]; [reflexivity|].
    cbn [map List.filter]. rewrite evaluatedCount_hasEvaluated.
    destruct (hasEvaluated allEvaluations u); cbn [map]; rewrite IH; reflexivity. }
  rewrite !Hvalid. rewrite filter_filter_andb.
  replace (List.filter (fun x => hasEvaluated allEvaluations x && hasEvaluated allEvaluations x)
             allUsers)
    with (List.filter (hasEvaluated allEvaluations) allUsers); [reflexivity|].
  apply List.filter_ext. intros x. destruct (hasEvaluated allEvaluations x); reflexivity.
Qed.

Lemma hasEvaluated_false allEvaluations (u : User) :
  (forall k e, userEvalsOf allEvaluations u !! k = Some e -> viradsFinal e <= 0) ->
  hasEvaluated allEvaluations u = false.
Proof.
  intros Hnone. unfold hasEvaluated.
  destruct (existsb _ _) eqn:Hex; [|reflexivity].
  apply existsb_exists in Hex. destruct Hex as (k & _ & Hk).
  unfold hasFinal in Hk. destruct (userEvalsOf allEvaluations u !! k) as [e|] eqn:Hlook;
    [|discriminate].
  apply Z.ltb_lt in Hk. specialize (Hnone k e Hlook). lia.
Qed.

(** C10. A reader none of whose evaluations has a final score above 0 gets the
    default row: no evaluated case, the four final and the four partial
    metrics 0, AUC 0.5 and both p-values 1; and the group averages are the
    same with and without that reader in the list of readers. *)
Theorem reader_without_evaluations
    (allEvaluations : gmap string (gmap Z Evaluation)) (cases : list CaseData)
    (cutoff : Z) (prevalence : float) (comparisonPercentage : Z) (u : User) :
  (forall k e, userEvalsOf allEvaluations u !! k = Some e -> viradsFinal e <= 0) ->
  readerResult allEvaluations cases cutoff prevalence comparisonPercentage u
  = {| user := u; evaluatedCount := 0;
       finalMetrics := {| sensitivity := 0; specificity := 0; ppv := 0; npv := 0 |};
       partialMetrics := {| sensitivity := 0; specificity := 0; ppv := 0; npv := 0 |};
       finalAuc := 0.5; pValueSensitivity := 1; pValueSpecificity := 1 |} /\
  (forall before after : list User,
     averageMetrics
       (resultsByUser allEvaluations cases cutoff prevalence comparisonPercentage
          (before ++ u :: after))
     = averageMetrics
         (resultsByUser allEvaluations cases cutoff prevalence comparisonPercentage
            (before ++ after))).
Proof.
  intros Hnone. apply hasEvaluated_false in Hnone. split.
  - pose proof (evaluatedCount_hasEvaluated allEvaluations cases cutoff prevalence
                  comparisonPercentage u) as Hc.
    rewrite Hnone in Hc. unfold readerResult in *.
    destruct (Z.eqb_spec (Z.of_nat (length (evaluatedKeysOf (userEvalsOf allEvaluations u)))) 0)
      as [Hz|Hnz]; [reflexivity|].
    cbn [evaluatedCount] in Hc. apply Z.ltb_ge in Hc. lia.
  - intros before after.
    rewrite averageMetrics_valid_readers.
    rewrite (averageMetrics_valid_readers _ _ _ _ _ (before ++ after)).
    rewrite !List.filter_app. cbn [List.filter]. rewrite Hnone. reflexivity.
Qed.

End Rows.

(** * The area under the ROC curve lies between 0 and 1 *)

Lemma onGrid_bounds r : onGrid r -> (0 <= r <= 1)%R.
Proof.
  intros (k & Hk & ->).
  assert (Hc : (0 < IZR (2 ^ 53))%R) by (apply IZR_lt; lia).
  assert (H0 : (0 <= IZR k)%R) by (apply IZR_le; lia).
  assert (H1 : (IZR k <= IZR (2 ^ 53))%R) by (apply IZR_le; lia).
  pose proof (Rinv_0_lt_compat _ Hc) as Hi.
  assert (Hci : (IZR (2 ^ 53) * / IZR (2 ^ 53) = 1)%R) by (apply Rinv_r; lra).
  unfold Rdiv. split; nra.
Qed.

Lemma onGrid_format r : onGrid r -> format r.
Proof. intros (k & Hk & ->). apply format_grid. lia. Qed.

Lemma format_onGrid r : format r -> (1 / 2 <= r <= 1)%R -> onGrid r.
Proof.
  intros (m & e & Hm & He & ->) [Hlo Hhi].
  assert (Hc : (0 < IZR (2 ^ 53))%R) by (apply IZR_lt; lia).
  assert (Hmpos : 0 < m).
  { destruct (Z_lt_le_dec 0 m) as [|Hle]; [assumption|]. exfalso.
    unfold F2R in Hlo. pose proof (bpow_pos e).
    assert (IZR m <= 0)%R by (apply IZR_le; lia). nra. }
  assert (He53 : -53 <= e).
  { destruct (Z_le_gt_dec (-53) e) as [|Hgt]; [assumption|]. exfalso.
    assert (Hb : (bpow e <= bpow (- (54)))%R) by (apply bpow_le; lia).
    assert (Hm' : (IZR m < IZR (2 ^ 53))%R) by (apply IZR_lt; lia).
    assert (Hm0 : (0 < IZR m)%R) by (apply IZR_lt; lia).
    assert (Hh : (IZR (2 ^ 53) * bpow (- (54)) = 1 / 2)%R).
    { rewrite bpow_opp, bpow_Z by lia. change (2 ^ 54) with (2 ^ 53 * 2).
      rewrite mult_IZR. field. lra. }
    pose proof (bpow_pos (- (54))) as Hp.
    unfold F2R in Hlo.
    assert (IZR m * bpow e <= IZR m * bpow (- (54)))%R by (apply Rmult_le_compat_l; lra).
    assert (IZR m * bpow (- (54)) < IZR (2 ^ 53) * bpow (- (54)))%R
      by (apply Rmult_lt_compat_r; assumption).
    lra. }
  assert (Hval : F2R m e = (IZR (m * 2 ^ (e + 53)) / IZR (2 ^ 53))%R).
  { rewrite <- (F2R_neg_exp _ 53) by lia. rewrite <- F2R_shift by lia. f_equal. lia. }
  rewrite Hval in Hlo, Hhi. exists (m * 2 ^ (e + 53)). split; [|exact Hval].
  pose proof (Z.pow_pos_nonneg 2 (e + 53)). split; [nia|].
  apply le_IZR. apply (Rmult_le_reg_r (/ IZR (2 ^ 53))); [apply Rinv_0_lt_compat; lra|].
  rewrite Rinv_r by lra. exact Hhi.
Qed.

Lemma one_minus_onGrid s :
  finite s = true -> (0 <= B2R s <= 1)%R ->
  finite (1 - s) = true /\ onGrid (B2R (1 - s)).
Proof.
  intros Fs Hs. pose proof (sub_faithful 1 s eq_refl Fs) as Hf. rewrite B2R_one in Hf.
  destruct (Rle_lt_dec (1 / 2) (B2R s)) as [Hge|Hlt].
  - destruct (format_onGrid _ (format_B2R s) (conj Hge (proj2 Hs))) as (k & Hk & Hv).
    assert (Hg : onGrid (1 - B2R s)).
    { exists (2 ^ 53 - k). split; [lia|]. rewrite Hv, minus_IZR. field.
      apply not_0_IZR. lia. }
    destruct (faithful_Prim_exact _ _ Hf (onGrid_format _ Hg)) as [Ff Hv'].
    split; [exact Ff|]. rewrite Hv'. exact Hg.
  - pose proof (format_B2R 1) as F1. rewrite B2R_one in F1.
    pose proof (format_B2R 0.5) as Fh. rewrite B2R_half in Fh.
    destruct (faithful_Prim_bounds _ _ (1 / 2) 1 Hf Fh F1) as [Ff Hb]; [lra|].
    split; [exact Ff|]. apply format_onGrid; [apply format_B2R|exact Hb].
Qed.

Lemma grid_sub x y :
  finite x = true -> finite y = true -> onGrid (B2R x) -> onGrid (B2R y) ->
  finite (x - y) = true /\ B2R (x - y) = (B2R x - B2R y)%R.
Proof.
  intros Fx Fy (kx & Hkx & Hx) (ky & Hky & Hy).
  apply faithful_Prim_exact; [apply sub_faithful; assumption|].
  rewrite Hx, Hy.
  replace (IZR kx / IZR (2 ^ 53) - IZR ky / IZR (2 ^ 53))%R
    with (IZR (kx - ky) / IZR (2 ^ 53))%R
    by (rewrite minus_IZR; field; apply not_0_IZR; lia).
  apply format_grid. lia.
Qed.

(** The comparator [(a, b) => a.fpr - b.fpr] orders the points by their
    [fpr]: the difference of two such numbers is exact. *)
Lemma fpr_before (x y : RocPoint) :
  goodPoint x -> goodPoint y ->
  ((fpr x - fpr y <? 0)%float = true <-> (B2R (fpr x) < B2R (fpr y))%R).
Proof.
  intros (Fx & Gx & _) (Fy & Gy & _). destruct (grid_sub _ _ Fx Fy Gx Gy) as [Fd Hd].
  rewrite (ltb_B2R _ 0 Fd eq_refl), Hd, B2R_zero_float. split; lra.
Qed.

Lemma Map_set_good entries item :
  Forall goodPoint entries -> goodPoint item -> Forall goodPoint (Map_set entries item).
Proof.
  intros He Hi. induction He as [|e rest Hg Hrest IH]; cbn [Map_set].
  - constructor; [exact Hi|constructor].
  - destruct (sameKey e item); constructor; assumption.
Qed.

Lemma uniqueByKey_good points :
  Forall goodPoint points -> Forall goodPoint (uniqueByKey points).
Proof.
  unfold uniqueByKey. assert (Hnil : Forall goodPoint []) by constructor.
  revert Hnil. generalize (@nil RocPoint) as acc.
  induction points as [|p points IH]; intros acc Hacc Hp; cbn [fold_left]; [exact Hacc|].
  inversion Hp; subst. apply IH; [apply Map_set_good|]; assumption.
Qed.

Lemma insertByFpr_good x l :
  goodPoint x -> Forall goodPoint l -> Forall goodPoint (insertByFpr x l).
Proof.
  intros Hx Hl. induction Hl as [|y rest Hy Hrest IH]; cbn [insertByFpr].
  - constructor; [exact Hx|constructor].
  - destruct (fpr x - fpr y <? 0)%float; repeat (constructor; try assumption).
Qed.

Lemma insertByFpr_sorted x l :
  goodPoint x -> Forall goodPoint l -> Sorted fprLe l -> Sorted fprLe (insertByFpr x l).
Proof.
  intros Hx. induction l as [|y rest IH]; intros Hl Hs; cbn [insertByFpr].
  - repeat constructor.
  - inversion Hl as [|? ? Hy Hrest]; subst. inversion Hs as [|? ? Hs' Hhd]; subst.
    destruct (fpr x - fpr y <? 0)%float eqn:E.
    + apply fpr_before in E; [|assumption|assumption].
      constructor; [exact Hs|]. constructor. unfold fprLe. lra.
    + assert (Hyx : fprLe y x).
      { unfold fprLe. destruct (Rle_lt_dec (B2R (fpr y)) (B2R (fpr x))) as [|Hlt];
          [assumption|].
        apply (fpr_before x y Hx Hy) in Hlt. congruence. }
      constructor; [apply IH; assumption|].
      destruct rest as [|y' rest']; cbn [insertByFpr]; [constructor; exact Hyx|].
      destruct (fpr x - fpr y' <? 0)%float; constructor; [exact Hyx|].
      inversion Hhd; assumption.
Qed.

Lemma sortByFpr_sorted points :
  Forall goodPoint points ->
  Forall goodPoint (sortByFpr points) /\ Sorted fprLe (sortByFpr points).
Proof.
  unfold sortByFpr.
  assert (Hnil : Forall goodPoint [] /\ Sorted fprLe []) by (split; constructor).
  revert Hnil. generalize (@nil RocPoint) as acc.
  induction points as [|p points IH]; intros acc [Hacc Hs] Hp; cbn [fold_left];
    [split; assumption|].
  inversion Hp; subst. apply IH; [|assumption].
  split; [apply insertByFpr_good|apply insertByFpr_sorted]; assumption.
Qed.

Lemma rocPointAt_good evaluations relevantCases cutoff :
  Z.of_nat (length relevantCases) < 2 ^ 53 ->
  goodPoint (rocPointAt evaluations relevantCases cutoff).
Proof.
  intros Hsize. pose proof (getMatrix_bounds evaluations relevantCases cutoff) as Hb.
  cbn zeta in Hb. destruct Hb as (Htp & Hfp & Htn & Hfn & Hsum).
  unfold rocPointAt, goodPoint. cbn [fpr tpr].
  set (m := getMatrixForEvaluations evaluations relevantCases cutoff) in *.
  assert (Hsens : finite (Z2num (tp m) / Z2num (if tp m + fn m =? 0 then 1 else tp m + fn m))
                  = true /\
                  (0 <= B2R (Z2num (tp m)
                             / Z2num (if tp m + fn m =? 0 then 1 else tp m + fn m)) <= 1)%R).
  { destruct (Z.eqb_spec (tp m + fn m) 0); apply count_ratio; lia. }
  assert (Hspec : finite (Z2num (tn m) / Z2num (if tn m + fp m =? 0 then 1 else tn m + fp m))
                  = true /\
                  (0 <= B2R (Z2num (tn m)
                             / Z2num (if tn m + fp m =? 0 then 1 else tn m + fp m)) <= 1)%R).
  { destruct (Z.eqb_spec (tn m + fp m) 0); apply count_ratio; lia. }
  destruct Hsens as [Fs Hs], Hspec as [Fc Hc].
  destruct (one_minus_onGrid _ Fc Hc) as [Ff Hg]. auto.
Qed.

Lemma format_double_grid k :
  0 <= k <= 2 ^ 53 -> format (2 * (IZR k / IZR (2 ^ 53))).
Proof.
  intros Hk. assert (Hc : IZR (2 ^ 53) <> 0%R) by (apply not_0_IZR; lia).
  destruct (Z.eq_dec k (2 ^ 53)) as [->|Hne].
  - replace (2 * (IZR (2 ^ 53) / IZR (2 ^ 53)))%R with (IZR 2) by (field; assumption).
    apply format_IZR. cbn. lia.
  - replace (2 * (IZR k / IZR (2 ^ 53)))%R with (F2R k (- (52))).
    + apply format_F2R; lia.
    + rewrite F2R_neg_exp by lia. change (2 ^ 53) with (2 ^ 52 * 2). rewrite mult_IZR.
      field. apply not_0_IZR. lia.
Qed.

(** One trapezoid of the loop is between 0 and the step of [fpr]. *)
Lemma trapezoid_term (p1 p2 : RocPoint) :
  goodPoint p1 -> goodPoint p2 -> fprLe p1 p2 ->
  within ((fpr p2 - fpr p1) * (tpr p1 + tpr p2) / 2) 0 (B2R (fpr p2) - B2R (fpr p1)).
Proof.
  intros (F1 & G1 & T1 & B1) (F2 & G2 & T2 & B2) Hle. unfold fprLe in Hle.
  destruct (grid_sub _ _ F2 F1 G2 G1) as [Fd Hd].
  assert (Gd : onGrid (B2R (fpr p2 - fpr p1))).
  { destruct G1 as (k1 & Hk1 & E1), G2 as (k2 & Hk2 & E2). rewrite Hd.
    assert (k1 <= k2).
    { apply le_IZR. rewrite E1, E2 in Hle.
      assert (Hc : (0 < IZR (2 ^ 53))%R) by (apply IZR_lt; lia).
      apply (Rmult_le_reg_r (/ IZR (2 ^ 53))); [apply Rinv_0_lt_compat; lra|exact Hle]. }
    exists (k2 - k1). split; [lia|]. rewrite E1, E2, minus_IZR. field.
    apply not_0_IZR. lia. }
  pose proof (format_IZR 0 ltac:(cbn; lia)) as Fmt0.
  pose proof (format_IZR 2 ltac:(cbn; lia)) as Fmt2.
  destruct (faithful_Prim_bounds _ _ 0 2 (add_faithful _ _ T1 T2) Fmt0 Fmt2) as [Fs Hs];
    [lra|].
  pose proof (onGrid_bounds _ Gd) as Hdb.
  assert (Fmt2d : format (2 * B2R (fpr p2 - fpr p1))).
  { destruct Gd as (k & Hk & ->). apply format_double_grid, Hk. }
  destruct (faithful_Prim_bounds _ _ 0 (2 * B2R (fpr p2 - fpr p1))
              (mul_faithful _ _ Fd Fs) Fmt0 Fmt2d) as [Fp Hp]; [nra|].
  assert (Htwo : B2R 2 <> 0%R) by (rewrite B2R_two; lra).
  pose proof (div_faithful _ 2 Fp eq_refl Htwo) as Hq. rewrite B2R_two in Hq.
  destruct (faithful_Prim_bounds _ _ 0 (B2R (fpr p2 - fpr p1)) Hq Fmt0 (format_B2R _))
    as [Fq Hqb]; [lra|].
  split; [exact Fq|]. rewrite <- Hd. exact Hqb.
Qed.

(** The loop keeps the area between 0 and the [fpr] of the point it has
    reached. *)
Lemma trapezoids_bounds points :
  Forall goodPoint points -> Sorted fprLe points ->
  forall area,
    within area 0 (match points with p1 :: _ => B2R (fpr p1) | [] => 1 end) ->
    within (trapezoids area points) 0 1.
Proof.
  induction points as [|p1 rest IH]; intros Hg Hs area Ha; [exact Ha|].
  inversion Hg as [|? ? Hg1 Hgrest]; subst. inversion Hs as [|? ? Hsrest Hhd]; subst.
  destruct rest as [|p2 rest'].
  - cbn [trapezoids]. destruct Ha as [Fa Hab]. destruct Hg1 as (_ & G1 & _).
    pose proof (onGrid_bounds _ G1). split; [exact Fa|lra].
  - cbn [trapezoids]. apply IH; [exact Hgrest|exact Hsrest|].
    inversion Hgrest as [|? ? Hg2 _]; subst. inversion Hhd as [|? ? Hle]; subst.
    destruct Ha as [Fa Hab].
    destruct (trapezoid_term p1 p2 Hg1 Hg2 Hle) as [Ft Htb].
    pose proof (format_IZR 0 ltac:(cbn; lia)) as Fmt0.
    apply (faithful_Prim_bounds _ _ 0 (B2R (fpr p2)) (add_faithful _ _ Fa Ft) Fmt0
             (format_B2R _)).
    lra.
Qed.

Lemma calculateAUC_within (evaluations : gmap Z Evaluation) (cases : list CaseData) :
  Z.of_nat (length cases) < 2 ^ 53 -> within (calculateAUC evaluations cases) 0 1.
Proof.
  intros Hsize.
  assert (Hhalf : within 0.5 0 1) by (split; [reflexivity|rewrite B2R_half; lra]).
  unfold calculateAUC. rewrite relevantCases_eq.
  set (relevant := relevantCasesOf evaluations cases).
  assert (Hrel : Z.of_nat (length relevant) < 2 ^ 53).
  { unfold relevant, relevantCasesOf.
    pose proof (filter_length_le (fun c => hasFinal evaluations (caseNumber c)) cases). lia. }
  destruct (Z.of_nat (length relevant) =? 0); [exact Hhalf|].
  destruct ((_ =? 0) || (_ =? 0)); [exact Hhalf|].
  cbn zeta.
  assert (Hgood : Forall goodPoint
            ([{| fpr := 0; tpr := 0 |}]
             ++ map (rocPointAt evaluations relevant) [2; 3; 4; 5]
             ++ [{| fpr := 1; tpr := 1 |}])).
  { assert (H0 : goodPoint {| fpr := 0; tpr := 0 |}).
    { unfold goodPoint. cbn [fpr tpr]. rewrite B2R_zero_float.
      repeat split; try reflexivity; try lra.
      exists 0. split; [lia|]. unfold Rdiv. rewrite Rmult_0_l. reflexivity. }
    assert (H1 : goodPoint {| fpr := 1; tpr := 1 |}).
    { unfold goodPoint. cbn [fpr tpr]. rewrite B2R_one.
      repeat split; try reflexivity; try lra.
      exists (2 ^ 53). split; [lia|]. field. apply not_0_IZR. lia. }
    cbn [map app]. repeat (constructor; [first [exact H0|exact H1|apply rocPointAt_good, Hrel]|]).
    constructor. }
  apply uniqueByKey_good, sortByFpr_sorted in Hgood. destruct Hgood as [Hg Hs].
  apply trapezoids_bounds; [exact Hg|exact Hs|].
  split; [reflexivity|]. rewrite B2R_zero_float.
  destruct (sortByFpr _) as [|p1 ?]; [lra|].
  inversion Hg as [|? ? (_ & G1 & _) _]; subst. pose proof (onGrid_bounds _ G1). lra.
Qed.

(** C6. [calculateAUC] returns a number from 0 to 1, both included; it returns
    0.5 when no case of the list has an evaluation with a final score above 0,
    and when those that have one are all negative or all positive. *)
Theorem calculateAUC_between_0_and_1
    (evaluations : gmap Z Evaluation) (cases : list CaseData) :
  Z.of_nat (length cases) < 2 ^ 53 ->
  let relevant := relevantCasesOf evaluations cases in
  let auc := calculateAUC evaluations cases in
  (0 <=? auc)%float = true /\ (auc <=? 1)%float = true /\
  (relevant = [] \/ Forall (fun c => isCVMIPositive c = false) relevant
   \/ Forall (fun c => isCVMIPositive c = true) relevant ->
   auc = 0.5%float).
Proof.
  intros Hsize relevant auc.
  destruct (calculateAUC_within evaluations cases Hsize) as [Fa [H0 H1]]. fold auc in Fa, H0, H1.
  split; [apply (leb_B2R 0 auc eq_refl Fa); rewrite B2R_zero_float; exact H0|].
  split; [apply (leb_B2R auc 1 Fa eq_refl); rewrite B2R_one; exact H1|].
  intros Hdeg. unfold auc, calculateAUC. rewrite relevantCases_eq. fold relevant.
  destruct (Z.eqb_spec (Z.of_nat (length relevant)) 0) as [|Hne]; [reflexivity|].
  pose proof (List.filter_length isCVMIPositive relevant) as Hlen.
  destruct Hdeg as [Hnil|[Hneg|Hpos]].
  - rewrite Hnil in Hne. cbn in Hne. lia.
  - rewrite length_filter_false by (apply List.Forall_forall, Hneg).
    reflexivity.
  - rewrite (length_filter_false (fun x => negb (isCVMIPositive x))) in Hlen.
    + replace (Z.of_nat (length relevant)
               - Z.of_nat (length (List.filter isCVMIPositive relevant)) =? 0) with true
        by (symmetry; apply Z.eqb_eq; lia).
      rewrite orb_true_r. reflexivity.
    + intros x Hx. rewrite (proj1 (List.Forall_forall _ _) Hpos x Hx). reflexivity.
Qed.

(** * Probabilities stay between 0 and 1 *)

Lemma inUnit_within x : inUnit x = true <-> within x 0 1.
Proof.
  unfold inUnit, within. rewrite andb_true_iff. split.
  - intros [H0 H1]. destruct (finite_cases x) as [Fx|[Hx|[Hx|Hx]]].
    + split; [exact Fx|]. apply (leb_B2R 0 x eq_refl Fx) in H0.
      apply (leb_B2R x 1 Fx eq_refl) in H1. rewrite B2R_zero_float in H0.
      rewrite B2R_one in H1. lra.
    + rewrite FloatAxioms.leb_spec, Hx in H1. discriminate.
    + rewrite FloatAxioms.leb_spec, Hx in H0. discriminate.
    + rewrite FloatAxioms.leb_spec, Hx in H0. discriminate.
  - intros [Fx [H0 H1]]. split.
    + apply (leb_B2R 0 x eq_refl Fx). rewrite B2R_zero_float. exact H0.
    + apply (leb_B2R x 1 Fx eq_refl). rewrite B2R_one. exact H1.
Qed.

Lemma format_0 : format 0.
Proof. apply (format_IZR 0). cbn. lia. Qed.

Lemma format_1 : format 1.
Proof. apply (format_IZR 1). cbn. lia. Qed.

Lemma format_2 : format 2.
Proof. apply (format_IZR 2). cbn. lia. Qed.

Lemma within_zero : within 0 0 1.
Proof. split; [reflexivity|]. rewrite B2R_zero_float. lra. Qed.

Lemma mul_unit x y : within x 0 1 -> within y 0 1 -> within (x * y) 0 1.
Proof.
  intros [Fx Hx] [Fy Hy].
  apply (faithful_Prim_bounds _ _ 0 1 (mul_faithful x y Fx Fy) format_0 format_1). nra.
Qed.

Lemma complement_unit x : within x 0 1 -> within (1 - x) 0 1.
Proof.
  intros [Fx Hx]. pose proof (sub_faithful 1 x eq_refl Fx) as Hf. rewrite B2R_one in Hf.
  apply (faithful_Prim_bounds _ _ 0 1 Hf format_0 format_1). lra.
Qed.

(** The quotient [num / (num + rest)] of Bayes' rule, with its guard. *)
Lemma bayes_unit num rest :
  within num 0 1 -> within rest 0 1 ->
  within (if (0 <? num + rest)%float then (num / (num + rest))%float else 0%float) 0 1.
Proof.
  intros [Fn Hn] [Fr Hr].
  destruct (faithful_Prim_bounds _ _ (B2R num) 2 (add_faithful num rest Fn Fr)
              (format_B2R num) format_2) as [Fd Hd]; [lra|].
  destruct (0 <? num + rest)%float eqn:Hpos; [|exact within_zero].
  apply (ltb_B2R 0 _ eq_refl Fd) in Hpos. rewrite B2R_zero_float in Hpos.
  assert (Hnz : B2R (num + rest) <> 0%R) by lra.
  apply (faithful_Prim_bounds _ _ 0 1 (div_faithful num _ Fn Fd Hnz) format_0 format_1).
  split.
  - apply Rmult_le_pos; [lra|]. apply Rlt_le, Rinv_0_lt_compat. exact Hpos.
  - apply (Rmult_le_reg_r (B2R (num + rest))); [exact Hpos|].
    unfold Rdiv. rewrite Rmult_assoc, Rinv_l by exact Hnz. lra.
Qed.

Lemma guarded_ratio a b :
  0 <= a <= b -> b < 2 ^ 53 ->
  within (if 0 <? b then (Z2num a / Z2num b)%float else 0%float) 0 1.
Proof.
  intros Ha Hb. destruct (Z.ltb_spec 0 b); [|exact within_zero].
  apply count_ratio; lia.
Qed.

Lemma calculateMetrics_within (matrix : ConfusionMatrixData) (prevalence : float) :
  0 <= tp matrix -> 0 <= fp matrix -> 0 <= tn matrix -> 0 <= fn matrix ->
  tp matrix + fp matrix + tn matrix + fn matrix < 2 ^ 53 ->
  within prevalence 0 1 ->
  metricsInUnit (calculateMetrics matrix prevalence) = true.
Proof.
  intros Htp Hfp Htn Hfn Hsum Hp.
  pose proof (guarded_ratio (tp matrix) (tp matrix + fn matrix) ltac:(lia) ltac:(lia)) as Hs.
  pose proof (guarded_ratio (tn matrix) (tn matrix + fp matrix) ltac:(lia) ltac:(lia)) as Hc.
  unfold metricsInUnit, calculateMetrics. cbn [sensitivity specificity ppv npv].
  rewrite !andb_true_iff. repeat split; apply inUnit_within.
  - exact Hs.
  - exact Hc.
  - apply bayes_unit; [apply mul_unit; assumption|].
    apply mul_unit; apply complement_unit; assumption.
  - apply bayes_unit; [apply mul_unit; [assumption|apply complement_unit; assumption]|].
    apply mul_unit; [apply complement_unit; assumption|assumption].
Qed.

(** X1. For a matrix of non-negative counts (fewer than 2^53 in all) and a
    prevalence from 0 to 1, [calculateMetrics] returns a sensitivity, a
    specificity, a positive and a negative predictive value that are all
    numbers from 0 to 1: never NaN, never an infinity, whatever the rounding. *)
Theorem calculateMetrics_in_unit (matrix : ConfusionMatrixData) (prevalence : float) :
  0 <= tp matrix -> 0 <= fp matrix -> 0 <= tn matrix -> 0 <= fn matrix ->
  tp matrix + fp matrix + tn matrix + fn matrix < 2 ^ 53 ->
  (0 <=? prevalence)%float = true -> (prevalence <=? 1)%float = true ->
  let m := calculateMetrics matrix prevalence in
  ((0 <=? sensitivity m)%float = true /\ (sensitivity m <=? 1)%float = true) /\
  ((0 <=? specificity m)%float = true /\ (specificity m <=? 1)%float = true) /\
  ((0 <=? ppv m)%float = true /\ (ppv m <=? 1)%float = true) /\
  ((0 <=? npv m)%float = true /\ (npv m <=? 1)%float = true).
Proof.
  intros Htp Hfp Htn Hfn Hsum Hp0 Hp1 m.
  assert (Hp : within prevalence 0 1).
  { apply inUnit_within. unfold inUnit. rewrite Hp0, Hp1. reflexivity. }
  pose proof (calculateMetrics_within matrix prevalence Htp Hfp Htn Hfn Hsum Hp) as H.
  fold m in H. unfold metricsInUnit, inUnit in H. rewrite !andb_true_iff in H.
  tauto.
Qed.

(** The sample prevalence. *)
Lemma samplePrevalence_within (cases : list CaseData) :
  Z.of_nat (length cases) < 2 ^ 53 -> within (samplePrevalence cases) 0 1.
Proof.
  intros Hsize. unfold samplePrevalence.
  destruct (Z.eqb_spec (Z.of_nat (length cases)) 0); [exact within_zero|].
  pose proof (filter_length_le isCVMIPositive cases).
  apply count_ratio; lia.
Qed.

(** X2. The sample prevalence is a number from 0 to 1 for every list of
    cases: it is 0 exactly when no case is positive (so also for no case at
    all, where nothing is divided) and 1 exactly when there are cases and all
    are positive. *)
Theorem samplePrevalence_in_unit (cases : list CaseData) :
  Z.of_nat (length cases) < 2 ^ 53 ->
  let p := samplePrevalence cases in
  let positiveCases := Z.of_nat (length (List.filter isCVMIPositive cases)) in
  (0 <=? p)%float = true /\ (p <=? 1)%float = true /\
  (p = 0%float <-> positiveCases = 0) /\
  (p = 1%float <-> 0 < positiveCases /\ positiveCases = Z.of_nat (length cases)).
Proof.
  intros Hsize p positiveCases.
  pose proof (samplePrevalence_within cases Hsize) as Hw. fold p in Hw.
  apply inUnit_within in Hw. unfold inUnit in Hw. apply andb_true_iff in Hw.
  split; [tauto|]. split; [tauto|].
  pose proof (filter_length_le isCVMIPositive cases) as Hle. fold positiveCases in Hle.
  assert (Hcases :
    (positiveCases = 0 /\ p = 0%float) \/
    (0 < positiveCases /\ positiveCases = Z.of_nat (length cases) /\ p = 1%float) \/
    (0 < positiveCases < Z.of_nat (length cases) /\ (0 < B2R p < 1)%R)).
  { unfold p, samplePrevalence. fold positiveCases.
    destruct (Z.eqb_spec (Z.of_nat (length cases)) 0) as [Hz|Hnz].
    - left. split; [lia|reflexivity].
    - destruct (Z.eq_dec positiveCases 0) as [H0|Hpos].
      + left. split; [exact H0|]. rewrite H0. apply zero_div_count. lia.
      + destruct (Z.eq_dec positiveCases (Z.of_nat (length cases))) as [Hall|Hsome].
        * right. left. split; [lia|]. split; [exact Hall|]. rewrite Hall.
          apply div_diag; [apply finite_Z2num; lia|].
          rewrite B2R_Z2num by lia. apply not_0_IZR. lia.
        * right. right. split; [lia|].
          destruct (count_ratio_strict positiveCases (Z.of_nat (length cases)))
            as [_ Hb]; [lia|lia|].
          assert (0 < / IZR (2 ^ 53))%R by (apply Rinv_0_lt_compat, IZR_lt; lia).
          lra. }
  destruct Hcases as [[Hc Hp]|[(Hc & Hall & Hp)|[Hc Hp]]].
  - split; [tauto|]. split; [|lia]. intros H1. rewrite H1 in Hp. discriminate Hp.
  - split; [|tauto]. split; [|lia]. intros H0. rewrite H0 in Hp. discriminate Hp.
  - split; split; try lia; intros Hv; rewrite Hv in Hp;
      rewrite ?B2R_zero_float, ?B2R_one in Hp; lra.
Qed.

(** * The rows and the averages of the analysis are probabilities *)

Lemma sum_within (x : AnalysisMetrics -> float) (valid : list ReaderResult) :
  Forall (fun r => within (x (finalMetrics r)) 0 1) valid ->
  forall (acc : float) (k : Z),
    0 <= k -> k + Z.of_nat (length valid) <= 2 ^ 53 -> within acc 0 (IZR k) ->
    within (fold_left (fun acc r => (acc + x (finalMetrics r))%float) valid acc)
           0 (IZR (k + Z.of_nat (length valid))).
Proof.
  induction 1 as [|r valid Hr _ IH]; intros acc k Hk Hlen Hacc; cbn [fold_left length].
  - replace (k + Z.of_nat 0) with k by lia. exact Hacc.
  - cbn [length] in Hlen. rewrite Nat2Z.inj_succ in *.
    replace (k + Z.succ (Z.of_nat (length valid))) with (k + 1 + Z.of_nat (length valid)) by lia.
    apply IH; [lia|lia|].
    destruct Hacc as [Fa Ha], Hr as [Fr Hv].
    apply (faithful_Prim_bounds _ _ 0 (IZR (k + 1)) (add_faithful _ _ Fa Fr) format_0).
    + apply format_IZR. lia.
    + rewrite plus_IZR. lra.
Qed.

Lemma averageOf_within (x : AnalysisMetrics -> float) (valid : list ReaderResult) :
  Forall (fun r => within (x (finalMetrics r)) 0 1) valid ->
  Z.of_nat (length valid) < 2 ^ 53 ->
  within (averageOf x valid) 0 1.
Proof.
  intros Hall Hlen. unfold averageOf.
  assert (Hroom : 0 + Z.of_nat (length valid) <= 2 ^ 53) by lia.
  destruct (sum_within x valid Hall 0%float 0 (Z.le_refl 0) Hroom) as [Fs Hs].
  { split; [reflexivity|]. rewrite B2R_zero_float. lra. }
  rewrite Z.add_0_l in Hs.
  set (n := if Z.of_nat (length valid) =? 0 then 1 else Z.of_nat (length valid)).
  assert (Hn : 0 < n < 2 ^ 53 /\ Z.of_nat (length valid) <= n).
  { unfold n. destruct (Z.eqb_spec (Z.of_nat (length valid)) 0); lia. }
  pose proof (finite_Z2num n ltac:(lia)) as Fn. pose proof (B2R_Z2num n ltac:(lia)) as Vn.
  assert (Hpos : (0 < IZR n)%R) by (apply IZR_lt; lia).
  assert (Hle : (IZR (Z.of_nat (length valid)) <= IZR n)%R) by (apply IZR_le; lia).
  assert (Hnz : B2R (Z2num n) <> 0%R) by (rewrite Vn; lra).
  apply (faithful_Prim_bounds _ _ 0 1 (div_faithful _ _ Fs Fn Hnz) format_0 format_1).
  rewrite Vn. split.
  - apply Rmult_le_pos; [lra|]. apply Rlt_le, Rinv_0_lt_compat. exact Hpos.
  - apply (Rmult_le_reg_r (IZR n)); [exact Hpos|].
    unfold Rdiv. rewrite Rmult_assoc, Rinv_l by lra. lra.
Qed.

Lemma metricsInUnit_within (m : AnalysisMetrics) :
  metricsInUnit m = true <->
  within (sensitivity m) 0 1 /\ within (specificity m) 0 1 /\
  within (ppv m) 0 1 /\ within (npv m) 0 1.
Proof.
  unfold metricsInUnit. rewrite !andb_true_iff, !inUnit_within. tauto.
Qed.

Section RowsInUnit.
Context {M : JSMath}.

Lemma readerResult_within allEvaluations cases cutoff prevalence comparisonPercentage u :
  Z.of_nat (length cases) < 2 ^ 53 -> within prevalence 0 1 ->
  let r := readerResult allEvaluations cases cutoff prevalence comparisonPercentage u in
  metricsInUnit (finalMetrics r) = true /\ metricsInUnit (partialMetrics r) = true /\
  inUnit (finalAuc r) = true.
Proof.
  intros Hsize Hp. cbn zeta. unfold readerResult.
  destruct (Z.of_nat (length (evaluatedKeysOf (userEvalsOf allEvaluations u))) =? 0).
  { cbn [finalMetrics partialMetrics finalAuc]. repeat split; vm_compute; reflexivity. }
  cbn [finalMetrics partialMetrics finalAuc].
  assert (Hmat : forall evaluations keys,
            metricsInUnit
              (calculateMetrics
                 (getMatrixForEvaluations evaluations
                    (List.filter (fun c => includes keys (caseNumber c)) cases) cutoff)
                 prevalence) = true).
  { intros evaluations keys.
    pose proof (getMatrix_bounds evaluations
                  (List.filter (fun c => includes keys (caseNumber c)) cases) cutoff) as Hb.
    cbn zeta in Hb. destruct Hb as (B1 & B2 & B3 & B4 & B5).
    pose proof (filter_length_le (fun c => includes keys (caseNumber c)) cases).
    apply calculateMetrics_within; try assumption. lia. }
  split; [apply Hmat|]. split; [apply Hmat|].
  apply inUnit_within, calculateAUC_within.
  pose proof (filter_length_le
                (fun c => includes (evaluatedKeysOf (userEvalsOf allEvaluations u))
                                   (caseNumber c)) cases).
  lia.
Qed.

(** X3. With a prevalence from 0 to 1, every row of the analysis has final
    and partial metrics and an AUC that are numbers from 0 to 1, and so are
    the four group averages: the sum over the readers and its division keep
    them there. *)
Theorem analysisData_in_unit
    (allEvaluations : gmap string (gmap Z Evaluation)) (cases : list CaseData)
    (cutoff : Z) (prevalence : float) (comparisonPercentage : Z) (allUsers : list User) :
  Z.of_nat (length cases) < 2 ^ 53 -> Z.of_nat (length allUsers) < 2 ^ 53 ->
  inUnit prevalence = true ->
  let '(results, averages) :=
    analysisData allEvaluations cases cutoff prevalence comparisonPercentage allUsers in
  Forall (fun r => metricsInUnit (finalMetrics r) = true /\
                   metricsInUnit (partialMetrics r) = true /\
                   inUnit (finalAuc r) = true) results /\
  metricsInUnit averages = true.
Proof.
  intros Hcases Husers Hp. apply inUnit_within in Hp. unfold analysisData.
  set (results := resultsByUser allEvaluations cases cutoff prevalence comparisonPercentage
                    allUsers).
  assert (Hrows : Forall (fun r => metricsInUnit (finalMetrics r) = true /\
                                   metricsInUnit (partialMetrics r) = true /\
                                   inUnit (finalAuc r) = true) results).
  { unfold results, resultsByUser. apply List.Forall_forall. intros r Hr.
    apply in_map_iff in Hr. destruct Hr as (u & <- & _).
    apply readerResult_within; assumption. }
  split; [exact Hrows|].
  unfold averageMetrics.
  set (valid := List.filter (fun r => 0 <? evaluatedCount r) results).
  assert (Hvalid : Forall (fun r => metricsInUnit (finalMetrics r) = true) valid).
  { apply List.Forall_forall. intros r Hr. apply filter_In in Hr as [Hr _].
    exact (proj1 (proj1 (List.Forall_forall _ _) Hrows r Hr)). }
  assert (Hlen : Z.of_nat (length valid) < 2 ^ 53).
  { pose proof (filter_length_le (fun r => 0 <? evaluatedCount r) results).
    unfold results, resultsByUser in *. rewrite length_map in *. unfold valid. lia. }
  apply metricsInUnit_within. cbn [sensitivity specificity ppv npv].
  repeat split; apply averageOf_within; try exact Hlen;
    eapply Forall_impl; try exact Hvalid; intros r Hr; apply metricsInUnit_within in Hr; tauto.
Qed.

End RowsInUnit.

(** ** Ratios of counts keep their order *)

(** Between two fractions of the same denominator there is a multiple of
    2^-53, so rounding cannot swap them. *)
Lemma ratio_monotone a a' b :
  0 <= a <= a' -> a' <= b -> 0 < b < 2 ^ 53 ->
  (Z2num a / Z2num b <=? Z2num a' / Z2num b)%float = true.
Proof.
  intros Ha Ha' Hb.
  destruct (count_ratio a b ltac:(lia) Hb) as [F1 _].
  destruct (count_ratio a' b ltac:(lia) Hb) as [F2 _].
  apply (leb_B2R _ _ F1 F2).
  destruct (Z.eq_dec a a') as [->|Hne]; [lra|].
  pose proof (finite_Z2num a ltac:(lia)) as Fa. pose proof (B2R_Z2num a ltac:(lia)) as Va.
  pose proof (finite_Z2num a' ltac:(lia)) as Fa'. pose proof (B2R_Z2num a' ltac:(lia)) as Va'.
  pose proof (finite_Z2num b ltac:(lia)) as Fb. pose proof (B2R_Z2num b ltac:(lia)) as Vb.
  assert (Hbpos : (0 < IZR b)%R) by (apply IZR_lt; lia).
  assert (Hnz : B2R (Z2num b) <> 0%R) by (rewrite Vb; lra).
  pose proof (div_faithful _ _ Fa Fb Hnz) as Hq. rewrite Va, Vb in Hq.
  pose proof (div_faithful _ _ Fa' Fb Hnz) as Hq'. rewrite Va', Vb in Hq'.
  set (k := (a * 2 ^ 53 + b - 1) / b).
  assert (Hk : a * 2 ^ 53 <= k * b < a * 2 ^ 53 + b).
  { unfold k. pose proof (Z.div_mod (a * 2 ^ 53 + b - 1) b ltac:(lia)).
    pose proof (Z.mod_pos_bound (a * 2 ^ 53 + b - 1) b ltac:(lia)). nia. }
  assert (Hk0 : 0 <= k <= 2 ^ 53) by nia.
  assert (Hc : (0 < IZR (2 ^ 53))%R) by (apply IZR_lt; lia).
  assert (Hlo : (IZR a / IZR b <= IZR k / IZR (2 ^ 53))%R).
  { apply (Rmult_le_reg_r (IZR b * IZR (2 ^ 53))); [nra|].
    replace (IZR a / IZR b * (IZR b * IZR (2 ^ 53)))%R with (IZR (a * 2 ^ 53))
      by (rewrite mult_IZR; field; lra).
    replace (IZR k / IZR (2 ^ 53) * (IZR b * IZR (2 ^ 53)))%R with (IZR (k * b))
      by (rewrite mult_IZR; field; lra).
    apply IZR_le. lia. }
  assert (Hhi : (IZR k / IZR (2 ^ 53) <= IZR a' / IZR b)%R).
  { apply (Rmult_le_reg_r (IZR b * IZR (2 ^ 53))); [nra|].
    replace (IZR a' / IZR b * (IZR b * IZR (2 ^ 53)))%R with (IZR (a' * 2 ^ 53))
      by (rewrite mult_IZR; field; lra).
    replace (IZR k / IZR (2 ^ 53) * (IZR b * IZR (2 ^ 53)))%R with (IZR (k * b))
      by (rewrite mult_IZR; field; lra).
    apply IZR_le. nia. }
  pose proof (format_grid k ltac:(lia)) as Fg.
  destruct (faithful_Prim_bounds _ _ 0 (IZR k / IZR (2 ^ 53)) Hq format_0 Fg) as [_ H1].
  { split; [|exact Hlo]. apply Rmult_le_pos; [apply IZR_le; lia|].
    apply Rlt_le, Rinv_0_lt_compat. exact Hbpos. }
  destruct (faithful_Prim_bounds _ _ (IZR k / IZR (2 ^ 53)) 1 Hq' Fg format_1) as [_ H2].
  { split; [exact Hhi|]. apply (Rmult_le_reg_r (IZR b)); [exact Hbpos|].
    unfold Rdiv. rewrite Rmult_assoc, Rinv_l by lra.
    assert (IZR a' <= IZR b)%R by (apply IZR_le; lia). lra. }
  lra.
Qed.

(** * The confusion matrix across cutoffs and subsets *)

Lemma count_le {A : Type} (f g : A -> bool) (l : list A) :
  (forall x, In x l -> f x = true -> g x = true) ->
  Z.of_nat (length (List.filter f l)) <= Z.of_nat (length (List.filter g l)).
Proof.
  induction l as [|x l IH]; intros H; [reflexivity|].
  rewrite !length_filter_cons.
  assert (Z.b2z (f x) <= Z.b2z (g x)).
  { specialize (H x (or_introl eq_refl)). destruct (f x); [rewrite H by reflexivity|];
      destruct (g x); cbn; lia. }
  assert (Z.of_nat (length (List.filter f l)) <= Z.of_nat (length (List.filter g l))).
  { apply IH. intros y Hy. apply H. right. exact Hy. }
  lia.
Qed.

Lemma count_split {A : Type} (f g h : A -> bool) (l : list A) :
  (forall x, Z.b2z (f x) + Z.b2z (g x) = Z.b2z (h x)) ->
  Z.of_nat (length (List.filter f l)) + Z.of_nat (length (List.filter g l))
  = Z.of_nat (length (List.filter h l)).
Proof.
  intros H. induction l as [|x l IH]; [reflexivity|].
  rewrite !length_filter_cons. specialize (H x). lia.
Qed.

(** The classified cases of one condition, whatever the cutoff. *)
Lemma condition_total evaluations cutoff cases :
  countIn evaluations cutoff CellTP cases + countIn evaluations cutoff CellFN cases
  = Z.of_nat (length (List.filter
      (fun c => bool_decide (is_Some (classified evaluations c)) && isCVMIPositive c) cases)) /\
  countIn evaluations cutoff CellTN cases + countIn evaluations cutoff CellFP cases
  = Z.of_nat (length (List.filter
      (fun c => bool_decide (is_Some (classified evaluations c))
                && negb (isCVMIPositive c)) cases)).
Proof.
  unfold countIn. split; apply count_split; intros c; unfold inCell, cellOf;
    destruct (classified evaluations c) as [score|];
    destruct (isCVMIPositive c); try destruct (cutoff <=? score);
    repeat case_bool_decide; try congruence; try reflexivity;
    try (exfalso; eauto; fail);
    try (match goal with H : ~ is_Some _ |- _ => exfalso; apply H; eauto end);
    try (match goal with H : is_Some None |- _ => destruct H; discriminate end).
Qed.

(** X4. Raising the cutoff moves cases from the test-positive cells to the
    test-negative ones and nowhere else: tp and fp do not grow, fn and tn do
    not shrink, and the numbers of condition-positive and condition-negative
    cases counted stay the same.  So the sensitivity [calculateMetrics]
    returns does not grow and the specificity does not shrink, rounding
    included. *)
Theorem getMatrix_monotone_in_cutoff
    (evaluations : gmap Z Evaluation) (cases : list CaseData)
    (cutoff1 cutoff2 : Z) (prevalence : float) :
  cutoff1 <= cutoff2 -> Z.of_nat (length cases) < 2 ^ 53 ->
  let m1 := getMatrixForEvaluations evaluations cases cutoff1 in
  let m2 := getMatrixForEvaluations evaluations cases cutoff2 in
  (tp m2 <= tp m1 /\ fp m2 <= fp m1 /\ tn m1 <= tn m2 /\ fn m1 <= fn m2) /\
  (tp m1 + fn m1 = tp m2 + fn m2 /\ tn m1 + fp m1 = tn m2 + fp m2) /\
  (sensitivity (calculateMetrics m2 prevalence)
   <=? sensitivity (calculateMetrics m1 prevalence))%float = true /\
  (specificity (calculateMetrics m1 prevalence)
   <=? specificity (calculateMetrics m2 prevalence))%float = true.
Proof.
  intros Hcut Hsize m1 m2.
  destruct (getMatrix_cells evaluations cases cutoff1) as (Htp1 & Hfp1 & Htn1 & Hfn1).
  destruct (getMatrix_cells evaluations cases cutoff2) as (Htp2 & Hfp2 & Htn2 & Hfn2).
  fold m1 in Htp1, Hfp1, Htn1, Hfn1. fold m2 in Htp2, Hfp2, Htn2, Hfn2.
  destruct (condition_total evaluations cutoff1 cases) as [HP1 HN1].
  destruct (condition_total evaluations cutoff2 cases) as [HP2 HN2].
  assert (Hmove : forall cellA cellB cutA cutB,
            (forall c score, classified evaluations c = Some score ->
               inCell evaluations cutA cellA c = true ->
               inCell evaluations cutB cellB c = true) ->
            countIn evaluations cutA cellA cases <= countIn evaluations cutB cellB cases).
  { intros cellA cellB cutA cutB H. unfold countIn. apply count_le. intros c _ Hc.
    destruct (classified evaluations c) as [score|] eqn:Hcl; [eapply H; eauto|].
    unfold inCell, cellOf in Hc. rewrite Hcl in Hc. case_bool_decide; congruence. }
  assert (Hcells : tp m2 <= tp m1 /\ fp m2 <= fp m1 /\ tn m1 <= tn m2 /\ fn m1 <= fn m2).
  { rewrite Htp1, Hfp1, Htn1, Hfn1, Htp2, Hfp2, Htn2, Hfn2.
    repeat split; apply Hmove; intros c score Hcl; unfold inCell, cellOf; rewrite Hcl;
      destruct (Z.leb_spec cutoff1 score), (Z.leb_spec cutoff2 score),
               (isCVMIPositive c); try lia;
      repeat case_bool_decide; congruence. }
  assert (Htotals : tp m1 + fn m1 = tp m2 + fn m2 /\ tn m1 + fp m1 = tn m2 + fp m2).
  { rewrite Htp1, Hfp1, Htn1, Hfn1, Htp2, Hfp2, Htn2, Hfn2. lia. }
  split; [exact Hcells|]. split; [exact Htotals|].
  pose proof (getMatrix_bounds evaluations cases cutoff1) as B1.
  pose proof (getMatrix_bounds evaluations cases cutoff2) as B2.
  cbn zeta in B1, B2. fold m1 in B1. fold m2 in B2.
  unfold calculateMetrics. cbn [sensitivity specificity].
  destruct Htotals as [<- <-].
  split.
  - destruct (Z.ltb_spec 0 (tp m1 + fn m1)); [|reflexivity].
    apply ratio_monotone; lia.
  - destruct (Z.ltb_spec 0 (tn m1 + fp m1)); [|reflexivity].
    apply ratio_monotone; lia.
Qed.

Lemma firstn_In {A : Type} (n : nat) (l : list A) (a : A) : In a (firstn n l) -> In a l.
Proof.
  revert n. induction l as [|x l IH]; intros [|n]; cbn [firstn In]; try tauto.
  intros [H|H]; [left; exact H|right; exact (IH n H)].
Qed.

Lemma slice_to_ceil_subset {A : Type} (arr : list A) (x : float) (a : A) :
  In a (slice_to_ceil arr x) -> In a arr.
Proof.
  unfold slice_to_ceil.
  destruct (Prim2SF x) as [s|[]| |s m e]; try (intros []); try (intros H; exact H);
    destruct (ceilZ x <? 0); intros H; eapply firstn_In; exact H.
Qed.

Section PartialSubset.
Context {M : JSMath}.

(** X5. In a row of the analysis the partial subset is part of the full one:
    every cell of the partial confusion matrix is at most the same cell of the
    final matrix, whatever the comparison percentage. *)
Theorem partial_matrix_within_final
    (allEvaluations : gmap string (gmap Z Evaluation)) (cases : list CaseData)
    (cutoff comparisonPercentage : Z) (u : User) :
  let userEvals := userEvalsOf allEvaluations u in
  let evaluatedKeys := evaluatedKeysOf userEvals in
  let evaluatedCases := List.filter (fun c => includes evaluatedKeys (caseNumber c)) cases in
  let finalMatrix := getMatrixForEvaluations userEvals evaluatedCases cutoff in
  let partialKeys := partialKeysOf evaluatedKeys comparisonPercentage in
  let partialEvals := partialEvalsOf userEvals partialKeys in
  let partialCases := List.filter (fun c => includes partialKeys (caseNumber c)) cases in
  let partialMatrix := getMatrixForEvaluations partialEvals partialCases cutoff in
  tp partialMatrix <= tp finalMatrix /\ fp partialMatrix <= fp finalMatrix /\
  tn partialMatrix <= tn finalMatrix /\ fn partialMatrix <= fn finalMatrix.
Proof.
  intros userEvals evaluatedKeys evaluatedCases finalMatrix partialKeys partialEvals
         partialCases partialMatrix.
  assert (Hsame : partialMatrix = getMatrixForEvaluations userEvals partialCases cutoff).
  { apply getMatrix_ext. intros c Hc. apply partialEvals_lookup.
    apply filter_In in Hc as [_ Hc]. exact (bool_decide_eq_true_1 _ Hc). }
  destruct (getMatrix_cells userEvals partialCases cutoff) as (Htp & Hfp & Htn & Hfn).
  rewrite <- Hsame in Htp, Hfp, Htn, Hfn.
  destruct (getMatrix_cells userEvals evaluatedCases cutoff) as (Gtp & Gfp & Gtn & Gfn).
  fold finalMatrix in Gtp, Gfp, Gtn, Gfn.
  assert (Hcell : forall cell,
            countIn userEvals cutoff cell partialCases
            <= countIn userEvals cutoff cell evaluatedCases).
  { intros cell. unfold countIn, partialCases, evaluatedCases.
    rewrite !filter_filter_andb. apply count_le. intros c _ Hc.
    apply andb_true_iff in Hc as [Hin Hc]. apply andb_true_iff. split; [|exact Hc].
    apply bool_decide_eq_true_2, list_elem_of_In.
    apply (bool_decide_eq_true_1 _), list_elem_of_In in Hin.
    eapply slice_to_ceil_subset. exact Hin. }
  rewrite Htp, Hfp, Htn, Hfn, Gtp, Gfp, Gtn, Gfn. repeat split; apply Hcell.
Qed.

End PartialSubset.

(** * The area under the curve of uniform readers *)

(** The matrix when all positive cases fall on one side of the cutoff and all
    negative cases on one side. *)
Lemma uniform_matrix evaluations cases cutoff (posTest negTest : bool) :
  let relevant := relevantCasesOf evaluations cases in
  (forall c, In c relevant ->
     cellOf evaluations cutoff c
     = Some (cellFor (if isCVMIPositive c then posTest else negTest) (isCVMIPositive c))) ->
  let positives := Z.of_nat (length (List.filter isCVMIPositive relevant)) in
  let negatives := Z.of_nat (length relevant) - positives in
  getMatrixForEvaluations evaluations relevant cutoff
  = {| tp := if posTest then positives else 0; fp := if negTest then negatives else 0;
       tn := if negTest then 0 else negatives; fn := if posTest then 0 else positives |}.
Proof.
  intros relevant Hcell positives negatives.
  destruct (getMatrix_cells evaluations relevant cutoff) as (Htp & Hfp & Htn & Hfn).
  pose proof (List.filter_length isCVMIPositive relevant) as Hlen.
  assert (Hcount : forall cell,
            countIn evaluations cutoff cell relevant
            = Z.of_nat (length (List.filter
                (fun c => bool_decide
                   (cellFor (if isCVMIPositive c then posTest else negTest) (isCVMIPositive c)
                    = cell)) relevant))).
  { intros cell. unfold countIn. f_equal. f_equal. apply List.filter_ext_in.
    intros c Hc. unfold inCell. rewrite (Hcell c Hc).
    apply bool_decide_ext. split; congruence. }
  assert (Hpos : forall (f : CaseData -> bool),
            (forall c, f c = isCVMIPositive c) ->
            Z.of_nat (length (List.filter f relevant)) = positives).
  { intros f Hf. unfold positives. f_equal. f_equal. apply List.filter_ext. exact Hf. }
  assert (Hneg : forall (f : CaseData -> bool),
            (forall c, f c = negb (isCVMIPositive c)) ->
            Z.of_nat (length (List.filter f relevant)) = negatives).
  { intros f Hf. unfold negatives, positives.
    rewrite (List.filter_ext f (fun c => negb (isCVMIPositive c)) Hf). lia. }
  assert (Hnone : forall (f : CaseData -> bool),
            (forall c, f c = false) -> Z.of_nat (length (List.filter f relevant)) = 0).
  { intros f Hf. rewrite length_filter_false; [reflexivity|]. intros c _. apply Hf. }
  destruct (getMatrixForEvaluations evaluations relevant cutoff) as [a b c d].
  cbn [tp fp tn fn] in *. rewrite Hcount in Htp, Hfp, Htn, Hfn.
  destruct posTest, negTest; f_equal;
    first [ rewrite Htp | rewrite Hfp | rewrite Htn | rewrite Hfn ];
    first [ apply Hpos | apply Hneg | apply Hnone ];
    intros x; destruct (isCVMIPositive x); reflexivity.
Qed.

Lemma uniform_rocPoint evaluations relevant cutoff (posTest negTest : bool)
    (positives negatives : Z) :
  getMatrixForEvaluations evaluations relevant cutoff
  = {| tp := if posTest then positives else 0; fp := if negTest then negatives else 0;
       tn := if negTest then 0 else negatives; fn := if posTest then 0 else positives |} ->
  0 < positives < 2 ^ 53 -> 0 < negatives < 2 ^ 53 ->
  rocPointAt evaluations relevant cutoff
  = {| fpr := if negTest then 1%float else 0%float;
       tpr := if posTest then 1%float else 0%float |}.
Proof.
  intros Hm Hp Hn. unfold rocPointAt. rewrite Hm. cbn [tp fp tn fn].
  assert (H1 : forall n, 0 < n < 2 ^ 53 -> (Z2num n / Z2num n)%float = 1%float).
  { intros n Hn'. apply div_diag; [apply finite_Z2num; lia|].
    rewrite B2R_Z2num by lia. apply not_0_IZR. lia. }
  assert (H0 : forall n, 0 < n < 2 ^ 53 -> (Z2num 0 / Z2num n)%float = 0%float).
  { intros n Hn'. apply zero_div_count, Hn'. }
  destruct posTest, negTest; rewrite ?Z.add_0_r, ?Z.add_0_l;
    repeat match goal with
           | |- context [?n =? 0] =>
               replace (n =? 0) with false by (symmetry; apply Z.eqb_neq; lia)
           end;
    rewrite ?H1, ?H0 by assumption; reflexivity.
Qed.

Lemma relevant_counts evaluations cases :
  Z.of_nat (length cases) < 2 ^ 53 ->
  let relevant := relevantCasesOf evaluations cases in
  let positives := Z.of_nat (length (List.filter isCVMIPositive relevant)) in
  0 <= positives <= Z.of_nat (length relevant) /\ Z.of_nat (length relevant) < 2 ^ 53.
Proof.
  intros Hsize relevant positives.
  pose proof (filter_length_le isCVMIPositive relevant).
  pose proof (filter_length_le (fun c => hasFinal evaluations (caseNumber c)) cases).
  unfold positives, relevant, relevantCasesOf in *. lia.
Qed.

(** X6. A reader who gives every evaluated case the same final score does not
    discriminate: [calculateAUC] returns exactly 0.5, whatever the score and
    the cases. *)
Theorem calculateAUC_constant_score
    (evaluations : gmap Z Evaluation) (cases : list CaseData) (score : Z) :
  Z.of_nat (length cases) < 2 ^ 53 ->
  (forall c e, In c cases -> evaluations !! caseNumber c = Some e -> 0 < viradsFinal e ->
               viradsFinal e = score) ->
  calculateAUC evaluations cases = 0.5%float.
Proof.
  intros Hsize Hconst.
  destruct (relevant_counts evaluations cases Hsize) as [Hpos Hrel].
  unfold calculateAUC. rewrite relevantCases_eq.
  set (relevant := relevantCasesOf evaluations cases) in *.
  set (positives := Z.of_nat (length (List.filter isCVMIPositive relevant))) in *.
  destruct (Z.eqb_spec (Z.of_nat (length relevant)) 0); [reflexivity|].
  destruct (Z.eqb_spec positives 0); [reflexivity|].
  destruct (Z.eqb_spec (Z.of_nat (length relevant) - positives) 0); [reflexivity|].
  cbn [orb map].
  assert (Hpoint : forall cutoff,
            rocPointAt evaluations relevant cutoff
            = {| fpr := if cutoff <=? score then 1%float else 0%float;
                 tpr := if cutoff <=? score then 1%float else 0%float |}).
  { intros cutoff.
    apply (uniform_rocPoint evaluations relevant cutoff (cutoff <=? score) (cutoff <=? score)
             positives (Z.of_nat (length relevant) - positives)); [|lia|lia].
    apply uniform_matrix. intros c Hc.
    destruct (relevant_classified _ _ _ Hc) as (e & He & Hfin & Hcl & Hin).
    unfold cellOf. rewrite Hcl, (Hconst c e Hin He Hfin).
    destruct (isCVMIPositive c), (cutoff <=? score); reflexivity. }
  rewrite !Hpoint.
  destruct (2 <=? score), (3 <=? score), (4 <=? score), (5 <=? score); reflexivity.
Qed.

(** X7. A reader who scores every evaluated positive case 1 and every
    evaluated negative case 5, with at least one of each, has every cutoff
    wrong: [calculateAUC] returns exactly 0, the lower end of its range. *)
Theorem calculateAUC_inverted_separation
    (evaluations : gmap Z Evaluation) (cases : list CaseData) :
  Z.of_nat (length cases) < 2 ^ 53 ->
  (forall c e, In c cases -> evaluations !! caseNumber c = Some e -> 0 < viradsFinal e ->
               viradsFinal e = if isCVMIPositive c then 1 else 5) ->
  (exists c, In c cases /\ hasFinal evaluations (caseNumber c) = true
             /\ isCVMIPositive c = true) ->
  (exists c, In c cases /\ hasFinal evaluations (caseNumber c) = true
             /\ isCVMIPositive c = false) ->
  calculateAUC evaluations cases = 0%float.
Proof.
  intros Hsize Hinv (cp & Hcp & Hfp & Hpp) (cn & Hcn & Hfn & Hpn).
  destruct (relevant_counts evaluations cases Hsize) as [Hpos Hrel].
  unfold calculateAUC. rewrite relevantCases_eq.
  set (relevant := relevantCasesOf evaluations cases) in *.
  set (positives := Z.of_nat (length (List.filter isCVMIPositive relevant))) in *.
  pose proof (List.filter_length isCVMIPositive relevant) as Hlen.
  assert (Hp : 0 < positives).
  { unfold positives.
    assert (In cp (List.filter isCVMIPositive relevant)).
    { apply filter_In. split; [|exact Hpp]. apply filter_In. auto. }
    destruct (List.filter isCVMIPositive relevant); [contradiction|cbn [length]; lia]. }
  assert (Hn : 0 < Z.of_nat (length relevant) - positives).
  { assert (In cn (List.filter (fun x => negb (isCVMIPositive x)) relevant)).
    { apply filter_In. split; [apply filter_In; auto|]. rewrite Hpn. reflexivity. }
    destruct (List.filter (fun x => negb (isCVMIPositive x)) relevant);
      [contradiction|]. cbn [length] in Hlen. unfold positives. lia. }
  replace (Z.of_nat (length relevant) =? 0) with false by (symmetry; apply Z.eqb_neq; lia).
  replace (positives =? 0) with false by (symmetry; apply Z.eqb_neq; lia).
  replace (Z.of_nat (length relevant) - positives =? 0) with false
    by (symmetry; apply Z.eqb_neq; lia).
  cbn [orb map].
  assert (Hpoint : forall cutoff, 2 <= cutoff <= 5 ->
            rocPointAt evaluations relevant cutoff = {| fpr := 1; tpr := 0 |}).
  { intros cutoff Hcut.
    apply (uniform_rocPoint evaluations relevant cutoff false true
             positives (Z.of_nat (length relevant) - positives)); [|lia|lia].
    apply (uniform_matrix evaluations cases cutoff false true). intros c Hc.
    destruct (relevant_classified _ _ _ Hc) as (e & He & Hfin & Hcl & Hin).
    unfold cellOf. rewrite Hcl, (Hinv c e Hin He Hfin).
    destruct (isCVMIPositive c).
    - replace (cutoff <=? 1) with false by (symmetry; apply Z.leb_gt; lia). reflexivity.
    - replace (cutoff <=? 5) with true by (symmetry; apply Z.leb_le; lia). reflexivity. }
  rewrite !Hpoint by lia. reflexivity.
Qed.

(** * The sample statistics *)

Lemma sqrt_not_negative (v : float) : (sqrt v <? 0)%float = false.
Proof.
  rewrite FloatAxioms.ltb_spec, FloatAxioms.sqrt_spec.
  pose proof (Prim2SF_valid v) as Hv.
  destruct (Prim2SF v) as [s|[]| |[] m e]; try reflexivity.
  destruct (SFsqrt_positive m e Hv) as [(m' & e' & Hs)|Hs];
    unfold SF64sqrt; rewrite Hs; reflexivity.
Qed.

Lemma mul_positive_zero x : finite x = true -> (0 < B2R x)%R -> (x * 0)%float = 0%float.
Proof.
  intros Fx Hx. destruct (positive_finite_form x Fx Hx) as (m & e & Hf).
  apply Prim2SF_inj. rewrite FloatAxioms.mul_spec, Hf. reflexivity.
Qed.

Lemma zero_mul_positive x : finite x = true -> (0 < B2R x)%R -> (0 * x)%float = 0%float.
Proof.
  intros Fx Hx. destruct (positive_finite_form x Fx Hx) as (m & e & Hf).
  apply Prim2SF_inj. rewrite FloatAxioms.mul_spec, Hf. reflexivity.
Qed.

(** The sum of [n] copies of the integer [c]. *)
Lemma sum_constant (c : Z) (n : nat) (k : Z) :
  0 <= c -> 0 <= k -> (k + Z.of_nat n) * c < 2 ^ 53 ->
  fold_left (fun a b => (a + b)%float) (repeat (Z2num c) n) (Z2num (k * c))
  = Z2num ((k + Z.of_nat n) * c).
Proof.
  intros Hc. revert k. induction n as [|n IH]; intros k Hk Hsum; cbn [repeat fold_left].
  - f_equal. lia.
  - rewrite Z2num_add by nia.
    replace (k * c + c) with ((k + 1) * c) by lia.
    rewrite IH by lia. f_equal. lia.
Qed.

Lemma mean_constant (c : Z) (n : nat) :
  0 <= c -> (1 <= n)%nat -> Z.of_nat n * c < 2 ^ 53 -> Z.of_nat n < 2 ^ 53 ->
  mean (repeat (Z2num c) n) = Z2num c.
Proof.
  intros Hc Hn Hsum Hsize. unfold mean. rewrite repeat_length.
  destruct (Z.eqb_spec (Z.of_nat n) 0); [lia|].
  change 0%float with (Z2num (0 * c)).
  rewrite (sum_constant c n 0 Hc (Z.le_refl 0)) by (rewrite Z.add_0_l; exact Hsum).
  rewrite Z.add_0_l.
  destruct (Z.eq_dec c 0) as [->|Hne].
  - rewrite Z.mul_0_r. apply zero_div_count. lia.
  - assert (Hcn : c <= Z.of_nat n * c) by nia.
    pose proof (finite_Z2num (Z.of_nat n * c) ltac:(lia)) as Fs.
    pose proof (B2R_Z2num (Z.of_nat n * c) ltac:(lia)) as Vs.
    pose proof (finite_Z2num (Z.of_nat n) ltac:(lia)) as Fn.
    pose proof (B2R_Z2num (Z.of_nat n) ltac:(lia)) as Vn.
    pose proof (finite_Z2num c ltac:(lia)) as Fc.
    pose proof (B2R_Z2num c ltac:(lia)) as Vc.
    assert (Hnz : B2R (Z2num (Z.of_nat n)) <> 0%R) by (rewrite Vn; apply not_0_IZR; lia).
    destruct (faithful_Prim_exact _ _ (div_faithful _ _ Fs Fn Hnz)) as [Fq Vq].
    { rewrite Vs, Vn, mult_IZR.
      replace (IZR (Z.of_nat n) * IZR c / IZR (Z.of_nat n))%R with (IZR c)
        by (field; apply not_0_IZR; lia).
      apply format_IZR. lia. }
    apply B2R_inj; [exact Fq|exact Fc| |].
    + rewrite Vq, Vs, Vn, Vc, mult_IZR. field. apply not_0_IZR. lia.
    + rewrite Vq, Vs, Vn, mult_IZR.
      replace (IZR (Z.of_nat n) * IZR c / IZR (Z.of_nat n))%R with (IZR c)
        by (field; apply not_0_IZR; lia).
      apply not_0_IZR. lia.
Qed.

Section SampleStatistics.
Context {M : JSMath}.

Lemma stdDev_constant (c : Z) (n : nat) :
  Math_pow 0 2 = 0%float ->
  0 <= c -> Z.of_nat n * c < 2 ^ 53 -> Z.of_nat n < 2 ^ 53 ->
  stdDev (repeat (Z2num c) n) = 0%float.
Proof.
  intros Hpow Hc Hsum Hsize. unfold stdDev. rewrite repeat_length.
  destruct (Z.ltb_spec (Z.of_nat n) 2) as [|Hge]; [reflexivity|].
  rewrite mean_constant by (try assumption; lia).
  assert (Hfold : forall k : nat,
            fold_left (fun acc val => (acc + Math_pow (val - Z2num c) 2)%float)
                      (repeat (Z2num c) k) 0%float = 0%float).
  { induction k as [|k IH]; [reflexivity|]. cbn [repeat fold_left].
    rewrite sub_diag by (apply finite_Z2num; lia). rewrite Hpow.
    change (0 + 0)%float with 0%float. exact IH. }
  rewrite Hfold, zero_div_count by lia. reflexivity.
Qed.

(** X8. [stdDev] never returns a negative number, whatever the data and
    whatever [Math.pow] returns: its result is a square root or the 0 of a
    sample with fewer than two values. *)
Theorem stdDev_not_negative (data : list float) : (stdDev data <? 0)%float = false.
Proof.
  unfold stdDev. destruct (Z.of_nat (length data) <? 2); [reflexivity|].
  apply sqrt_not_negative.
Qed.

(** X9. Two samples that are each constant (n1 >= 2 times the whole number
    c1, n2 >= 2 times the whole number c2) have zero variance, and
    [tTestIndependent] answers with the statistic Infinity and the p-value 0,
    also when c1 = c2 and the samples do not differ at all. *)
Theorem tTestIndependent_constant_samples (c1 c2 : Z) (n1 n2 : nat) :
  Math_pow 0 2 = 0%float ->
  0 <= c1 -> 0 <= c2 -> (2 <= n1)%nat -> (2 <= n2)%nat ->
  Z.of_nat n1 * c1 < 2 ^ 53 -> Z.of_nat n2 * c2 < 2 ^ 53 ->
  Z.of_nat n1 + Z.of_nat n2 < 2 ^ 53 ->
  tTestIndependent (repeat (Z2num c1) n1) (repeat (Z2num c2) n2)
  = Some {| TTestResult.t := infinity;
            TTestResult.df := Z.of_nat n1 + Z.of_nat n2 - 2;
            TTestResult.p := 0 |}.
Proof.
  intros Hpow Hc1 Hc2 Hn1 Hn2 Hs1 Hs2 Hsize. unfold tTestIndependent.
  rewrite !repeat_length.
  destruct (Z.ltb_spec (Z.of_nat n1) 2); [lia|].
  destruct (Z.ltb_spec (Z.of_nat n2) 2); [lia|]. cbn [orb].
  rewrite !stdDev_constant by (try assumption; lia). rewrite Hpow.
  assert (Hz : forall k, 0 < k < 2 ^ 53 -> (Z2num k * 0)%float = 0%float).
  { intros k Hk. apply mul_positive_zero; [apply finite_Z2num; lia|].
    rewrite B2R_Z2num by lia. apply IZR_lt. lia. }
  rewrite !Hz by lia. change (0 + 0)%float with 0%float.
  rewrite zero_div_count by lia.
  assert (Hinv : within (1 / Z2num (Z.of_nat n1) + 1 / Z2num (Z.of_nat n2)) (bpow (-53))
                        (bpow (0 + 1))).
  { apply (add_within _ _ (-53) (-53) 0); try lia; apply reciprocal_count; lia. }
  destruct Hinv as [Fi [Hi _]]. pose proof (bpow_pos (-53)).
  rewrite zero_mul_positive by (try assumption; lra).
  reflexivity.
Qed.

End SampleStatistics.

(** * A statistic of zero *)

Lemma isZero_spec z : isZero z <-> exists s, Prim2SF z = S754_zero s.
Proof.
  split.
  - intros [->| ->]; eexists; reflexivity.
  - intros [[] Hs]; [right|left]; apply Prim2SF_inj; rewrite Hs; reflexivity.
Qed.

Lemma isZero_eqb z : (z =? 0)%float = true -> isZero z.
Proof.
  rewrite FloatAxioms.eqb_spec. intros H. apply isZero_spec.
  destruct (Prim2SF z) as [s|[]| |[] m e]; try discriminate H. exists s. reflexivity.
Qed.

Lemma isZero_mul y z : finite y = true -> isZero z -> isZero (y * z).
Proof.
  intros Fy Hz. apply isZero_spec in Hz as [s Hs]. apply isZero_spec.
  rewrite FloatAxioms.mul_spec, Hs. unfold finite in Fy.
  destruct (Prim2SF y) as [sy|sy| |sy m e]; try discriminate Fy; eexists; reflexivity.
Qed.

Lemma isZero_div z y : isZero z -> finite y = true -> B2R y <> 0%R -> isZero (z / y).
Proof.
  intros Hz Fy Hy. apply isZero_spec in Hz as [s Hs]. apply isZero_spec.
  rewrite FloatAxioms.div_spec, Hs. unfold finite, B2R in *.
  destruct (Prim2SF y) as [sy|sy| |sy m e]; try discriminate Fy.
  - exfalso. apply Hy. reflexivity.
  - eexists. reflexivity.
Qed.

Lemma one_plus_zero z : isZero z -> (1 + z)%float = 1%float.
Proof. intros [->| ->]; reflexivity. Qed.

Lemma one_minus_zero z : isZero z -> (1 - z)%float = 1%float.
Proof. intros [->| ->]; reflexivity. Qed.

(** What the loop of [betacf] makes of a term that is zero. *)
Lemma floor_FPMIN_zero_term z :
  isZero z ->
  floor_FPMIN (1.0 + z * 1) = 1%float /\ floor_FPMIN (1.0 + z / 1) = 1%float.
Proof. intros [->| ->]; split; reflexivity. Qed.

Lemma finite_opp y : finite (- y) = finite y.
Proof.
  unfold finite. rewrite FloatAxioms.opp_spec.
  destruct (Prim2SF y) as [s|s| |s m e]; reflexivity.
Qed.

(** Numbers of magnitude at most [2^k]. *)
Lemma format_opp r : format r -> format (- r).
Proof.
  intros (m & e & Hm & He & ->). exists (- m), e. split; [lia|]. split; [exact He|].
  symmetry. apply F2R_opp.
Qed.

Lemma add_magnitude x y k :
  within x (- bpow k) (bpow k) -> within y (- bpow k) (bpow k) -> -1074 <= k < 971 ->
  within (x + y) (- bpow (k + 1)) (bpow (k + 1)).
Proof.
  intros [Fx Hx] [Fy Hy] Hk.
  assert (Hb : bpow (k + 1) = (2 * bpow k)%R).
  { rewrite bpow_add, bpow_1. ring. }
  apply (faithful_Prim_bounds _ _ _ _ (add_faithful x y Fx Fy)).
  - apply format_opp, format_bpow. lia.
  - apply format_bpow. lia.
  - rewrite Hb. lra.
Qed.

Lemma sub_magnitude x y k :
  within x (- bpow k) (bpow k) -> within y (- bpow k) (bpow k) -> -1074 <= k < 971 ->
  within (x - y) (- bpow (k + 1)) (bpow (k + 1)).
Proof.
  intros [Fx Hx] [Fy Hy] Hk.
  assert (Hb : bpow (k + 1) = (2 * bpow k)%R).
  { rewrite bpow_add, bpow_1. ring. }
  apply (faithful_Prim_bounds _ _ _ _ (sub_faithful x y Fx Fy)).
  - apply format_opp, format_bpow. lia.
  - apply format_bpow. lia.
  - rewrite Hb. lra.
Qed.

Lemma mul_magnitude x y j k :
  within x (- bpow j) (bpow j) -> within y (- bpow k) (bpow k) ->
  -1074 <= j + k <= 971 ->
  within (x * y) (- bpow (j + k)) (bpow (j + k)).
Proof.
  intros [Fx Hx] [Fy Hy] Hk.
  pose proof (bpow_pos j). pose proof (bpow_pos k).
  apply (faithful_Prim_bounds _ _ _ _ (mul_faithful x y Fx Fy)).
  - apply format_opp, format_bpow. lia.
  - apply format_bpow. lia.
  - rewrite bpow_add. split; nra.
Qed.

Lemma magnitude_weaken x j k :
  within x (- bpow j) (bpow j) -> j <= k -> within x (- bpow k) (bpow k).
Proof.
  intros [Fx Hx] Hjk. pose proof (bpow_le j k Hjk). split; [exact Fx|lra].
Qed.

Lemma within_one : within 1 (- bpow 0) (bpow 0).
Proof. split; [reflexivity|]. rewrite B2R_one, bpow_0. lra. Qed.

Lemma within_two : within 2 (- bpow 1) (bpow 1).
Proof. split; [reflexivity|]. rewrite B2R_two, bpow_1. lra. Qed.

(** A sum with a number that is at least 1 and a non-negative one. *)
Lemma add_at_least x y k lo :
  within x 0 (bpow k) -> finite y = true -> (IZR lo <= B2R y <= bpow k)%R ->
  0 < lo < 2 ^ 53 -> 0 <= k < 971 ->
  within (x + y) (IZR lo) (bpow (k + 1)).
Proof.
  intros [Fx Hx] Fy Hy Hlo Hk.
  assert (Hb : bpow (k + 1) = (2 * bpow k)%R).
  { rewrite bpow_add, bpow_1. ring. }
  apply (faithful_Prim_bounds _ _ _ _ (add_faithful x y Fx Fy)).
  - apply format_IZR. lia.
  - apply format_bpow. lia.
  - rewrite Hb. lra.
Qed.

Lemma add_above_one x y k :
  within x 0 (bpow k) -> within y (bpow 0) (bpow k) -> 0 <= k < 971 ->
  within (x + y) (bpow 0) (bpow (k + 1)).
Proof.
  intros [Fx Hx] [Fy Hy] Hk.
  assert (Hb : bpow (k + 1) = (2 * bpow k)%R).
  { rewrite bpow_add, bpow_1. ring. }
  apply (faithful_Prim_bounds _ _ _ _ (add_faithful x y Fx Fy)).
  - apply format_bpow. lia.
  - apply format_bpow. lia.
  - rewrite Hb. lra.
Qed.

Lemma within_nonzero x k j : within x (bpow k) (bpow j) -> B2R x <> 0%R.
Proof. intros [_ Hx]. pose proof (bpow_pos k). lra. Qed.

Lemma within_magnitude x lo k :
  within x lo (bpow k) -> (- bpow k <= lo)%R -> within x (- bpow k) (bpow k).
Proof. intros [Fx Hx] Hlo. split; [exact Fx|lra]. Qed.

(** At [x = 0] every term of the continued fraction vanishes and the loop
    stops in its first round with the value 1. *)
Lemma betacf_rounds_at_zero (rounds : nat) (x a b : float) :
  isZero x -> within a 0 (bpow 100) -> within b (- bpow 100) (bpow 100) ->
  floor_FPMIN (1.0 - (a + b) * x / (a + 1.0)) = 1%float /\
  betacf_loop (S rounds) 1 x a b (a + b) (a + 1.0) (a - 1.0) 1 1 1 = 1%float.
Proof.
  intros Hx Ha Hb. pose proof (bpow_pos 100) as Hp100.
  assert (Ha' : within a (- bpow 100) (bpow 100)) by (apply (within_magnitude a 0 100 Ha); lra).
  assert (H1 : within 1 (bpow 0) (bpow 100)).
  { split; [reflexivity|]. rewrite B2R_one, bpow_0. pose proof (bpow_le 0 100 ltac:(lia)).
    rewrite bpow_0 in *. lra. }
  assert (H2 : within 2 (bpow 0) (bpow 101)).
  { split; [reflexivity|]. rewrite B2R_two, bpow_0. pose proof (bpow_le 1 101 ltac:(lia)).
    rewrite bpow_1 in *. lra. }
  assert (H1m : within 1 (- bpow 101) (bpow 101)).
  { apply (magnitude_weaken _ 0); [exact within_one|lia]. }
  assert (Za : within a 0 (bpow 101)).
  { destruct Ha as [Fa Hav]. pose proof (bpow_le 100 101 ltac:(lia)). split; [exact Fa|lra]. }
  (* the numbers the loop combines *)
  assert (Qab : within (a + b) (- bpow 101) (bpow 101)) by (apply (add_magnitude a b 100); auto; lia).
  assert (Qap : within (a + 1) (bpow 0) (bpow 101)) by (apply (add_above_one a 1 100); auto; lia).
  assert (Qam : within (a - 1) (- bpow 0) (bpow 101)).
  { destruct Ha as [Fa Hav]. pose proof (sub_faithful a 1 Fa eq_refl) as Hf.
    rewrite B2R_one in Hf. pose proof (bpow_le 100 101 ltac:(lia)).
    apply (faithful_Prim_bounds _ _ _ _ Hf).
    - apply format_opp, format_bpow. lia.
    - apply format_bpow. lia.
    - rewrite bpow_0. lra. }
  assert (Qam2 : within (a - 1 + 2) (bpow 0) (bpow 102)).
  { destruct Qam as [Fq Hq]. pose proof (add_faithful (a - 1) 2 Fq eq_refl) as Hf.
    rewrite B2R_two in Hf. pose proof (bpow_le 101 102 ltac:(lia)).
    assert (Hb102 : bpow 102 = (2 * bpow 101)%R).
    { change 102 with (101 + 1). rewrite bpow_add, bpow_1. ring. }
    pose proof (bpow_le 1 101 ltac:(lia)) as Hb1. rewrite bpow_1 in Hb1.
    apply (faithful_Prim_bounds _ _ _ _ Hf).
    - apply format_bpow. lia.
    - apply format_bpow. lia.
    - rewrite bpow_0 in *. lra. }
  assert (A2 : within (a + 2) (bpow 0) (bpow 102)) by (apply (add_above_one a 2 101); auto; lia).
  assert (Qap2 : within (a + 1 + 2) (bpow 0) (bpow 102)).
  { apply (add_above_one (a + 1) 2 101); auto; [|lia].
    destruct Qap as [F Hv]. rewrite bpow_0 in Hv. split; [exact F|lra]. }
  assert (D1 : within ((a - 1 + 2) * (a + 2)) (bpow (0 + 0)) (bpow (102 + 102)))
    by (apply mul_within; auto; lia).
  assert (D2 : within ((a + 2) * (a + 1 + 2)) (bpow (0 + 0)) (bpow (102 + 102)))
    by (apply mul_within; auto; lia).
  assert (B1 : within (b - 1) (- bpow 102) (bpow 102)).
  { apply (sub_magnitude b 1 101); [|exact H1m|lia].
    apply (magnitude_weaken _ 100); [exact Hb|lia]. }
  assert (N1 : finite (1 * (b - 1)) = true).
  { apply (mul_magnitude 1 (b - 1) 0 102 within_one B1). lia. }
  assert (Qab1 : within (a + b + 1) (- bpow 102) (bpow 102)).
  { apply (add_magnitude (a + b) 1 101); auto. lia. }
  assert (N2 : finite (- (a + 1) * (a + b + 1)) = true).
  { assert (Hneg : within (- (a + 1)) (- bpow 101) (bpow 101)).
    { destruct Qap as [F Hv]. split; [rewrite finite_opp; exact F|].
      unfold B2R. rewrite FloatAxioms.opp_spec. fold (B2R (a + 1)) in *.
      unfold B2R in Hv. destruct (Prim2SF (a + 1)) as [s|s| |s m e]; cbn [SFopp SF2R] in *;
        try (pose proof (bpow_pos 101); pose proof (bpow_pos 0); lra).
      destruct s; cbn [negb cond_Zopp] in *; rewrite ?F2R_opp in *;
        pose proof (bpow_pos 0); lra. }
    apply (mul_magnitude _ _ 101 102 Hneg Qab1). lia. }
  (* the terms *)
  assert (T0 : isZero ((a + b) * x / (a + 1))).
  { apply isZero_div; [apply isZero_mul; [apply Qab|exact Hx]|apply Qap|].
    eapply within_nonzero, Qap. }
  assert (T1 : isZero (1 * (b - 1) * x / ((a - 1 + 2) * (a + 2)))).
  { apply isZero_div; [apply isZero_mul; [exact N1|exact Hx]|apply D1|].
    eapply within_nonzero, D1. }
  assert (T2 : isZero (- (a + 1) * (a + b + 1) * x / ((a + 2) * (a + 1 + 2)))).
  { apply isZero_div; [apply isZero_mul; [exact N2|exact Hx]|apply D2|].
    eapply within_nonzero, D2. }
  split.
  - rewrite (one_minus_zero _ T0). reflexivity.
  - cbn [betacf_loop].
    change (Z2num 1) with 1%float. change (Z2num (2 * 1)) with 2%float.
    destruct (floor_FPMIN_zero_term _ T1) as [E1 E2].
    rewrite E1, E2. change (1.0 / 1)%float with 1%float.
    destruct (floor_FPMIN_zero_term _ T2) as [E3 E4].
    rewrite E3, E4. reflexivity.
Qed.

Lemma betacf_at_zero (x a b : float) :
  isZero x -> within a 0 (bpow 100) -> within b (- bpow 100) (bpow 100) ->
  betacf x a b = 1%float.
Proof.
  intros Hx Ha Hb.
  destruct (betacf_rounds_at_zero 99 x a b Hx Ha Hb) as [Hd Hloop].
  unfold betacf. rewrite Hd. change (1.0 / 1)%float with 1%float.
  change MAXIT with (S 99). exact Hloop.
Qed.

Section ZeroStatistic.
Context {M : JSMath}.

(** The p-value of a statistic of zero: the incomplete beta function at 1. *)
Lemma betinc_at_one (df : Z) :
  1 <= df < 2 ^ 50 -> betinc 1 (Z2num df / 2) 0.5 = 1%float.
Proof.
  intros Hdf. destruct (half_count df ltac:(lia)) as [Fh Vh].
  assert (Hdfpos : (1 <= IZR df)%R) by (apply IZR_le; lia).
  assert (Hdfmax : (IZR df <= bpow 50)%R).
  { rewrite bpow_Z by lia. apply IZR_le. lia. }
  pose proof (bpow_le 50 100 ltac:(lia)) as H50.
  (* the guard *)
  destruct (faithful_Prim_exact _ _ (add_faithful _ 1 Fh eq_refl)) as [F1 V1].
  { rewrite Vh, B2R_one. replace (IZR df / 2 + 1)%R with (IZR (df + 2) / 2)%R
      by (rewrite plus_IZR; lra). apply format_half. lia. }
  destruct (faithful_Prim_exact _ _ (add_faithful _ 0.5 Fh eq_refl)) as [F2 V2].
  { rewrite Vh, B2R_half. replace (IZR df / 2 + 1 / 2)%R with (IZR (df + 1) / 2)%R
      by (rewrite plus_IZR; lra). apply format_half. lia. }
  destruct (faithful_Prim_exact _ _ (add_faithful _ 2 F2 eq_refl)) as [F3 V3].
  { rewrite V2, Vh, B2R_half, B2R_two.
    replace (IZR df / 2 + 1 / 2 + 2)%R with (IZR (df + 5) / 2)%R
      by (rewrite plus_IZR; lra). apply format_half. lia. }
  rewrite V2, Vh, B2R_half, B2R_two in V3. rewrite Vh, B2R_one in V1.
  assert (Hnz : B2R (Z2num df / 2 + 0.5 + 2) <> 0%R) by (rewrite V3; lra).
  destruct (faithful_Prim_bounds _ _ 0 1 (div_faithful _ _ F1 F3 Hnz) format_0 format_1)
    as [Fq Hq].
  { rewrite V1, V3. split.
    - apply Rmult_le_pos; [lra|]. apply Rlt_le, Rinv_0_lt_compat. lra.
    - apply (Rmult_le_reg_r (IZR df / 2 + 1 / 2 + 2)); [lra|].
      unfold Rdiv at 1. rewrite Rmult_assoc, Rinv_l by lra. lra. }
  assert (Hguard : (1 <? (Z2num df / 2 + 1) / (Z2num df / 2 + 0.5 + 2))%float = false).
  { destruct (1 <? _)%float eqn:E; [|reflexivity].
    apply (ltb_B2R 1 _ eq_refl Fq) in E. rewrite B2R_one in E. lra. }
  unfold betinc. change ((1 =? 0)%float || (1 =? 1)%float) with true. cbn iota.
  rewrite Hguard. change (1 - 1)%float with 0%float.
  rewrite betacf_at_zero; [reflexivity|left; reflexivity| |].
  - split; [reflexivity|]. rewrite B2R_half.
    pose proof (bpow_le 0 100 ltac:(lia)) as H0. rewrite bpow_0 in H0. lra.
  - split; [exact Fh|]. rewrite Vh. lra.
Qed.

Lemma zero_statistic_p (df : Z) (t : float) :
  1 <= df < 2 ^ 50 -> (t =? 0)%float = true ->
  betinc (Z2num df / (Z2num df + t * t)) (Z2num df / 2) 0.5 = 1%float.
Proof.
  intros Hdf Ht. apply isZero_eqb in Ht.
  assert (Htt : (t * t)%float = 0%float) by (destruct Ht as [->| ->]; reflexivity).
  rewrite Htt.
  pose proof (finite_Z2num df ltac:(lia)) as Fd. pose proof (B2R_Z2num df ltac:(lia)) as Vd.
  assert (Hnz : B2R (Z2num df) <> 0%R) by (rewrite Vd; apply not_0_IZR; lia).
  rewrite add_zero_r by (auto; reflexivity).
  rewrite div_diag by assumption. apply betinc_at_one, Hdf.
Qed.

(** X10. Whenever [tTestIndependent] or [tTestPaired] returns a statistic t
    that is zero, the p-value it returns with it is exactly 1: the incomplete
    beta function is taken at 1, where its continued fraction stops at once
    and no approximated function is called. *)
Theorem tTest_zero_statistic (sample1 sample2 : list float) (r : TTestResult) :
  Z.of_nat (length sample1) < 2 ^ 32 -> Z.of_nat (length sample2) < 2 ^ 32 ->
  tTestIndependent sample1 sample2 = Some r \/ tTestPaired sample1 sample2 = Some r ->
  (TTestResult.t r =? 0)%float = true ->
  TTestResult.p r = 1%float.
Proof.
  intros H1 H2 [Hr|Hr] Ht.
  - unfold tTestIndependent in Hr.
    destruct (Z.ltb_spec (Z.of_nat (length sample1)) 2); [discriminate Hr|].
    destruct (Z.ltb_spec (Z.of_nat (length sample2)) 2); [discriminate Hr|].
    cbn [orb] in Hr.
    destruct (_ =? 0)%float in Hr; injection Hr as <-; cbn [TTestResult.t TTestResult.p] in *.
    + discriminate Ht.
    + apply zero_statistic_p; [lia|exact Ht].
  - unfold tTestPaired in Hr.
    destruct (Z.eqb_spec (Z.of_nat (length sample1)) (Z.of_nat (length sample2)));
      [|discriminate Hr].
    destruct (Z.ltb_spec (Z.of_nat (length sample1)) 2); [discriminate Hr|].
    cbn [negb orb] in Hr.
    destruct (_ =? 0)%float in Hr; injection Hr as <-; cbn [TTestResult.t TTestResult.p] in *.
    + discriminate Ht.
    + apply zero_statistic_p; [lia|exact Ht].
Qed.

End ZeroStatistic.

(** * The early returns of the z-test *)

Section ZTestGuards.
Context {M : JSMath}.

(** X11. On counts, [zTestForProportions] returns exactly 1, without calling
    the normal distribution, whenever a total is 0, or no success was
    observed in either sample, or nothing but successes: no division by zero
    reaches the result. *)
Theorem zTestForProportions_degenerate (s1 t1 s2 t2 : Z) :
  0 <= s1 <= t1 -> 0 <= s2 <= t2 -> t1 + t2 < 2 ^ 53 ->
  t1 = 0 \/ t2 = 0 \/ s1 + s2 = 0 \/ s1 + s2 = t1 + t2 ->
  zTestForProportions (Z2num s1) (Z2num t1) (Z2num s2) (Z2num t2) = 1%float.
Proof.
  intros H1 H2 Hsize Hcase. unfold zTestForProportions.
  destruct (Z.eq_dec t1 0) as [->|Ht1]; [reflexivity|].
  destruct (Z.eq_dec t2 0) as [->|Ht2].
  { change (Z2num 0 =? 0)%float with true. rewrite orb_true_r. reflexivity. }
  rewrite (eqb_false_of_value (Z2num t1) 0), (eqb_false_of_value (Z2num t2) 0);
    try reflexivity; try (apply finite_Z2num; lia);
    try (rewrite B2R_Z2num by lia; apply not_0_IZR; lia).
  cbn [orb]. unfold zTest_pPooled. rewrite !Z2num_add by lia.
  destruct Hcase as [?|[?|[H0|Hall]]]; try lia.
  - rewrite H0. change (Z2num 0) with 0%float. rewrite zero_div_count by lia. reflexivity.
  - rewrite Hall, div_diag.
    + reflexivity.
    + apply finite_Z2num. lia.
    + rewrite B2R_Z2num by lia. apply not_0_IZR. lia.
Qed.

End ZTestGuards.

(** * The time analysis *)

Lemma keys_ascending_elem {A : Type} (o : gmap Z A) (k : Z) :
  k ∈ Object_keys_ascending o <-> is_Some (o !! k).
Proof.
  unfold Object_keys_ascending. rewrite merge_sort_Permutation.
  rewrite <- includes_Object_keys. unfold includes. rewrite bool_decide_eq_true. tauto.
Qed.

Lemma keys_ascending_sorted {A : Type} (o : gmap Z A) :
  StronglySorted Z.le (Object_keys_ascending o).
Proof.
  apply StronglySorted_merge_sort.
  - intros x y z. apply Z.le_trans.
  - intros x y. apply Z.le_total.
Qed.

Lemma keys_ascending_NoDup {A : Type} (o : gmap Z A) : NoDup (Object_keys_ascending o).
Proof.
  unfold Object_keys_ascending, Object_keys. rewrite merge_sort_Permutation.
  apply NoDup_fst_map_to_list.
Qed.

Lemma filter_none {A : Type} (f : A -> bool) (l : list A) :
  (forall x, In x l -> f x = false) -> List.filter f l = [].
Proof.
  induction l as [|x l IH]; intros H; [reflexivity|]. cbn [List.filter].
  rewrite (H x (or_introl eq_refl)). apply IH. intros y Hy. apply H. right. exact Hy.
Qed.

(** [Object.keys] lists the keys of the object, whatever the order of
    creation it is given. *)
Lemma keys_created_elem {A : Type} (created : list Z) (o : gmap Z A) (k : Z) :
  In k (Object_keys_created created o) <-> is_Some (o !! k).
Proof.
  unfold Object_keys_created. rewrite !in_app_iff, !filter_In.
  rewrite <- !list_elem_of_In, keys_ascending_elem. split.
  - intros [[H _]|[[_ H]|[H _]]]; try exact H.
    apply andb_true_iff in H as [_ H]. apply bool_decide_eq_true in H. exact H.
  - intros H. destruct (isArrayIndex k) eqn:Hk; [left; split; [exact H|reflexivity]|].
    right. destruct (decide (k ∈ created)) as [Hc|Hc].
    + left. split; [exact Hc|]. cbn [negb andb]. apply bool_decide_eq_true. exact H.
    + right. split; [exact H|]. cbn [negb andb].
      rewrite bool_decide_eq_false_2 by exact Hc. reflexivity.
Qed.

(** When the other keys were created in ascending order, or there are none,
    the order of [Object.keys] is fixed by the keys alone: the array indices
    in ascending order, then the other keys in ascending order. *)
Lemma keys_created_canonical {A : Type} (created : list Z) (o : gmap Z A) :
  created = Object_keys_ascending o \/
  (forall k, is_Some (o !! k) -> isArrayIndex k = true) ->
  Object_keys_created created o
  = List.filter isArrayIndex (Object_keys_ascending o)
    ++ List.filter (fun k => negb (isArrayIndex k)) (Object_keys_ascending o).
Proof.
  unfold Object_keys_created. intros [->|Hidx]; f_equal.
  - rewrite (filter_none (fun k => negb (isArrayIndex k) && negb (bool_decide _))).
    + rewrite app_nil_r. apply List.filter_ext_in. intros k Hk.
      apply list_elem_of_In, keys_ascending_elem in Hk.
      rewrite (bool_decide_eq_true_2 _ Hk). apply andb_true_r.
    + intros k Hk. apply list_elem_of_In in Hk.
      rewrite (bool_decide_eq_true_2 _ Hk). apply andb_false_r.
  - assert (Hin : forall k, In k (Object_keys_ascending o) -> negb (isArrayIndex k) = false).
    { intros k Hk. apply list_elem_of_In, keys_ascending_elem in Hk.
      rewrite (Hidx k Hk). reflexivity. }
    rewrite !filter_none; [reflexivity| | |].
    + exact Hin.
    + intros k Hk. rewrite (Hin k Hk). reflexivity.
    + intros k _. destruct (decide (is_Some (o !! k))) as [Hk|Hk].
      * rewrite (Hidx k Hk). reflexivity.
      * rewrite (bool_decide_eq_false_2 _ Hk). apply andb_false_r.
Qed.

(** Both slices cut the list at the same place. *)
Lemma slices_at {A : Type} (arr : list A) (x : float) :
  exists n, slice_to_ceil arr x = firstn n arr /\ slice_from_ceil arr x = skipn n arr.
Proof.
  unfold slice_to_ceil, slice_from_ceil.
  destruct (Prim2SF x) as [s|[]| |s m e].
  - destruct (ceilZ x <? 0); eexists; split; reflexivity.
  - exists 0%nat. split; reflexivity.
  - exists (length arr). split; [symmetry; apply firstn_all|symmetry; apply skipn_all].
  - exists 0%nat. split; reflexivity.
  - destruct (ceilZ x <? 0); eexists; split; reflexivity.
Qed.

Lemma fold_insert_other (userEvals acc : gmap Z Evaluation) (keys : list Z) (k : Z) :
  k ∉ keys ->
  fold_left (fun filteredEvals key =>
               match userEvals !! key with
               | Some e => <[key := e]> filteredEvals
               | None => filteredEvals
               end) keys acc !! k = acc !! k.
Proof.
  revert acc. induction keys as [|key keys IH]; intros acc Hk; [reflexivity|].
  cbn [fold_left]. apply not_elem_of_cons in Hk as [Hne Hk]. rewrite IH by exact Hk.
  destruct (userEvals !! key); [|reflexivity]. apply lookup_insert_ne. congruence.
Qed.

(** X12. The evaluations the time analysis keeps of a reader are evaluations
    of that reader, unchanged; at 100 percent all are kept; below, the ones
    kept are those of the lowest case numbers: every case kept comes before
    every case left out. *)
Theorem getFilteredEvaluations_keeps_first
    (timeAnalysisCasePercentage : Z) (userEvals : gmap Z Evaluation) :
  let filtered := getFilteredEvaluations timeAnalysisCasePercentage userEvals in
  (forall k e, filtered !! k = Some e -> userEvals !! k = Some e) /\
  (timeAnalysisCasePercentage = 100 -> filtered = userEvals) /\
  (forall k j, is_Some (filtered !! k) -> is_Some (userEvals !! j) ->
               filtered !! j = None -> k < j).
Proof.
  intros filtered. unfold filtered, getFilteredEvaluations.
  destruct (Z.eqb_spec timeAnalysisCasePercentage 100) as [H100|Hne].
  { split; [auto|]. split; [reflexivity|]. intros k j _ [e He] Hn. congruence. }
  fold (Object_keys_ascending userEvals).
  set (sortedKeys := Object_keys_ascending userEvals).
  destruct (slices_at sortedKeys
              (Z2num (Z.of_nat (length sortedKeys))
               * (Z2num timeAnalysisCasePercentage / 100))%float) as (n & -> & _).
  set (result := fold_left _ (firstn n sortedKeys) ∅).
  assert (Hin : forall k, k ∈ firstn n sortedKeys -> result !! k = userEvals !! k).
  { intros k Hk. apply partialEvals_fold; [|left; exact Hk].
    intros j e Hj. rewrite lookup_empty in Hj. discriminate. }
  assert (Hout : forall k, k ∉ firstn n sortedKeys -> result !! k = None).
  { intros k Hk. unfold result. rewrite fold_insert_other by exact Hk. apply lookup_empty. }
  assert (Hdec : forall k, k ∈ firstn n sortedKeys \/ k ∉ firstn n sortedKeys).
  { intros k. destruct (decide (k ∈ firstn n sortedKeys)); auto. }
  split; [|split; [intros; contradiction|]].
  - intros k e Hk. destruct (Hdec k) as [Hi|Ho].
    + rewrite <- (Hin k Hi). exact Hk.
    + rewrite (Hout k Ho) in Hk. discriminate.
  - intros k j [e He] Hj Hn.
    assert (Hk : k ∈ firstn n sortedKeys).
    { destruct (Hdec k) as [Hi|Ho]; [exact Hi|]. rewrite (Hout k Ho) in He. discriminate. }
    assert (Hj' : j ∈ skipn n sortedKeys).
    { pose proof (proj2 (keys_ascending_elem userEvals j) Hj) as Hmem.
      fold sortedKeys in Hmem. rewrite <- (firstn_skipn n sortedKeys) in Hmem.
      apply elem_of_app in Hmem as [Hmem|Hmem]; [|exact Hmem].
      rewrite (Hin j Hmem) in Hn. destruct Hj as [? Hj]. congruence. }
    pose proof (keys_ascending_sorted userEvals) as Hs. fold sortedKeys in Hs.
    rewrite <- (firstn_skipn n sortedKeys) in Hs.
    pose proof (StronglySorted_app_1_elem_of _ _ _ k j Hs Hk Hj') as Hle.
    assert (k <> j); [|lia]. intros ->.
    rewrite (Hin j Hk) in Hn. destruct Hj as [? Hj]. congruence.
Qed.

Lemma ceilZ_exact (x : float) (n : Z) : finite x = true -> B2R x = IZR n -> ceilZ x = n.
Proof.
  unfold finite, B2R, ceilZ. destruct (Prim2SF x) as [s|s| |s m e]; try discriminate.
  - intros _ H. cbn [SF2R] in H. symmetry. apply eq_IZR. exact (eq_sym H).
  - intros _ H. cbn [SF2R] in H. set (v := cond_Zopp s (Z.pos m)) in *.
    destruct (Z.leb_spec 0 e) as [He|He].
    + apply eq_IZR. rewrite <- H. unfold F2R. rewrite bpow_Z, mult_IZR by lia. reflexivity.
    + assert (Hv : v = n * 2 ^ (- e)).
      { apply eq_IZR. rewrite mult_IZR, <- H. unfold F2R.
        rewrite <- (bpow_Z (- e)) by lia. rewrite Rmult_assoc, <- bpow_add.
        replace (e + - e) with 0 by lia. rewrite bpow_0. ring. }
      rewrite Hv. pose proof (Z.pow_pos_nonneg 2 (- e) ltac:(lia) ltac:(lia)).
      replace (- (n * 2 ^ (- e))) with ((- n) * 2 ^ (- e)) by ring.
      rewrite Z.div_mul by lia. lia.
Qed.

Lemma mul_one_r x : finite x = true -> (x * 1)%float = x.
Proof.
  intros Fx. destruct (Req_dec (B2R x) 0) as [Hz|Hnz].
  - destruct (B2R_zero x Fx Hz) as [s Hs]. apply Prim2SF_inj.
    rewrite FloatAxioms.mul_spec, Hs. destruct s; reflexivity.
  - destruct (faithful_Prim_exact (x * 1) _ (mul_faithful x 1 Fx eq_refl)) as [Ff Hv].
    + rewrite B2R_one, Rmult_1_r. apply format_B2R.
    + apply B2R_inj; auto; rewrite Hv, B2R_one; lra.
Qed.

(** Cutting a list at all of its length. *)
Lemma slices_at_full {A : Type} (arr : list A) :
  Z.of_nat (length arr) < 2 ^ 53 ->
  let x := (Z2num (Z.of_nat (length arr)) * (Z2num 100 / 100))%float in
  slice_to_ceil arr x = arr /\ slice_from_ceil arr x = [].
Proof.
  intros Hlen x.
  pose proof (finite_Z2num (Z.of_nat (length arr)) ltac:(lia)) as Fn.
  pose proof (B2R_Z2num (Z.of_nat (length arr)) ltac:(lia)) as Vn.
  assert (Hx : x = Z2num (Z.of_nat (length arr))).
  { unfold x. change (Z2num 100 / 100)%float with 1%float. apply mul_one_r, Fn. }
  rewrite Hx. pose proof (ceilZ_exact _ _ Fn Vn) as Hc.
  unfold slice_to_ceil, slice_from_ceil. rewrite Hc. unfold finite in Fn.
  destruct (Prim2SF (Z2num (Z.of_nat (length arr)))) as [s|s| |s m e]; try discriminate;
    (destruct (Z.ltb_spec (Z.of_nat (length arr)) 0); [lia|]);
    rewrite Nat2Z.id; split; [apply firstn_all|apply skipn_all|apply firstn_all|apply skipn_all].
Qed.

Lemma timesAt_length (evals : gmap Z Evaluation) (keys : list Z) :
  (forall k, In k keys -> is_Some (evals !! k)) ->
  length (timesAt evals keys) = length keys.
Proof.
  unfold timesAt. induction keys as [|k keys IH]; intros H; [reflexivity|].
  cbn [omap list_omap]. destruct (H k (or_introl eq_refl)) as [e He]. rewrite He.
  cbn [fmap option_fmap option_map length]. f_equal. apply IH. intros j Hj. apply H. right. exact Hj.
Qed.

Section TimeAnalysisResults.
Context {M : JSMath}.
Variable allEvaluations : gmap string (gmap Z Evaluation).
Variable createdKeys : string -> list Z.
Variable allUsers : list User.
Variables timeUser1 timeUser2 : string.
Variable comparisonPercentage : Z.
Variables expGroup1 expGroup2 : string.
Variable timeAnalysisCasePercentage : Z.

Let data : TimeAnalysisData :=
  timeAnalysisData allEvaluations createdKeys allUsers timeUser1 timeUser2
                   comparisonPercentage expGroup1 expGroup2 timeAnalysisCasePercentage.
Let times : list float :=
  learningCurveTimes allEvaluations createdKeys allUsers timeUser1
                     timeAnalysisCasePercentage.
Let cutAt : float :=
  splitIndex allEvaluations createdKeys allUsers timeUser1 comparisonPercentage
             timeAnalysisCasePercentage.

Lemma timeAnalysisData_halves :
  firstHalfTimes data = slice_to_ceil times cutAt /\
  secondHalfTimes data = slice_from_ceil times cutAt /\
  learningCurveResult data
  = tTestIndependent (slice_to_ceil times cutAt) (slice_from_ceil times cutAt).
Proof.
  unfold data, timeAnalysisData. destruct (pairedComparison _ _ _ _ _ _) as [[? ?] ?].
  repeat split; reflexivity.
Qed.

Lemma timeAnalysisData_paired :
  (user1PairedTimes data, user2PairedTimes data, pairedTestResult data)
  = pairedComparison allEvaluations createdKeys allUsers timeUser1 timeUser2
                     timeAnalysisCasePercentage.
Proof.
  unfold data, timeAnalysisData. destruct (pairedComparison _ _ _ _ _ _) as [[? ?] ?].
  reflexivity.
Qed.

(** X13. The learning curve is cut in two without losing or repeating a time:
    the first part followed by the second is the whole list.  The test of the
    two parts has no result exactly when one of them has fewer than two
    times, which is always so at 100 percent, where the second part is
    empty. *)
Theorem learningCurve_split :
  firstHalfTimes data ++ secondHalfTimes data = times /\
  (learningCurveResult data = None <->
     (length (firstHalfTimes data) < 2)%nat \/ (length (secondHalfTimes data) < 2)%nat) /\
  (comparisonPercentage = 100 -> Z.of_nat (length times) < 2 ^ 53 ->
     firstHalfTimes data = times /\ secondHalfTimes data = [] /\
     learningCurveResult data = None).
Proof.
  destruct timeAnalysisData_halves as (H1 & H2 & H3). rewrite H1, H2, H3.
  assert (Hnone : forall a b : list float,
            tTestIndependent a b = None <-> (length a < 2)%nat \/ (length b < 2)%nat).
  { intros a b. unfold tTestIndependent.
    destruct (Z.ltb_spec (Z.of_nat (length a)) 2), (Z.ltb_spec (Z.of_nat (length b)) 2);
      cbn [orb]; try (split; [intros _; lia|reflexivity]).
    destruct (_ =? 0)%float; split; try discriminate; lia. }
  split; [|split].
  - destruct (slices_at times cutAt) as (n & -> & ->). apply firstn_skipn.
  - apply Hnone.
  - intros H100 Hlen. unfold cutAt, splitIndex. fold times. rewrite H100.
    destruct (slices_at_full times Hlen) as [-> ->].
    split; [reflexivity|]. split; [reflexivity|]. apply Hnone. right. cbn. lia.
Qed.

(** X14. The two samples of the comparison of readers always have the same
    number of times, one pair per case, so the paired test never fails on
    unequal lengths: it has no result exactly when the two selections are the
    same or empty, or when fewer than two cases can be paired. *)
Theorem pairedComparison_pairs :
  length (user1PairedTimes data) = length (user2PairedTimes data) /\
  (pairedTestResult data = None <->
     timeUser1 = timeUser2 \/ timeUser1 = "" \/ timeUser2 = "" \/
     (length (user1PairedTimes data) < 2)%nat).
Proof.
  pose proof timeAnalysisData_paired as Hd.
  assert (Hnone : forall a b : list float, length a = length b ->
            (tTestPaired a b = None <-> (length a < 2)%nat)).
  { intros a b Hab. unfold tTestPaired. rewrite Hab, Z.eqb_refl. cbn [negb orb].
    destruct (Z.ltb_spec (Z.of_nat (length b)) 2); [split; [lia|reflexivity]|].
    destruct (_ =? 0)%float; split; try discriminate; lia. }
  assert (Hkeys : forall created (evals : gmap Z Evaluation) (f : Z -> bool) k,
            In k (List.filter f (Object_keys_created created evals)) ->
            is_Some (evals !! k)).
  { intros created evals f k Hk. apply filter_In in Hk as [Hk _].
    apply keys_created_elem in Hk. exact Hk. }
  unfold pairedComparison in Hd.
  destruct (String.eqb_spec timeUser1 timeUser2) as [He|Hne];
    [cbn [negb andb] in Hd; injection Hd as -> -> ->; split; [reflexivity|tauto]|].
  destruct (String.eqb_spec timeUser1 "") as [He1|Hne1];
    [cbn [negb andb] in Hd; injection Hd as -> -> ->; split; [reflexivity|tauto]|].
  destruct (String.eqb_spec timeUser2 "") as [He2|Hne2];
    [cbn [negb andb] in Hd; injection Hd as -> -> ->; split; [reflexivity|tauto]|].
  cbn [negb andb] in Hd.
  assert (Hgoal : forall a b : list float, length a = length b ->
            (user1PairedTimes data, user2PairedTimes data, pairedTestResult data)
            = (a, b, tTestPaired a b) ->
            length (user1PairedTimes data) = length (user2PairedTimes data) /\
            (pairedTestResult data = None <->
               timeUser1 = timeUser2 \/ timeUser1 = "" \/ timeUser2 = "" \/
               (length (user1PairedTimes data) < 2)%nat)).
  { intros a b Hab Heq. injection Heq as -> -> ->. split; [exact Hab|].
    rewrite (Hnone a b Hab). tauto. }
  destruct (negb (String.eqb timeUser1 ALL_READERS_ID)
            && negb (String.eqb timeUser2 ALL_READERS_ID)).
  - eapply Hgoal; [|exact Hd]. unfold commonKeysOf.
    rewrite !timesAt_length; [reflexivity| |].
    + intros k Hk. apply filter_In in Hk as [_ Hk].
      destruct (filteredEvalsOf _ _ timeUser2 !! k); [eauto|discriminate].
    + apply Hkeys.
  - destruct (String.eqb timeUser1 ALL_READERS_ID);
      (eapply Hgoal; [|exact Hd]); rewrite length_map, timesAt_length;
      try reflexivity; apply Hkeys.
Qed.

End TimeAnalysisResults.

Lemma StronglySorted_filter {A : Type} (R : A -> A -> Prop) (f : A -> bool) (l : list A) :
  StronglySorted R l -> StronglySorted R (List.filter f l).
Proof.
  induction 1 as [|x l Hl IH Hx]; cbn [List.filter]; [constructor|].
  destruct (f x); [|exact IH]. constructor; [exact IH|].
  apply List.Forall_forall. intros y Hy. apply filter_In in Hy as [Hy _].
  exact (proj1 (List.Forall_forall _ _) Hx y Hy).
Qed.

Lemma filter_swap {A : Type} (f g : A -> bool) (l : list A) :
  List.filter f (List.filter g l) = List.filter g (List.filter f l).
Proof.
  rewrite !filter_filter_andb. apply List.filter_ext. intros x. apply andb_comm.
Qed.

(** The evaluations kept of a reader are evaluations of that reader. *)
Lemma getFilteredEvaluations_lookup
    (timeAnalysisCasePercentage : Z) (userEvals : gmap Z Evaluation) (k : Z) (e : Evaluation) :
  getFilteredEvaluations timeAnalysisCasePercentage userEvals !! k = Some e ->
  userEvals !! k = Some e.
Proof.
  unfold getFilteredEvaluations.
  destruct (timeAnalysisCasePercentage =? 100); [auto|]. cbn zeta.
  set (keys := slice_to_ceil _ _).
  destruct (decide (k ∈ keys)) as [Hk|Hk].
  - rewrite partialEvals_fold; [auto| |left; exact Hk].
    intros j e' Hj. rewrite lookup_empty in Hj. discriminate.
  - rewrite fold_insert_other by exact Hk. rewrite lookup_empty. discriminate.
Qed.

(** The cases two readers have both timed, listed by ascending case number,
    do not depend on who is first. *)
Lemma common_ascending_swap (a b : gmap Z Evaluation) :
  List.filter (fun k => match b !! k, a !! k with
                        | Some e2, Some e1 => timed e1 && timed e2
                        | _, _ => false
                        end) (Object_keys_ascending a)
  = List.filter (fun k => match a !! k, b !! k with
                          | Some e2, Some e1 => timed e1 && timed e2
                          | _, _ => false
                          end) (Object_keys_ascending b).
Proof.
  set (common := fun x y : gmap Z Evaluation =>
         List.filter (fun k => match y !! k, x !! k with
                               | Some e2, Some e1 => timed e1 && timed e2
                               | _, _ => false
                               end) (Object_keys_ascending x)).
  change (common a b = common b a).
  assert (Hmem : forall (x y : gmap Z Evaluation) k,
            In k (common x y) <->
            exists e1 e2, x !! k = Some e1 /\ y !! k = Some e2
                          /\ timed e1 = true /\ timed e2 = true).
  { intros x y k. unfold common. rewrite filter_In, <- list_elem_of_In,
      keys_ascending_elem. split.
    - intros [[e1 He1] H]. rewrite He1 in H. destruct (y !! k) as [e2|]; [|discriminate].
      apply andb_true_iff in H as [H1 H2]. eauto 10.
    - intros (e1 & e2 & H1 & H2 & T1 & T2). split; [eauto|].
      rewrite H1, H2, T1, T2. reflexivity. }
  apply (Sorted_unique Z.le).
  - apply StronglySorted_Sorted, StronglySorted_filter, keys_ascending_sorted.
  - apply StronglySorted_Sorted, StronglySorted_filter, keys_ascending_sorted.
  - apply NoDup_Permutation.
    + unfold common. apply NoDup_ListNoDup, List.NoDup_filter, NoDup_ListNoDup,
        keys_ascending_NoDup.
    + unfold common. apply NoDup_ListNoDup, List.NoDup_filter, NoDup_ListNoDup,
        keys_ascending_NoDup.
    + intros k. rewrite !list_elem_of_In, !Hmem. split;
        intros (e1 & e2 & H1 & H2 & T1 & T2); eauto 10.
Qed.

(** With the order of [Object.keys] fixed by the keys alone for both readers,
    so are the cases paired, and their order. *)
Lemma commonKeysOf_swap (created1 created2 : list Z) (a b : gmap Z Evaluation) :
  created1 = Object_keys_ascending a \/
  (forall k, is_Some (a !! k) -> isArrayIndex k = true) ->
  created2 = Object_keys_ascending b \/
  (forall k, is_Some (b !! k) -> isArrayIndex k = true) ->
  commonKeysOf created1 a b = commonKeysOf created2 b a.
Proof.
  intros Ha Hb. unfold commonKeysOf.
  rewrite (keys_created_canonical _ _ Ha), (keys_created_canonical _ _ Hb).
  rewrite !List.filter_app.
  rewrite (filter_swap _ isArrayIndex (Object_keys_ascending a)),
    (filter_swap _ isArrayIndex (Object_keys_ascending b)),
    (filter_swap _ (fun k => negb (isArrayIndex k)) (Object_keys_ascending a)),
    (filter_swap _ (fun k => negb (isArrayIndex k)) (Object_keys_ascending b)).
  rewrite (common_ascending_swap a b). reflexivity.
Qed.

Section PairedSwap.
Context {M : JSMath}.

(** X19. Choosing the two readers of the paired comparison in the other order
    exchanges the two samples and nothing else (the same cases are paired, in
    the same order) when one of the two is all readers, or the percentage of
    cases is not 100, or every case number stored is an array index (an
    integer from 0 to 2^32 - 2).  Otherwise the order of the pairs is the
    order in which the first reader stored the other case numbers. *)
Theorem pairedComparison_swap
    (allEvaluations : gmap string (gmap Z Evaluation)) (createdKeys : string -> list Z)
    (allUsers : list User) (timeUser1 timeUser2 : string) (timeAnalysisCasePercentage : Z) :
  timeUser1 = ALL_READERS_ID \/ timeUser2 = ALL_READERS_ID \/
  timeAnalysisCasePercentage <> 100 \/
  (forall id evals k, allEvaluations !! id = Some evals -> is_Some (evals !! k) ->
                      isArrayIndex k = true) ->
  let '(sample1, sample2, _) :=
    pairedComparison allEvaluations createdKeys allUsers timeUser1 timeUser2
                     timeAnalysisCasePercentage in
  let '(swapped1, swapped2, _) :=
    pairedComparison allEvaluations createdKeys allUsers timeUser2 timeUser1
                     timeAnalysisCasePercentage in
  swapped1 = sample2 /\ swapped2 = sample1.
Proof.
  intros Horder. unfold pairedComparison.
  destruct (String.eqb_spec timeUser1 timeUser2) as [->|Hne].
  { rewrite String.eqb_refl. cbn [negb andb]. split; reflexivity. }
  destruct (String.eqb_spec timeUser2 timeUser1) as [He|_]; [congruence|].
  cbn [negb andb].
  destruct (String.eqb_spec timeUser1 "") as [H1|H1],
           (String.eqb_spec timeUser2 "") as [H2|H2];
    cbn [negb andb]; try (split; reflexivity).
  destruct (String.eqb_spec timeUser1 ALL_READERS_ID) as [A1|A1],
           (String.eqb_spec timeUser2 ALL_READERS_ID) as [A2|A2];
    cbn [negb andb]; try congruence; try (split; reflexivity).
  destruct Horder as [?|[?|Horder]]; try contradiction.
  assert (Hfixed : forall id,
            filteredCreatedOf allEvaluations createdKeys timeAnalysisCasePercentage id
            = Object_keys_ascending
                (filteredEvalsOf allEvaluations timeAnalysisCasePercentage id) \/
            (forall k, is_Some (filteredEvalsOf allEvaluations timeAnalysisCasePercentage id
                                !! k) ->
                       isArrayIndex k = true)).
  { intros id. destruct Horder as [Hpct|Hidx].
    - left. unfold filteredCreatedOf.
      destruct (Z.eqb_spec timeAnalysisCasePercentage 100); [contradiction|reflexivity].
    - right. intros k [e He]. unfold filteredEvalsOf in He.
      apply getFilteredEvaluations_lookup in He.
      destruct (allEvaluations !! id) as [evals|] eqn:Hid; cbn [default] in He.
      + exact (Hidx id evals k Hid (ex_intro _ e He)).
      + rewrite lookup_empty in He. discriminate. }
  rewrite (commonKeysOf_swap _ _ _ _ (Hfixed timeUser2) (Hfixed timeUser1)).
  split; reflexivity.
Qed.

End PairedSwap.

(** * The application state *)

Section AppState.
Context {M : JSMath}.

Lemma readerResult_ext (a b : gmap string (gmap Z Evaluation)) cases cutoff prevalence
    comparisonPercentage (u : User) :
  userEvalsOf a u = userEvalsOf b u ->
  readerResult a cases cutoff prevalence comparisonPercentage u
  = readerResult b cases cutoff prevalence comparisonPercentage u.
Proof. unfold readerResult. intros ->. reflexivity. Qed.

(** X15. An evaluation the current reader enters is stored under that reader
    and that case, and read back unchanged; the reader's other cases, the
    other readers' evaluations and so their rows of the analysis, the cases
    and the list of readers stay as they were. *)
Theorem handleEvaluationUpdate_stores (s : App.State) (u : User) (caseNumber : Z)
    (e : Evaluation) :
  App.currentUser s = Some u ->
  let s' := App.handleEvaluationUpdate caseNumber e s in
  App.userEvaluations s' !! caseNumber = Some e /\
  (forall other, other <> caseNumber ->
     App.userEvaluations s' !! other = App.userEvaluations s !! other) /\
  (forall (v : User) cutoff prevalence comparisonPercentage,
     User.id v <> User.id u ->
     readerResult (App.allEvaluations s') (App.cases s') cutoff prevalence
                  comparisonPercentage v
     = readerResult (App.allEvaluations s) (App.cases s) cutoff prevalence
                    comparisonPercentage v) /\
  App.cases s' = App.cases s /\ App.allUsers s' = App.allUsers s /\
  App.currentUser s' = App.currentUser s /\ App.view s' = App.view s.
Proof.
  intros Hu s'. unfold s', App.handleEvaluationUpdate, App.userEvaluations. rewrite Hu.
  cbn [App.currentUser App.allEvaluations App.cases App.allUsers App.view].
  rewrite lookup_insert_eq. cbn [default].
  split; [apply lookup_insert_eq|].
  split; [intros other Hne; apply lookup_insert_ne; congruence|].
  split; [|repeat split; reflexivity].
  intros v cutoff prevalence comparisonPercentage Hv. apply readerResult_ext.
  unfold userEvalsOf. rewrite lookup_insert_ne by congruence. reflexivity.
Qed.

Lemma readerResult_no_evaluations cases cutoff prevalence comparisonPercentage (u : User) :
  readerResult ∅ cases cutoff prevalence comparisonPercentage u
  = {| user := u; evaluatedCount := 0;
       finalMetrics := zeroMetrics; partialMetrics := zeroMetrics;
       finalAuc := 0.5; pValueSensitivity := 1; pValueSpecificity := 1 |}.
Proof.
  unfold readerResult, userEvalsOf. rewrite lookup_empty. cbn [default].
  unfold evaluatedKeysOf, Object_keys. rewrite map_to_list_empty. reflexivity.
Qed.

(** X16. Uploading a list of cases replaces the cases and discards every
    evaluation and every survey, while the readers stay registered: in the
    analysis that follows every reader has the row of a reader without
    evaluations, and the four averages are 0. *)
Theorem handleDataUpload_discards (s : App.State) (uploadedCases : list CaseData)
    (cutoff : Z) (prevalence : float) (comparisonPercentage : Z) :
  let s' := App.handleDataUpload uploadedCases s in
  App.cases s' = uploadedCases /\ App.allUsers s' = App.allUsers s /\
  App.currentUser s' = App.currentUser s /\ App.view s' = App.evaluation /\
  App.allEvaluations s' = ∅ /\ App.allSurveyResponses s' = ∅ /\
  analysisData (App.allEvaluations s') (App.cases s') cutoff prevalence comparisonPercentage
               (App.allUsers s')
  = (map (fun u => {| user := u; evaluatedCount := 0;
                      finalMetrics := zeroMetrics; partialMetrics := zeroMetrics;
                      finalAuc := 0.5; pValueSensitivity := 1; pValueSpecificity := 1 |})
         (App.allUsers s),
     zeroMetrics).
Proof.
  intros s'. unfold s', App.handleDataUpload.
  cbn [App.cases App.allUsers App.currentUser App.view App.allEvaluations
       App.allSurveyResponses].
  repeat (split; [reflexivity|]).
  unfold analysisData, resultsByUser.
  rewrite (map_ext _ _ (readerResult_no_evaluations uploadedCases cutoff prevalence
                          comparisonPercentage)).
  f_equal. unfold averageMetrics.
  rewrite (filter_none (fun r => 0 <? evaluatedCount r)); [reflexivity|].
  intros r Hr. apply in_map_iff in Hr as (u & <- & _). reflexivity.
Qed.

(** X18. The number of evaluated cases the evaluation screen shows for the
    current reader is the number of evaluated cases of that reader's row in
    the analysis. *)
Theorem evaluatedCasesCount_is_row_count (s : App.State) (u : User)
    (cutoff : Z) (prevalence : float) (comparisonPercentage : Z) :
  App.currentUser s = Some u ->
  evaluatedCount (readerResult (App.allEvaluations s) (App.cases s) cutoff prevalence
                               comparisonPercentage u)
  = evaluatedCasesCount (App.userEvaluations s).
Proof.
  intros Hu. unfold App.userEvaluations. rewrite Hu. fold (userEvalsOf (App.allEvaluations s) u).
  unfold evaluatedCasesCount. rewrite <- evaluatedKeys_length. unfold readerResult.
  destruct (Z.eqb_spec (Z.of_nat (length (evaluatedKeysOf (userEvalsOf (App.allEvaluations s) u)))) 0)
    as [Hz|Hnz]; cbn [evaluatedCount]; congruence.
Qed.

End AppState.

Lemma registered_initial : registered App.initial.
Proof.
  repeat split; cbn.
  - intros u Hu. discriminate.
  - intros i [x Hx]. rewrite lookup_empty in Hx. discriminate.
  - intros i [x Hx]. rewrite lookup_empty in Hx. discriminate.
Qed.

Lemma registered_handle (ev : App.Event) (s : App.State) :
  registered s -> App.offered ev s -> registered (App.handle ev s).
Proof.
  intros (Hcur & Hev & Hsv) Hoff.
  destruct ev; cbn [App.handle App.offered] in *.
  - (* select *) repeat split; cbn; auto. intros u [= <-]. exact Hoff.
  - (* create *)
    repeat split; cbn.
    + intros u [= <-]. apply in_or_app. right. left. reflexivity.
    + intros i Hi. destruct (Hev i Hi) as (u & Hu & <-). exists u. split; [|reflexivity].
      apply in_or_app. left. exact Hu.
    + intros i Hi. destruct (Hsv i Hi) as (u & Hu & <-). exists u. split; [|reflexivity].
      apply in_or_app. left. exact Hu.
  - (* upload *)
    repeat split; cbn; auto; intros i [x Hx]; rewrite lookup_empty in Hx; discriminate.
  - (* evaluation *)
    unfold App.handleEvaluationUpdate. destruct (App.currentUser s) as [u|] eqn:Hu;
      [|repeat split; auto; rewrite Hu; discriminate].
    repeat split; cbn; auto. intros i Hi.
    destruct (decide (i = User.id u)) as [->|Hne].
    + exists u. split; [apply Hcur; reflexivity|reflexivity].
    + rewrite lookup_insert_ne in Hi by congruence. apply Hev, Hi.
  - (* analysis *) repeat split; cbn; auto.
  - (* finish *)
    unfold App.handleFinishEvaluations.
    destruct (App.currentUser s) as [u|] eqn:Hu;
      [destruct (App.allSurveyResponses s !! User.id u)|];
      repeat split; cbn; auto; rewrite Hu; exact Hcur.
  - (* survey update *)
    unfold App.handleSurveyUpdate. destruct (App.currentUser s) as [u|] eqn:Hu;
      [|repeat split; auto; rewrite Hu; discriminate].
    repeat split; cbn; auto. intros i Hi.
    destruct (decide (i = User.id u)) as [->|Hne].
    + exists u. split; [apply Hcur; reflexivity|reflexivity].
    + rewrite lookup_insert_ne in Hi by congruence. apply Hsv, Hi.
  - (* survey submit *)
    unfold App.handleSurveySubmit. destruct (App.currentUser s) as [u|] eqn:Hu;
      [|repeat split; auto; rewrite Hu; discriminate].
    repeat split; cbn; auto. intros i Hi.
    destruct (decide (i = User.id u)) as [->|Hne].
    + exists u. split; [apply Hcur; reflexivity|reflexivity].
    + rewrite lookup_insert_ne in Hi by congruence. apply Hsv, Hi.
  - (* return to login *) repeat split; cbn; auto. discriminate.
  - (* reset *) apply registered_initial.
Qed.

Section Registered.
Context {M : JSMath}.

(** X17. In every state the component can reach from the empty one, the
    current reader and the owner of every stored evaluation and survey are
    registered readers; so every stored map of evaluations is the one of some
    row of the analysis, and none is left out of it. *)
Theorem reachable_registered (s : App.State) (cutoff : Z) (prevalence : float)
    (comparisonPercentage : Z) :
  reachable s ->
  registered s /\
  (forall i evals, App.allEvaluations s !! i = Some evals ->
     exists r, In r (fst (analysisData (App.allEvaluations s) (App.cases s) cutoff prevalence
                                       comparisonPercentage (App.allUsers s)))
               /\ User.id (user r) = i
               /\ userEvalsOf (App.allEvaluations s) (user r) = evals).
Proof.
  intros Hreach.
  assert (Hreg : registered s).
  { induction Hreach as [|ev s _ IH Hoff]; [exact registered_initial|].
    apply registered_handle; assumption. }
  split; [exact Hreg|]. intros i evals Hi.
  destruct Hreg as (_ & Hev & _). destruct (Hev i ltac:(eauto)) as (u & Hu & <-).
  exists (readerResult (App.allEvaluations s) (App.cases s) cutoff prevalence
                       comparisonPercentage u).
  split; [|split].
  - unfold analysisData, resultsByUser. cbn [fst]. apply in_map. exact Hu.
  - unfold readerResult. destruct (_ =? 0); reflexivity.
  - assert (Huser : user (readerResult (App.allEvaluations s) (App.cases s) cutoff prevalence
                            comparisonPercentage u) = u)
      by (unfold readerResult; destruct (_ =? 0); reflexivity).
    rewrite Huser. unfold userEvalsOf. rewrite Hi. reflexivity.
Qed.

End Registered.

(** * The evaluation screen *)

Lemma DEFAULT_EVAL_inRange : inRange DEFAULT_EVAL.
Proof. unfold inRange, DEFAULT_EVAL; cbn. lia. Qed.

Lemma setField_score_inRange key value e :
  In key EvaluationScreen.scoreKeys -> 0 <= value <= 5 -> inRange e ->
  inRange (EvaluationScreen.setField key value e).
Proof.
  unfold EvaluationScreen.scoreKeys, inRange. intros Hkey Hv He.
  cbn [In] in Hkey. destruct Hkey as [<-|[<-|[<-|[<-|[]]]]]; cbn; lia.
Qed.

Lemma setField_confidence_inRange key value e :
  In key EvaluationScreen.scoreKeys -> 0 <= value <= 5 -> inRange e ->
  inRange (EvaluationScreen.setField (EvaluationScreen.confidenceKey key) value e).
Proof.
  unfold EvaluationScreen.scoreKeys, inRange. intros Hkey Hv He.
  cbn [In] in Hkey. destruct Hkey as [<-|[<-|[<-|[<-|[]]]]]; cbn; lia.
Qed.

Lemma setField_imageQuality_inRange value e :
  0 <= value <= 3 -> inRange e ->
  inRange (EvaluationScreen.setField EvaluationScreen.K_imageQuality value e).
Proof. unfold inRange. intros Hv He. cbn. lia. Qed.

Lemma setReadingTime_inRange t e :
  inRange e -> inRange (EvaluationScreen.setReadingTime t e).
Proof. unfold inRange. intros He. cbn. exact He. Qed.

Lemma currentCase_In cases l c :
  EvaluationScreen.currentCase cases l = Some c -> In c cases.
Proof.
  unfold EvaluationScreen.currentCase.
  destruct (EvaluationScreen.currentIndex l <? 0); [discriminate|].
  apply nth_error_In.
Qed.

(** Storing an evaluation in range, for a listed case, keeps the store as it
    should be. *)
Lemma update_storedInRange k e s :
  inRange e -> storedInRange s -> storedInRange (App.handleEvaluationUpdate k e s).
Proof.
  intros He Hs. unfold App.handleEvaluationUpdate.
  destruct (App.currentUser s) as [user|]; [|exact Hs].
  intros i evals k' e'. cbn [App.allEvaluations].
  destruct (decide (i = User.id user)) as [->|Hi].
  - rewrite lookup_insert_eq. intros [= <-].
    destruct (decide (k' = k)) as [->|Hk].
    + rewrite lookup_insert_eq. intros [= <-]. exact He.
    + rewrite lookup_insert_ne by congruence.
      destruct (App.allEvaluations s !! User.id user) as [old|] eqn:Hold; cbn [default].
      * intros Hk'. exact (Hs _ _ _ _ Hold Hk').
      * rewrite lookup_empty. discriminate.
  - rewrite lookup_insert_ne by congruence. apply Hs.
Qed.

Lemma update_storedListed c e s :
  In c (App.cases s) -> storedListed s ->
  storedListed (App.handleEvaluationUpdate (caseNumber c) e s).
Proof.
  intros Hc Hs. unfold App.handleEvaluationUpdate.
  destruct (App.currentUser s) as [user|]; [|exact Hs].
  intros i evals k. cbn [App.allEvaluations App.cases].
  destruct (decide (i = User.id user)) as [->|Hi].
  - rewrite lookup_insert_eq. intros [= <-].
    destruct (decide (k = caseNumber c)) as [->|Hk].
    + intros _. exists c. split; [exact Hc|reflexivity].
    + rewrite lookup_insert_ne by congruence.
      destruct (App.allEvaluations s !! User.id user) as [old|] eqn:Hold; cbn [default].
      * intros Hk'. exact (Hs _ _ _ Hold Hk').
      * rewrite lookup_empty. intros [? ?]; discriminate.
  - rewrite lookup_insert_ne by congruence. apply Hs.
Qed.

Lemma update_cases k e s : App.cases (App.handleEvaluationUpdate k e s) = App.cases s.
Proof. unfold App.handleEvaluationUpdate. destruct (App.currentUser s); reflexivity. Qed.

Lemma userEvaluations_inRange s k e :
  storedInRange s -> App.userEvaluations s !! k = Some e -> inRange e.
Proof.
  intros Hs. unfold App.userEvaluations.
  destruct (App.currentUser s) as [user|]; [|rewrite lookup_empty; discriminate].
  destruct (App.allEvaluations s !! User.id user) as [evals|] eqn:He; cbn [default].
  - apply (Hs _ _ _ _ He).
  - rewrite lookup_empty. discriminate.
Qed.

(** The store after [onUpdate] with the evaluation on screen, changed by [f],
    for the current case. *)
Lemma wellFormed_update (f : Evaluation -> Evaluation) l l' s c :
  EvaluationScreen.currentCase (App.cases s) l = Some c ->
  inRange (EvaluationScreen.currentEval l') ->
  inRange (f (EvaluationScreen.currentEval l)) ->
  storedInRange s -> storedListed s ->
  wellFormed (l', App.handleEvaluationUpdate (caseNumber c) (f (EvaluationScreen.currentEval l)) s).
Proof.
  intros Hc Hl' Hf Hr Hl. split; [exact Hl'|]. split; cbn [snd].
  - apply update_storedInRange; assumption.
  - apply update_storedListed; [exact (currentCase_In _ _ _ Hc)|exact Hl].
Qed.

Lemma wellFormed_handleEvalChange field value l s :
  (forall e, inRange e -> inRange (EvaluationScreen.setField field value e)) ->
  wellFormed (l, s) -> wellFormed (EvaluationScreen.handleEvalChange field value (l, s)).
Proof.
  intros Hf (He & Hr & Hl). cbn [fst snd] in *. unfold EvaluationScreen.handleEvalChange.
  destruct (EvaluationScreen.currentCase (App.cases s) l) as [c|] eqn:Hc.
  - refine (wellFormed_update (EvaluationScreen.setField field value) l _ s c Hc
              _ (Hf _ He) Hr Hl).
    exact (Hf _ He).
  - split; [exact He|split; assumption].
Qed.

Lemma wellFormed_saveAndNavigate navigationFn l s :
  (forall l' s', wellFormed (l', s') -> wellFormed (navigationFn (l', s'))) ->
  wellFormed (l, s) -> wellFormed (EvaluationScreen.saveAndNavigate navigationFn (l, s)).
Proof.
  intros Hnav (He & Hr & Hl). cbn [fst snd] in *. unfold EvaluationScreen.saveAndNavigate.
  destruct (EvaluationScreen.currentCase (App.cases s) l) as [c|] eqn:Hc.
  - cbn zeta. apply Hnav.
    exact (wellFormed_update
             (EvaluationScreen.setReadingTime (EvaluationScreen.totalTimeForCase l))
             l l s c Hc He (setReadingTime_inRange _ _ He) Hr Hl).
  - split; [exact He|split; assumption].
Qed.

Lemma wellFormed_view l s (s' : App.State) :
  App.cases s' = App.cases s -> App.allEvaluations s' = App.allEvaluations s ->
  wellFormed (l, s) -> wellFormed (l, s').
Proof.
  intros Hc Ha (He & Hr & Hl). split; [exact He|]. cbn [snd] in *.
  unfold storedInRange, storedListed. rewrite Hc, Ha. split; assumption.
Qed.

Lemma wellFormed_empty l (s' : App.State) :
  App.allEvaluations s' = ∅ -> inRange (EvaluationScreen.currentEval l) ->
  wellFormed (l, s').
Proof.
  intros Ha He. split; [exact He|]. cbn [snd].
  unfold storedInRange, storedListed. rewrite Ha.
  split; intros i evals; rewrite lookup_empty; discriminate.
Qed.

Lemma wellFormed_request ev l s :
  fromOtherScreens ev -> wellFormed (l, s) -> wellFormed (l, App.handle ev s).
Proof.
  intros Hev Hw. pose proof Hw as (He & _).
  destruct ev; cbn [fromOtherScreens] in Hev; try contradiction; cbn [App.handle].
  - apply (wellFormed_view l s); [reflexivity|reflexivity|exact Hw].
  - apply (wellFormed_view l s); [reflexivity|reflexivity|exact Hw].
  - apply (wellFormed_empty l); [reflexivity|exact He].
  - unfold App.handleSurveyUpdate. destruct (App.currentUser s); [|exact Hw].
    apply (wellFormed_view l s); [reflexivity|reflexivity|exact Hw].
  - unfold App.handleSurveySubmit. destruct (App.currentUser s); [|exact Hw].
    apply (wellFormed_view l s); [reflexivity|reflexivity|exact Hw].
  - apply (wellFormed_view l s); [reflexivity|reflexivity|exact Hw].
  - apply (wellFormed_empty l); [reflexivity|exact He].
Qed.

Lemma wellFormed_screen ev st :
  EvaluationScreen.offered ev st -> wellFormed st ->
  wellFormed (EvaluationScreen.handle ev st).
Proof.
  destruct st as [l s]. intros (_ & _ & _ & Hev) Hw.
  pose proof Hw as (He & Hr & Hl). cbn [fst snd] in He, Hr, Hl.
  destruct ev; cbn [EvaluationScreen.handle].
  - (* a score *)
    unfold EvaluationScreen.scoreInput.
    assert (Hzero : wellFormed (EvaluationScreen.handleEvalChange key 0 (l, s))).
    { apply wellFormed_handleEvalChange; [|exact Hw].
      intros e. apply setField_score_inRange; [exact Hev|lia]. }
    destruct numValue as [n|].
    + destruct ((1 <=? n) && (n <=? 5)) eqn:Hn.
      * apply andb_true_iff in Hn. destruct Hn as [H1 H5].
        apply Z.leb_le in H1, H5.
        apply wellFormed_handleEvalChange; [|exact Hw].
        intros e. apply setField_score_inRange; [exact Hev|lia].
      * destruct emptyText; [exact Hzero|exact Hw].
    + destruct emptyText; [exact Hzero|exact Hw].
  - (* a confidence *)
    destruct Hev as [Hkey Hnum].
    apply wellFormed_handleEvalChange; [|exact Hw].
    intros e. apply setField_confidence_inRange; [exact Hkey|lia].
  - (* the image quality *)
    apply wellFormed_handleEvalChange; [|exact Hw].
    intros e. apply setField_imageQuality_inRange. lia.
  - (* the timer *)
    exact Hw.
  - unfold EvaluationScreen.handleStopTimer.
    destruct (EvaluationScreen.currentCase (App.cases s) l) as [c|] eqn:Hc; [|exact Hw].
    cbn zeta.
    refine (wellFormed_update
              (EvaluationScreen.setReadingTime (EvaluationScreen.totalTimeForCase l))
              l _ s c Hc _ (setReadingTime_inRange _ _ He) Hr Hl).
    exact (setReadingTime_inRange _ _ He).
  - unfold EvaluationScreen.handleResetTimer.
    destruct (EvaluationScreen.currentCase (App.cases s) l) as [c|] eqn:Hc; [|exact Hw].
    cbn zeta.
    refine (wellFormed_update (EvaluationScreen.setReadingTime 0) l _ s c Hc
              _ (setReadingTime_inRange _ _ He) Hr Hl).
    exact (setReadingTime_inRange _ _ He).
  - exact Hw.
  - (* the navigation *)
    unfold EvaluationScreen.goToNext.
    destruct (EvaluationScreen.currentIndex l <? EvaluationScreen.totalCases s - 1);
      [|exact Hw].
    apply wellFormed_saveAndNavigate; [|exact Hw]. intros l' s' Hw'. exact Hw'.
  - unfold EvaluationScreen.goToPrev.
    destruct (0 <? EvaluationScreen.currentIndex l); [|exact Hw].
    apply wellFormed_saveAndNavigate; [|exact Hw]. intros l' s' Hw'. exact Hw'.
  - unfold EvaluationScreen.handleChangeUser.
    apply wellFormed_saveAndNavigate; [|exact Hw]. intros l' s' Hw'.
    apply (wellFormed_view l' s'); [reflexivity|reflexivity|exact Hw'].
  - cbn [fst snd]. apply (wellFormed_view l s); [reflexivity|reflexivity|exact Hw].
  - cbn [fst snd]. unfold App.handleFinishEvaluations.
    destruct (App.currentUser s) as [user|];
      [destruct (App.allSurveyResponses s !! User.id user)|];
      apply (wellFormed_view l s); try reflexivity; exact Hw.
  - (* the effect that shows the case *)
    unfold EvaluationScreen.showCase.
    destruct (EvaluationScreen.currentCase (App.cases s) l) as [c|]; [|exact Hw].
    split; [|split; assumption]. cbn.
    destruct (App.userEvaluations s !! caseNumber c) as [e|] eqn:Hstored; cbn [default].
    + exact (userEvaluations_inRange s _ _ Hr Hstored).
    + exact DEFAULT_EVAL_inRange.
Qed.

Lemma running_wellFormed st : running st -> wellFormed st.
Proof.
  induction 1 as [|ev l s _ IH Hev _|l s _ IH|ev st _ IH Hev].
  - apply wellFormed_empty; [reflexivity|exact DEFAULT_EVAL_inRange].
  - apply wellFormed_request; assumption.
  - destruct IH as (_ & Hr & Hl). split; [exact DEFAULT_EVAL_inRange|split; assumption].
  - apply wellFormed_screen; assumption.
Qed.

(** With scores from 0 to 5, a cutoff above 5 leaves the positive cells empty
    and a cutoff of 1 or less the negative ones. *)
Lemma extreme_cutoff_cells evaluations cases cutoff :
  (forall k e, evaluations !! k = Some e -> 0 <= viradsFinal e <= 5) ->
  let m := getMatrixForEvaluations evaluations cases cutoff in
  (5 < cutoff -> tp m = 0 /\ fp m = 0) /\ (cutoff <= 1 -> tn m = 0 /\ fn m = 0).
Proof.
  intros Hr m.
  destruct (getMatrix_cells evaluations cases cutoff) as (Htp & Hfp & Htn & Hfn).
  fold m in Htp, Hfp, Htn, Hfn. rewrite Htp, Hfp, Htn, Hfn. unfold countIn.
  assert (Hcell : forall c score, classified evaluations c = Some score -> 1 <= score <= 5).
  { intros c score. unfold classified.
    destruct (evaluations !! caseNumber c) as [e|] eqn:He; [|discriminate].
    specialize (Hr _ _ He). destruct (Z.eqb_spec (viradsFinal e) 0); [discriminate|].
    intros [= <-]. lia. }
  split; intros Hcut; split.
  all: rewrite filter_none; [reflexivity|].
  all: intros c _; unfold inCell, cellOf; apply bool_decide_eq_false_2.
  all: destruct (classified evaluations c) as [score|] eqn:Hs; [|discriminate].
  all: specialize (Hcell _ _ Hs).
  1, 2: replace (cutoff <=? score) with false by (symmetry; apply Z.leb_gt; lia).
  3, 4: replace (cutoff <=? score) with true by (symmetry; apply Z.leb_le; lia).
  all: destruct (isCVMIPositive c); discriminate.
Qed.

Lemma filter_all_length {A : Type} (f : A -> bool) (l : list A) :
  length (List.filter f l) = length l <-> forall x, In x l -> f x = true.
Proof.
  induction l as [|x l IH]; [cbn; tauto|]. cbn [List.filter].
  pose proof (filter_length_le f l) as Hle.
  destruct (f x) eqn:Hx; cbn [length].
  - split.
    + intros Hlen y [<-|Hy]; [exact Hx|]. apply IH; [lia|exact Hy].
    + intros Hall. f_equal. apply IH. intros y Hy. apply Hall. right. exact Hy.
  - split; [lia|]. intros Hall. rewrite (Hall x (or_introl eq_refl)) in Hx. discriminate.
Qed.

Lemma filter_map_comm {A B : Type} (f : B -> bool) (g : A -> B) (l : list A) :
  List.filter f (map g l) = map g (List.filter (fun x => f (g x)) l).
Proof.
  induction l as [|x l IH]; [reflexivity|]. cbn [map List.filter].
  destruct (f (g x)); cbn [map]; rewrite IH; reflexivity.
Qed.

(** With distinct case numbers and every evaluation that of a listed case, as
    many keys have a final score as listed cases have. *)
Lemma scored_keys_scored_cases (evaluations : gmap Z Evaluation) (cases : list CaseData) :
  List.NoDup (map caseNumber cases) ->
  (forall k, is_Some (evaluations !! k) -> exists c, In c cases /\ caseNumber c = k) ->
  evaluatedCasesCount evaluations
  = Z.of_nat (length (relevantCasesOf evaluations cases)).
Proof.
  intros Hnd Hlisted. unfold evaluatedCasesCount, relevantCasesOf. f_equal.
  rewrite <- (length_map caseNumber
                (List.filter (fun c => hasFinal evaluations (caseNumber c)) cases)).
  rewrite <- (filter_map_comm (hasFinal evaluations) caseNumber cases).
  apply Permutation_length, Permutation.NoDup_Permutation.
  - apply List.NoDup_filter, NoDup_ListNoDup.
    unfold Object_keys. apply NoDup_fst_map_to_list.
  - apply List.NoDup_filter. exact Hnd.
  - intros k. rewrite !List.filter_In. split.
    + intros [_ Hk]. split; [|exact Hk].
      unfold hasFinal in Hk.
      destruct (evaluations !! k) as [e|] eqn:He; [|discriminate].
      destruct (Hlisted k (ex_intro _ e He)) as (c & Hc & <-). apply in_map, Hc.
    + intros [_ Hk]. split; [|exact Hk].
      unfold hasFinal in Hk.
      destruct (evaluations !! k) as [e|] eqn:He; [|discriminate].
      apply list_elem_of_In. unfold Object_keys. apply list_elem_of_fmap.
      exists (k, e). split; [reflexivity|]. apply elem_of_map_to_list. exact He.
Qed.

(** The evaluations handed to the evaluation screen are stored ones, or none. *)
Lemma userEvaluations_stored s :
  (exists i, App.allEvaluations s !! i = Some (App.userEvaluations s))
  \/ App.userEvaluations s = ∅.
Proof.
  unfold App.userEvaluations. destruct (App.currentUser s) as [user|]; [|right; reflexivity].
  destruct (App.allEvaluations s !! User.id user) as [evals|] eqn:He; cbn [default].
  - left. exists (User.id user). exact He.
  - right. reflexivity.
Qed.

(** X20. In every state the application and its evaluation screen can reach
    from the empty session, the evaluation on screen and every stored
    evaluation have scores and confidences from 0 to 5 and an image quality
    from 0 to 3, and every stored evaluation is that of a listed case.  So for
    every reader the four counts of [getMatrixForEvaluations] add up to the
    number of listed cases with a final score, whatever the cutoff; a cutoff
    above 5 gives no positive call and a cutoff of 1 or less no negative
    call. *)
Theorem running_scores_in_range (l : EvaluationScreen.Local) (s : App.State) :
  running (l, s) ->
  inRange (EvaluationScreen.currentEval l) /\
  forall i evals, App.allEvaluations s !! i = Some evals ->
    (forall k e, evals !! k = Some e ->
       inRange e /\ exists c, In c (App.cases s) /\ caseNumber c = k) /\
    forall cutoff,
      let m := getMatrixForEvaluations evals (App.cases s) cutoff in
      tp m + fp m + tn m + fn m = Z.of_nat (length (relevantCasesOf evals (App.cases s))) /\
      (5 < cutoff -> tp m = 0 /\ fp m = 0) /\
      (cutoff <= 1 -> tn m = 0 /\ fn m = 0).
Proof.
  intros Hrun. destruct (running_wellFormed _ Hrun) as (He & Hr & Hl).
  cbn [fst snd] in He, Hr, Hl. split; [exact He|].
  intros i evals Hi. split.
  - intros k e Hk. split; [exact (Hr _ _ _ _ Hi Hk)|].
    exact (Hl _ _ _ Hi (ex_intro _ e Hk)).
  - intros cutoff m.
    assert (Hfinal : forall k e, evals !! k = Some e -> 0 <= viradsFinal e <= 5).
    { intros k e Hk. pose proof (Hr _ _ _ _ Hi Hk) as Hin. unfold inRange in Hin. lia. }
    split; [|exact (extreme_cutoff_cells evals (App.cases s) cutoff Hfinal)].
    destruct (getMatrix_cells evals (App.cases s) cutoff) as (Htp & Hfp & Htn & Hfn).
    fold m in Htp, Hfp, Htn, Hfn. rewrite Htp, Hfp, Htn, Hfn, count_cells.
    unfold relevantCasesOf. f_equal. f_equal. apply List.filter_ext. intros c.
    apply classified_hasFinal. intros k e Hk. apply (Hfinal k e Hk).
Qed.

(** X21. In every such state whose listed cases have distinct numbers, the
    progress counter of a reader ([evaluatedCasesCount]) is the sum of the four
    counts of that reader's confusion matrix, at every cutoff, and at most
    the number of cases; and [allCasesEvaluated] holds exactly when there is a
    case and every listed case has a final score of the current reader. *)
Theorem running_progress_counts_cases (l : EvaluationScreen.Local) (s : App.State) :
  running (l, s) -> List.NoDup (map caseNumber (App.cases s)) ->
  (forall i evals cutoff, App.allEvaluations s !! i = Some evals ->
     let m := getMatrixForEvaluations evals (App.cases s) cutoff in
     evaluatedCasesCount evals = tp m + fp m + tn m + fn m /\
     evaluatedCasesCount evals <= EvaluationScreen.totalCases s) /\
  (EvaluationScreen.allCasesEvaluated s = true <->
     App.cases s <> [] /\
     forall c, In c (App.cases s) -> hasFinal (App.userEvaluations s) (caseNumber c) = true).
Proof.
  intros Hrun Hnd. destruct (running_wellFormed _ Hrun) as (_ & Hr & Hl).
  cbn [fst snd] in Hr, Hl.
  assert (Hcount : forall i evals, App.allEvaluations s !! i = Some evals ->
            evaluatedCasesCount evals
            = Z.of_nat (length (relevantCasesOf evals (App.cases s)))).
  { intros i evals Hi. apply scored_keys_scored_cases; [exact Hnd|].
    intros k. apply (Hl _ _ _ Hi). }
  split.
  - intros i evals cutoff Hi m. rewrite (Hcount _ _ Hi). split.
    + assert (Hfinal : forall k e, evals !! k = Some e -> 0 <= viradsFinal e).
      { intros k e Hk. pose proof (Hr _ _ _ _ Hi Hk) as Hin. unfold inRange in Hin. lia. }
      destruct (getMatrix_cells evals (App.cases s) cutoff) as (Htp & Hfp & Htn & Hfn).
      fold m in Htp, Hfp, Htn, Hfn. rewrite Htp, Hfp, Htn, Hfn, count_cells.
      unfold relevantCasesOf. f_equal. f_equal. apply List.filter_ext. intros c.
      symmetry. apply classified_hasFinal, Hfinal.
    + unfold relevantCasesOf, EvaluationScreen.totalCases.
      pose proof (filter_length_le
                    (fun c => hasFinal evals (caseNumber c)) (App.cases s)). lia.
  - assert (Hcur : evaluatedCasesCount (App.userEvaluations s)
                   = Z.of_nat (length (relevantCasesOf (App.userEvaluations s) (App.cases s)))).
    { destruct (userEvaluations_stored s) as [[i Hi]|Hnone].
      - exact (Hcount _ _ Hi).
      - rewrite Hnone. apply scored_keys_scored_cases; [exact Hnd|].
        intros k [e He]. rewrite lookup_empty in He. discriminate. }
    unfold EvaluationScreen.allCasesEvaluated, EvaluationScreen.totalCases.
    rewrite Hcur, andb_true_iff, Z.ltb_lt, Z.eqb_eq. unfold relevantCasesOf.
    rewrite Nat2Z.inj_iff, filter_all_length. split.
    + intros [Hpos Hall]. split; [|exact Hall].
      intros Hnil. rewrite Hnil in Hpos. cbn in Hpos. lia.
    + intros [Hne Hall]. split; [|exact Hall].
      destruct (App.cases s); [contradiction|]. cbn [length]. lia.
Qed.

(** Evaluations of listed cases only: no more keys with a final score than
    there are cases. *)
Lemma scored_keys_bound (evaluations : gmap Z Evaluation) (cases : list CaseData) :
  (forall k, is_Some (evaluations !! k) -> exists c, In c cases /\ caseNumber c = k) ->
  0 <= evaluatedCasesCount evaluations <= Z.of_nat (length cases).
Proof.
  intros Hlisted. unfold evaluatedCasesCount. split; [lia|]. apply inj_le.
  rewrite <- (length_map caseNumber cases). apply NoDup_incl_length.
  - apply List.NoDup_filter, NoDup_ListNoDup. unfold Object_keys.
    apply NoDup_fst_map_to_list.
  - intros k Hk. apply List.filter_In in Hk. destruct Hk as [_ Hk].
    unfold hasFinal in Hk. destruct (evaluations !! k) as [e|] eqn:He; [|discriminate].
    destruct (Hlisted k (ex_intro _ e He)) as (c & Hc & <-). apply in_map, Hc.
Qed.

Lemma format_100 : format 100.
Proof. apply (format_IZR 100). cbn. lia. Qed.

Lemma B2R_100 : B2R 100 = 100%R.
Proof. change 100%float with (Z2num 100). apply B2R_Z2num. cbn. lia. Qed.

(** X23. In every state the application and its evaluation screen can reach
    from the empty session, with fewer than 2^53 cases, the progress
    percentage of the evaluation screen is a number from 0 to 100; it is
    exactly 100 when all cases are evaluated and exactly 0 when the current
    reader has no case with a final score. *)
Theorem running_progress_percentage (l : EvaluationScreen.Local) (s : App.State) :
  running (l, s) -> EvaluationScreen.totalCases s < 2 ^ 53 ->
  let p := EvaluationScreen.progressPercentage s in
  ((0 <=? p)%float = true /\ (p <=? 100)%float = true) /\
  (EvaluationScreen.allCasesEvaluated s = true -> p = 100%float) /\
  (evaluatedCasesCount (App.userEvaluations s) = 0 -> p = 0%float).
Proof.
  intros Hrun Hsize p. destruct (running_wellFormed _ Hrun) as (_ & _ & Hl).
  cbn [fst snd] in Hl.
  assert (Hcount : 0 <= evaluatedCasesCount (App.userEvaluations s)
                   <= EvaluationScreen.totalCases s).
  { apply scored_keys_bound. destruct (userEvaluations_stored s) as [[i Hi]|Hnone].
    - intros k. apply (Hl _ _ _ Hi).
    - rewrite Hnone. intros k [e He]. rewrite lookup_empty in He. discriminate. }
  subst p. unfold EvaluationScreen.progressPercentage, EvaluationScreen.allCasesEvaluated.
  destruct (Z.ltb_spec 0 (EvaluationScreen.totalCases s)) as [Hpos|Hnone].
  - destruct (count_ratio (evaluatedCasesCount (App.userEvaluations s))
                (EvaluationScreen.totalCases s) Hcount (conj Hpos Hsize)) as [Fr Hr].
    set (ratio := (Z2num (evaluatedCasesCount (App.userEvaluations s))
                   / Z2num (EvaluationScreen.totalCases s))%float) in *.
    split; [|split].
    + assert (Hprod : (0 <= B2R ratio * B2R 100 <= 100)%R) by (rewrite B2R_100; nra).
      destruct (faithful_Prim_bounds (ratio * 100) _ 0 100
                  (mul_faithful ratio 100 Fr eq_refl) format_0 format_100 Hprod) as [Fp Hp].
      split.
      * apply (leb_B2R 0 _ eq_refl Fp). rewrite B2R_zero_float. lra.
      * apply (leb_B2R _ 100 Fp eq_refl). rewrite B2R_100. lra.
    + cbn [andb]. intros Hall. apply Z.eqb_eq in Hall. subst ratio. rewrite Hall.
      rewrite div_diag.
      * reflexivity.
      * apply finite_Z2num. lia.
      * rewrite B2R_Z2num by lia. apply not_0_IZR. lia.
    + intros Hzero. subst ratio. rewrite Hzero.
      change (Z2num 0) with 0%float. rewrite zero_div_count by lia. reflexivity.
  - split; [split; reflexivity|]. split; [discriminate|reflexivity].
Qed.

Lemma userEvaluations_update s u k e :
  App.currentUser s = Some u ->
  App.userEvaluations (App.handleEvaluationUpdate k e s) !! k = Some e.
Proof.
  intros Hu. unfold App.handleEvaluationUpdate, App.userEvaluations. rewrite Hu.
  cbn [App.currentUser App.allEvaluations]. rewrite lookup_insert_eq. cbn [default].
  apply lookup_insert_eq.
Qed.

Lemma currentCase_update cases l l' :
  EvaluationScreen.currentIndex l' = EvaluationScreen.currentIndex l ->
  EvaluationScreen.currentCase cases l' = EvaluationScreen.currentCase cases l.
Proof. intros Hi. unfold EvaluationScreen.currentCase. rewrite Hi. reflexivity. Qed.

(** X22. On the rendered screen (a current reader and a current case), when
    the effect that shows the case runs after [handleEvalChange], it reads
    back the evaluation just stored, with the field changed and the reading
    time as it was, and it stops the timer and sets the session time to 0
    whatever they were: the total time is then the stored reading time
    alone.  After [handleStopTimer], which stores the total time as the
    reading time, the same effect changes nothing. *)
Theorem showCase_after_update
    (field : EvaluationScreen.Key) (value : Z) (l : EvaluationScreen.Local)
    (s : App.State) (u : User) (c : CaseData) :
  App.currentUser s = Some u ->
  EvaluationScreen.currentCase (App.cases s) l = Some c ->
  let changed := EvaluationScreen.showCase (EvaluationScreen.handleEvalChange field value (l, s)) in
  let stopped := EvaluationScreen.handleStopTimer (l, s) in
  (EvaluationScreen.currentEval (fst changed)
     = EvaluationScreen.setField field value (EvaluationScreen.currentEval l) /\
   App.userEvaluations (snd changed) !! caseNumber c
     = Some (EvaluationScreen.setField field value (EvaluationScreen.currentEval l)) /\
   EvaluationScreen.currentIndex (fst changed) = EvaluationScreen.currentIndex l /\
   EvaluationScreen.timerIsActive (fst changed) = false /\
   EvaluationScreen.sessionTime (fst changed) = 0 /\
   EvaluationScreen.totalTimeForCase (fst changed)
     = (EvaluationScreen.orZero (readingTime (EvaluationScreen.currentEval l)) + 0)%float) /\
  (EvaluationScreen.showCase stopped = stopped /\
   readingTime (EvaluationScreen.currentEval (fst stopped))
     = EvaluationScreen.totalTimeForCase l /\
   App.userEvaluations (snd stopped) !! caseNumber c
     = Some (EvaluationScreen.currentEval (fst stopped)) /\
   EvaluationScreen.timerIsActive (fst stopped) = false /\
   EvaluationScreen.sessionTime (fst stopped) = 0).
Proof.
  intros Hu Hc changed stopped. split.
  - subst changed. unfold EvaluationScreen.handleEvalChange. rewrite Hc. cbn zeta.
    unfold EvaluationScreen.showCase.
    rewrite update_cases,
      (currentCase_update _ l (EvaluationScreen.setCurrentEval _ l) eq_refl), Hc.
    rewrite (userEvaluations_update s u _ _ Hu). cbn [default fst snd].
    cbn [EvaluationScreen.currentEval EvaluationScreen.currentIndex
         EvaluationScreen.timerIsActive EvaluationScreen.sessionTime
         EvaluationScreen.setCurrentEval].
    rewrite (userEvaluations_update s u _ _ Hu).
    repeat split.
    unfold EvaluationScreen.totalTimeForCase.
    cbn [EvaluationScreen.currentEval EvaluationScreen.sessionTime].
    destruct field; reflexivity.
  - subst stopped. unfold EvaluationScreen.handleStopTimer. rewrite Hc. cbn zeta.
    unfold EvaluationScreen.showCase.
    rewrite update_cases,
      (currentCase_update _ l
         (EvaluationScreen.setTimer false 0 (EvaluationScreen.setCurrentEval _ l)) eq_refl),
      Hc.
    rewrite (userEvaluations_update s u _ _ Hu). cbn [default fst snd].
    cbn [EvaluationScreen.currentEval EvaluationScreen.currentIndex
         EvaluationScreen.timerIsActive EvaluationScreen.sessionTime
         EvaluationScreen.setCurrentEval EvaluationScreen.setTimer].
    rewrite (userEvaluations_update s u _ _ Hu).
    repeat split.
Qed.

(** X24. With a current reader, once [handleSurveyUpdate] or
    [handleSurveySubmit] has recorded anything for that reader, even a single
    answer, [handleFinishEvaluations] shows the analysis and no longer the
    survey, also after the reader has left and logged in again; with nothing
    recorded for the reader it shows the survey, as it does after an upload,
    which discards the responses. *)
Theorem finish_after_survey (s : App.State) (u : User) (surveyData : App.SurveyResponse)
    (uploadedCases : list CaseData) :
  App.currentUser s = Some u ->
  let again (s' : App.State) :=
    App.handleFinishEvaluations (App.handleUserSelect u (App.handleReturnToLogin s')) in
  App.view (App.handleFinishEvaluations (App.handleSurveyUpdate surveyData s)) = App.analysis /\
  App.view (App.handleFinishEvaluations (App.handleSurveySubmit surveyData s)) = App.analysis /\
  App.view (again (App.handleSurveyUpdate surveyData s)) = App.analysis /\
  (App.allSurveyResponses s !! User.id u = None ->
     App.view (App.handleFinishEvaluations s) = App.survey) /\
  App.view (App.handleFinishEvaluations (App.handleDataUpload uploadedCases s)) = App.survey.
Proof.
  intros Hu again. subst again.
  unfold App.handleFinishEvaluations, App.handleSurveyUpdate, App.handleSurveySubmit,
    App.handleUserSelect, App.handleReturnToLogin, App.handleDataUpload.
  rewrite Hu. cbn [App.currentUser App.allSurveyResponses].
  rewrite !lookup_insert_eq, lookup_empty. cbn [App.view App.setView].
  repeat split. intros Hnone. rewrite Hnone. reflexivity.
Qed.

(** * The theorems on concrete data *)

Lemma getMatrix_partitions_evaluated_cases_witness :
  let m := getMatrixForEvaluations mixedEvaluations exampleCases 3 in
  (forall k e, mixedEvaluations !! k = Some e -> 0 <= viradsFinal e) /\
  tp m + fp m + tn m + fn m = 4 /\ tp m = 1 /\ fp m = 1 /\ tn m = 1 /\ fn m = 1.
Proof.
  assert (Hnn : forall k e, mixedEvaluations !! k = Some e -> 0 <= viradsFinal e).
  { apply (bool_decide_eq_true_1 (map_Forall (fun _ e => 0 <= viradsFinal e) mixedEvaluations)).
    vm_compute. reflexivity. }
  split; [exact Hnn|].
  pose proof (getMatrix_partitions_evaluated_cases mixedEvaluations exampleCases 3 Hnn) as H.
  cbn zeta in H. destruct H as (_ & Hsum & Htp & Hfp & Htn & Hfn).
  rewrite Hsum, Htp, Hfp, Htn, Hfn. vm_compute. repeat split; reflexivity.
Defined.

Lemma zTest_equal_proportions_p_value_witness :
  @Math_exp RefMath.math (-0)%float = 1%float /\
  zTest_z (Z2num 3) (Z2num 6) (Z2num 5) (Z2num 10) = 0%float /\
  @zTestForProportions RefMath.math (Z2num 3) (Z2num 6) (Z2num 5) (Z2num 10) = pValueAtZero /\
  @zTestForProportions RefMath.math 10 20 10 20 = pValueAtZero /\
  (let r := @readerResult RefMath.math exampleAllEvaluations exampleCases 3 0.5 100 (reader "b") in
   pValueSensitivity r = pValueAtZero /\ pValueSpecificity r = pValueAtZero).
Proof.
  destruct (@zTest_equal_proportions_p_value RefMath.math eq_refl) as (Hz & H10 & _ & Hr).
  split; [reflexivity|].
  destruct (Hz 3 6 5 10) as [Hz0 Hzp]; try lia; [vm_compute; reflexivity|].
  split; [exact Hz0|]. split; [exact Hzp|]. split; [exact H10|].
  specialize (Hr exampleAllEvaluations exampleCases 3 0.5%float 100 (reader "b")).
  cbn zeta in Hr. cbn zeta. apply Hr.
  - vm_compute. reflexivity.
  - vm_compute. discriminate.
  - vm_compute. reflexivity.
Defined.

Lemma calculateAUC_perfect_separation_witness :
  calculateAUC separatedEvaluations exampleCases = 1%float.
Proof.
  apply calculateAUC_perfect_separation.
  - vm_compute. reflexivity.
  - intros c e Hin. cbn in Hin.
    destruct Hin as [<-|[<-|[<-|[<-|[]]]]]; vm_compute; intros [= <-] _; reflexivity.
  - exists (parsedCase 2 T3). vm_compute. auto.
  - exists (parsedCase 1 T1). vm_compute. auto.
Defined.

Lemma calculateAUC_between_0_and_1_witness :
  let auc := calculateAUC exampleEvaluations exampleCases in
  (0 <=? auc)%float = true /\ (auc <=? 1)%float = true.
Proof.
  cbn zeta.
  pose proof (calculateAUC_between_0_and_1 exampleEvaluations exampleCases) as H.
  cbn zeta in H. destruct H as (H0 & H1 & _); [vm_compute; reflexivity|].
  split; assumption.
Defined.


Lemma perfect_matrix_predictive_values_witness :
  let matrix := {| tp := 2; fp := 0; tn := 2; fn := 0 |} in
  let metrics := calculateMetrics matrix (Z2num 2 / Z2num 4) in
  ppv metrics = 1%float /\ npv metrics = 1%float.
Proof.
  cbn zeta.
  pose proof (perfect_matrix_predictive_values {| tp := 2; fp := 0; tn := 2; fn := 0 |}) as H.
  cbn zeta in H. cbn [tp fp tn fn] in H.
  destruct H as (_ & _ & Hp & Hn); try reflexivity.
  split; [exact Hp|exact Hn].
Defined.

Lemma reader_without_evaluations_witness :
  let row := @readerResult RefMath.math exampleAllEvaluations exampleCases 3 0.5 50 (reader "c") in
  (evaluatedCount row = 0 /\ finalAuc row = 0.5%float /\
   pValueSensitivity row = 1%float /\ pValueSpecificity row = 1%float) /\
  averageMetrics
    (@resultsByUser RefMath.math exampleAllEvaluations exampleCases 3 0.5 50
       [reader "a"; reader "c"; reader "b"])
  = averageMetrics
      (@resultsByUser RefMath.math exampleAllEvaluations exampleCases 3 0.5 50
         [reader "a"; reader "b"]).
Proof.
  cbn zeta.
  destruct (@reader_without_evaluations RefMath.math exampleAllEvaluations exampleCases 3
              0.5%float 50 (reader "c")) as [Hrow Havg].
  - apply (bool_decide_eq_true_1
             (map_Forall (fun _ e => viradsFinal e <= 0)
                (userEvalsOf exampleAllEvaluations (reader "c")))).
    vm_compute. reflexivity.
  - rewrite Hrow. split; [repeat split|]. exact (Havg [reader "a"] [reader "b"]).
Defined.


Lemma calculateMetrics_in_unit_witness :
  let m := calculateMetrics {| tp := 1; fp := 1; tn := 1; fn := 1 |} 0.5 in
  (0 <=? ppv m)%float = true /\ (ppv m <=? 1)%float = true /\
  (0 <=? npv m)%float = true /\ (npv m <=? 1)%float = true.
Proof.
  pose proof (calculateMetrics_in_unit {| tp := 1; fp := 1; tn := 1; fn := 1 |} 0.5) as H.
  cbn zeta in H. cbn [tp fp tn fn] in H.
  destruct H as (_ & _ & Hp & Hn); try lia; try reflexivity.
  cbn zeta. tauto.
Defined.

Lemma samplePrevalence_in_unit_witness :
  (0 <=? samplePrevalence exampleCases)%float = true /\
  (samplePrevalence exampleCases <=? 1)%float = true.
Proof.
  pose proof (samplePrevalence_in_unit exampleCases) as H. cbn zeta in H.
  destruct H as (H0 & H1 & _); [vm_compute; reflexivity|]. split; assumption.
Defined.

Lemma analysisData_in_unit_witness :
  metricsInUnit
    (snd (@analysisData RefMath.math exampleAllEvaluations exampleCases 3 0.5 50
            [reader "a"; reader "b"; reader "c"])) = true.
Proof.
  pose proof (@analysisData_in_unit RefMath.math exampleAllEvaluations exampleCases 3 0.5 50
                [reader "a"; reader "b"; reader "c"]) as H.
  destruct (analysisData _ _ _ _ _ _) as [results averages].
  apply H; vm_compute; reflexivity.
Defined.

Lemma getMatrix_monotone_in_cutoff_witness :
  let m1 := getMatrixForEvaluations mixedEvaluations exampleCases 2 in
  let m2 := getMatrixForEvaluations mixedEvaluations exampleCases 4 in
  tp m2 <= tp m1 /\ fp m2 <= fp m1 /\ tn m1 <= tn m2 /\ fn m1 <= fn m2.
Proof.
  pose proof (getMatrix_monotone_in_cutoff mixedEvaluations exampleCases 2 4 0.5) as H.
  cbn zeta in H. destruct H as (H & _); [lia|vm_compute; reflexivity|]. exact H.
Defined.

Lemma calculateAUC_constant_score_witness :
  calculateAUC constantEvaluations exampleCases = 0.5%float.
Proof.
  apply (calculateAUC_constant_score constantEvaluations exampleCases 3).
  - vm_compute. reflexivity.
  - intros c e Hin. cbn in Hin.
    destruct Hin as [<-|[<-|[<-|[<-|[]]]]]; vm_compute; intros [= <-] _; reflexivity.
Defined.

Lemma calculateAUC_inverted_separation_witness :
  calculateAUC invertedEvaluations exampleCases = 0%float.
Proof.
  apply calculateAUC_inverted_separation.
  - vm_compute. reflexivity.
  - intros c e Hin. cbn in Hin.
    destruct Hin as [<-|[<-|[<-|[<-|[]]]]]; vm_compute; intros [= <-] _; reflexivity.
  - exists (parsedCase 2 T3). vm_compute. auto.
  - exists (parsedCase 1 T1). vm_compute. auto.
Defined.

Lemma tTestIndependent_constant_samples_witness :
  @tTestIndependent RefMath.math (repeat (Z2num 5) 3) (repeat (Z2num 5) 2)
  = Some {| TTestResult.t := infinity; TTestResult.df := 3; TTestResult.p := 0 |}.
Proof.
  apply (@tTestIndependent_constant_samples RefMath.math 5 5 3 2);
    try lia; vm_compute; reflexivity.
Defined.

Lemma tTest_zero_statistic_witness :
  exists r, @tTestPaired RefMath.math [1; 2; 3]%float [2; 1; 3]%float = Some r /\
            TTestResult.p r = 1%float.
Proof.
  exists {| TTestResult.t := 0; TTestResult.df := 2; TTestResult.p := 1 |}.
  assert (Hr : @tTestPaired RefMath.math [1; 2; 3]%float [2; 1; 3]%float
               = Some {| TTestResult.t := 0; TTestResult.df := 2; TTestResult.p := 1 |})
    by (vm_compute; reflexivity).
  split; [exact Hr|].
  apply (@tTest_zero_statistic RefMath.math [1; 2; 3]%float [2; 1; 3]%float);
    [vm_compute; reflexivity|vm_compute; reflexivity|right; exact Hr|reflexivity].
Defined.

Lemma zTestForProportions_degenerate_witness :
  @zTestForProportions RefMath.math (Z2num 0) (Z2num 5) (Z2num 0) (Z2num 7) = 1%float.
Proof.
  apply (@zTestForProportions_degenerate RefMath.math 0 5 0 7); try lia.
Defined.

Lemma handleEvaluationUpdate_stores_witness :
  App.userEvaluations
    (App.handleEvaluationUpdate 2 (withFinal 4 DEFAULT_EVAL) exampleState) !! 2
  = Some (withFinal 4 DEFAULT_EVAL).
Proof.
  apply (@handleEvaluationUpdate_stores RefMath.math exampleState (reader "a") 2
           (withFinal 4 DEFAULT_EVAL)).
  reflexivity.
Defined.

Lemma reachable_registered_witness : registered exampleState.
Proof.
  apply (@reachable_registered RefMath.math exampleState 3 0.5%float 50).
  unfold exampleState. repeat (apply reachable_handle; [|exact I]). apply reachable_initial.
Defined.

Lemma evaluatedCasesCount_is_row_count_witness :
  evaluatedCount (@readerResult RefMath.math (App.allEvaluations exampleState)
                    (App.cases exampleState) 3 0.5 50 (reader "a"))
  = evaluatedCasesCount (App.userEvaluations exampleState).
Proof.
  apply (@evaluatedCasesCount_is_row_count RefMath.math exampleState (reader "a")).
  reflexivity.
Defined.

Lemma exampleSession_running : running exampleSession.
Proof.
  unfold exampleSession.
  apply running_screen.
  - apply running_screen.
    + apply (running_mount EvaluationScreen.mounted).
      apply running_request; [|exact I|exact I].
      apply running_request; [|exact I|exact I].
      apply running_initial.
    + split; [reflexivity|]. split; [eexists; reflexivity|].
      split; [eexists; reflexivity|]. exact I.
  - split; [reflexivity|]. split; [eexists; reflexivity|].
    split; [eexists; reflexivity|]. cbn. tauto.
Defined.

Lemma running_scores_in_range_witness :
  inRange (EvaluationScreen.currentEval (fst exampleSession)) /\
  forall i evals, App.allEvaluations (snd exampleSession) !! i = Some evals ->
    (forall k e, evals !! k = Some e ->
       inRange e /\ exists c, In c (App.cases (snd exampleSession)) /\ caseNumber c = k) /\
    forall cutoff,
      let m := getMatrixForEvaluations evals (App.cases (snd exampleSession)) cutoff in
      tp m + fp m + tn m + fn m
      = Z.of_nat (length (relevantCasesOf evals (App.cases (snd exampleSession)))) /\
      (5 < cutoff -> tp m = 0 /\ fp m = 0) /\
      (cutoff <= 1 -> tn m = 0 /\ fn m = 0).
Proof.
  apply (running_scores_in_range (fst exampleSession) (snd exampleSession)).
  exact exampleSession_running.
Defined.

Lemma running_progress_counts_cases_witness :
  (forall i evals cutoff, App.allEvaluations (snd exampleSession) !! i = Some evals ->
     let m := getMatrixForEvaluations evals (App.cases (snd exampleSession)) cutoff in
     evaluatedCasesCount evals = tp m + fp m + tn m + fn m /\
     evaluatedCasesCount evals <= EvaluationScreen.totalCases (snd exampleSession)) /\
  (EvaluationScreen.allCasesEvaluated (snd exampleSession) = true <->
     App.cases (snd exampleSession) <> [] /\
     forall c, In c (App.cases (snd exampleSession)) ->
       hasFinal (App.userEvaluations (snd exampleSession)) (caseNumber c) = true).
Proof.
  apply (running_progress_counts_cases (fst exampleSession) (snd exampleSession)).
  - exact exampleSession_running.
  - cbn. repeat (constructor; [cbn; lia|]). constructor.
Defined.

Lemma showCase_after_update_witness :
  let l := EvaluationScreen.mounted in
  let value := EvaluationScreen.setField EvaluationScreen.K_viradsFinal 4 DEFAULT_EVAL in
  let changed :=
    EvaluationScreen.showCase
      (EvaluationScreen.handleEvalChange EvaluationScreen.K_viradsFinal 4 (l, exampleUploaded)) in
  let stopped := EvaluationScreen.handleStopTimer (l, exampleUploaded) in
  (EvaluationScreen.currentEval (fst changed) = value /\
   App.userEvaluations (snd changed) !! 1 = Some value /\
   EvaluationScreen.currentIndex (fst changed) = 0 /\
   EvaluationScreen.timerIsActive (fst changed) = false /\
   EvaluationScreen.sessionTime (fst changed) = 0 /\
   EvaluationScreen.totalTimeForCase (fst changed) = (EvaluationScreen.orZero 0 + 0)%float) /\
  (EvaluationScreen.showCase stopped = stopped /\
   readingTime (EvaluationScreen.currentEval (fst stopped))
     = EvaluationScreen.totalTimeForCase l /\
   App.userEvaluations (snd stopped) !! 1
     = Some (EvaluationScreen.currentEval (fst stopped)) /\
   EvaluationScreen.timerIsActive (fst stopped) = false /\
   EvaluationScreen.sessionTime (fst stopped) = 0).
Proof.
  exact (showCase_after_update EvaluationScreen.K_viradsFinal 4 EvaluationScreen.mounted
           exampleUploaded (reader "a") (parsedCase 1 T1) eq_refl eq_refl).
Defined.

Lemma running_progress_percentage_witness :
  let p := EvaluationScreen.progressPercentage (snd exampleSession) in
  ((0 <=? p)%float = true /\ (p <=? 100)%float = true) /\
  (EvaluationScreen.allCasesEvaluated (snd exampleSession) = true -> p = 100%float) /\
  (evaluatedCasesCount (App.userEvaluations (snd exampleSession)) = 0 -> p = 0%float).
Proof.
  apply (running_progress_percentage (fst exampleSession) (snd exampleSession)).
  - exact exampleSession_running.
  - vm_compute. reflexivity.
Defined.

Lemma finish_after_survey_witness :
  let again (s' : App.State) :=
    App.handleFinishEvaluations
      (App.handleUserSelect (reader "a") (App.handleReturnToLogin s')) in
  App.view (App.handleFinishEvaluations (App.handleSurveyUpdate App.noAnswers exampleUploaded))
    = App.analysis /\
  App.view (App.handleFinishEvaluations (App.handleSurveySubmit App.noAnswers exampleUploaded))
    = App.analysis /\
  App.view (again (App.handleSurveyUpdate App.noAnswers exampleUploaded)) = App.analysis /\
  (App.allSurveyResponses exampleUploaded !! User.id (reader "a") = None ->
     App.view (App.handleFinishEvaluations exampleUploaded) = App.survey) /\
  App.view (App.handleFinishEvaluations (App.handleDataUpload exampleCases exampleUploaded))
    = App.survey.
Proof.
  exact (finish_after_survey exampleUploaded (reader "a") App.noAnswers exampleCases eq_refl).
Defined.

Lemma pairedComparison_swap_witness :
  let '(sample1, sample2, _) :=
    @pairedComparison RefMath.math exampleTimes exampleCreated [reader "a"; reader "b"]
                      "a" "b" 75 in
  let '(swapped1, swapped2, _) :=
    @pairedComparison RefMath.math exampleTimes exampleCreated [reader "a"; reader "b"]
                      "b" "a" 75 in
  swapped1 = sample2 /\ swapped2 = sample1.
Proof.
  apply (@pairedComparison_swap RefMath.math exampleTimes exampleCreated
           [reader "a"; reader "b"] "a" "b" 75).
  right. right. left. lia.
Defined.

(** At 100 percent the pairs follow the order in which the first reader
    stored the case numbers that are not array indices, so the other order of
    the readers pairs the same cases in another order. *)
Lemma pairedComparison_order_of_creation :
  let first :=
    @pairedComparison RefMath.math exampleTimes exampleCreated [reader "a"; reader "b"]
                      "a" "b" 100 in
  let second :=
    @pairedComparison RefMath.math exampleTimes exampleCreated [reader "a"; reader "b"]
                      "b" "a" 100 in
  (fst (fst first) = [9; 31; 12; 40] /\ snd (fst first) = [20; 33; 10; 8])%float /\
  (fst (fst second) = [20; 33; 8; 10] /\ snd (fst second) = [9; 31; 40; 12])%float.
Proof. vm_compute. repeat split; reflexivity. Qed.
